(** * Multi-agent DDPG for auction games: replay buffer, networks, agent, coordinator

    A shallow embedding of [src/buffer.py], [refactoring/networks.py],
    [refactoring/agent.py], [src/maddpg.py] and [refactoring/env.py].

    Conventions.
    - Python integers that only ever count (sizes, counters, indices, batch
      sizes) are [nat]; a Python exception is [None] in the [option] monad.
    - Tensor and array entries are idealised as real numbers ([R]); the
      replay buffer is polymorphic in the entry type so that it can also be
      run on integers.
    - A 2-D array or tensor is the list of its rows; a one-dimensional
      argument of the replay buffer is a list, a bare number being the list
      of one entry.
    - A random draw is an explicit argument of the function that consumes
      it. *)

From Stdlib Require Import Reals Lra Lia ZArith.
From stdpp Require Import base list option.

(** ** Python and numpy list primitives *)

(** [l[a:b]] for [0 <= a] and [0 <= b]: out-of-range bounds are clipped. *)
Definition slice {A : Type} (a b : nat) (l : list A) : list A :=
  drop a (take b l).

(** [arr[batch]] with an index array: every index must be in range. *)
Definition gather {A : Type} (arr : list A) (batch : list nat) : option (list A) :=
  mapM (fun i => arr !! i) batch.

(** [np.random.choice(a, size)]: [size] indices below [a], drawn with
    replacement.  The predicate says that [batch] is a possible outcome. *)
Definition random_choice (a size : nat) (batch : list nat) : Prop :=
  length batch = size /\ Forall (fun i => i < a) batch.

(** ** buffer.py *)

Module Buffer.
Section ReplayBuffer.
Context {A : Type}.
(** the entry written by [np.zeros] *)
Variable zero : A.

Record ReplayBuffer : Type := mkReplayBuffer {
  mem_size : nat;
  mem_cntr : nat;
  state_memory : list (list A);
  action_memory : list (list A);
  reward_memory : list A;
  others_states : list (list A);
  others_actions : list (list A)
}.

(** [np.zeros] refuses a negative dimension: [num_agents - 1] is negative
    for [num_agents = 0], and the product with a positive width then is. *)
Definition __init__ (max_size input_shape n_actions num_agents : nat)
  : option ReplayBuffer :=
  if (num_agents =? 0) && ((0 <? input_shape) || (0 <? n_actions)) then None
  else Some {|
    mem_size := max_size;
    mem_cntr := 0;
    state_memory := replicate max_size (replicate input_shape zero);
    action_memory := replicate max_size (replicate n_actions zero);
    reward_memory := replicate max_size zero;
    others_states :=
      replicate max_size (replicate (input_shape * (num_agents - 1)) zero);
    others_actions :=
      replicate max_size (replicate (n_actions * (num_agents - 1)) zero) |}.

(** The arguments of one [store_transition]: four one-dimensional
    sequences (a bare number is a sequence of one entry) and the reward. *)
Record Transition : Type := mkTransition {
  t_state : list A;
  t_action : list A;
  t_reward : A;
  t_others_states : list A;
  t_others_actions : list A
}.

(** What numpy writes for [arr[index] = value] into a row of [w] entries:
    a value of [w] entries is copied, the entry of a one-entry value is
    repeated along the row, and a value of any other length raises
    ValueError. *)
Definition broadcast_to (w : nat) (value : list A) : option (list A) :=
  if length value =? w then Some value
  else match value with
       | [x] => Some (replicate w x)
       | _ => None
       end.

(** [arr[index] = value] on a 2-D array; IndexError without a row
    [index]. *)
Definition set_row (arr : list (list A)) (index : nat) (value : list A)
  : option (list (list A)) :=
  old ← arr !! index;
  row ← broadcast_to (length old) value;
  Some (<[index := row]> arr).

(** [arr[index] = value] on a 1-D array. *)
Definition set_entry (arr : list A) (index : nat) (value : A)
  : option (list A) :=
  if index <? length arr then Some (<[index := value]> arr) else None.

(** [self.mem_cntr % self.mem_size] raises ZeroDivisionError for a buffer
    of size 0; the five assignments follow in the order of the source, the
    counter being incremented after the third. *)
Definition store_transition (b : ReplayBuffer)
    (state action : list A) (reward : A)
    (others_states' others_actions' : list A) : option ReplayBuffer :=
  if mem_size b =? 0 then None
  else
    let index := mem_cntr b mod mem_size b in
    state_memory' ← set_row (state_memory b) index state;
    action_memory' ← set_row (action_memory b) index action;
    reward_memory' ← set_entry (reward_memory b) index reward;
    let mem_cntr' := mem_cntr b + 1 in
    others_states'' ← set_row (others_states b) index others_states';
    others_actions'' ← set_row (others_actions b) index others_actions';
    Some {|
      mem_size := mem_size b;
      mem_cntr := mem_cntr';
      state_memory := state_memory';
      action_memory := action_memory';
      reward_memory := reward_memory';
      others_states := others_states'';
      others_actions := others_actions'' |}.

Definition store (b : ReplayBuffer) (t : Transition) : option ReplayBuffer :=
  store_transition b (t_state t) (t_action t) (t_reward t)
                   (t_others_states t) (t_others_actions t).

(** Storing a sequence of transitions, oldest first. *)
Fixpoint store_all (b : ReplayBuffer) (ts : list Transition)
  : option ReplayBuffer :=
  match ts with
  | [] => Some b
  | t :: ts' => b' ← store b t; store_all b' ts'
  end.

(** The five arrays a sampling method returns. *)
Record Batch : Type := mkBatch {
  b_states : list (list A);
  b_actions : list (list A);
  b_rewards : list A;
  b_others_states : list (list A);
  b_others_actions : list (list A)
}.

(** [batch] is the outcome of [np.random.choice(max_mem, batch_size)]. *)
Definition sample_buffer (b : ReplayBuffer) (batch : list nat) : option Batch :=
  states ← gather (state_memory b) batch;
  actions ← gather (action_memory b) batch;
  rewards ← gather (reward_memory b) batch;
  others_states' ← gather (others_states b) batch;
  others_actions' ← gather (others_actions b) batch;
  Some (mkBatch states actions rewards others_states' others_actions').

Definition max_mem (b : ReplayBuffer) : nat := min (mem_cntr b) (mem_size b).

Definition sample_last_buffer (b : ReplayBuffer) (batch_size : nat) : Batch :=
  let batch_size := if mem_cntr b <? batch_size then mem_cntr b else batch_size in
  let lo := mem_cntr b - batch_size in
  let hi := mem_cntr b in
  mkBatch (slice lo hi (state_memory b))
          (slice lo hi (action_memory b))
          (slice lo hi (reward_memory b))
          (slice lo hi (others_states b))
          (slice lo hi (others_actions b)).

(** The batch whose rows are the transitions [ts], in this order. *)
Definition batch_of (ts : list Transition) : Batch :=
  mkBatch (map t_state ts) (map t_action ts) (map t_reward ts)
          (map t_others_states ts) (map t_others_actions ts).

(** Every array has [mem_size] rows. *)
Definition wf (b : ReplayBuffer) : Prop :=
  length (state_memory b) = mem_size b /\
  length (action_memory b) = mem_size b /\
  length (reward_memory b) = mem_size b /\
  length (others_states b) = mem_size b /\
  length (others_actions b) = mem_size b.

(** Every row of the four 2-D arrays has the width [__init__] gave it. *)
Definition row_widths (input_shape n_actions num_agents : nat) (b : ReplayBuffer)
  : Prop :=
  Forall (fun r => length r = input_shape) (state_memory b) /\
  Forall (fun r => length r = n_actions) (action_memory b) /\
  Forall (fun r => length r = input_shape * (num_agents - 1)) (others_states b) /\
  Forall (fun r => length r = n_actions * (num_agents - 1)) (others_actions b).

(** numpy accepts [value] for a row of [w] entries. *)
Definition fits_row (w : nat) (value : list A) : Prop :=
  length value = w \/ length value = 1.

(** The row numpy then writes. *)
Definition np_row (w : nat) (value : list A) : list A :=
  match value with
  | [x] => replicate w x
  | _ => value
  end.

(** Every field of [t] is accepted by a buffer built for
    [(input_shape, n_actions, num_agents)]. *)
Definition storable (input_shape n_actions num_agents : nat) (t : Transition)
  : Prop :=
  fits_row input_shape (t_state t) /\
  fits_row n_actions (t_action t) /\
  fits_row (input_shape * (num_agents - 1)) (t_others_states t) /\
  fits_row (n_actions * (num_agents - 1)) (t_others_actions t).

(** Every field of [t] has the width of its array. *)
Definition exact (input_shape n_actions num_agents : nat) (t : Transition)
  : Prop :=
  length (t_state t) = input_shape /\
  length (t_action t) = n_actions /\
  length (t_others_states t) = input_shape * (num_agents - 1) /\
  length (t_others_actions t) = n_actions * (num_agents - 1).

(** The transition as the arrays of such a buffer hold it: [t] itself when
    it is [exact], a one-entry field being repeated along its row
    otherwise. *)
Definition as_stored (input_shape n_actions num_agents : nat) (t : Transition)
  : Transition :=
  {| t_state := np_row input_shape (t_state t);
     t_action := np_row n_actions (t_action t);
     t_reward := t_reward t;
     t_others_states := np_row (input_shape * (num_agents - 1)) (t_others_states t);
     t_others_actions := np_row (n_actions * (num_agents - 1)) (t_others_actions t) |}.

(** The buffer after the fields of [t] were written, as they are, at the
    ring index. *)
Definition write (b : ReplayBuffer) (t : Transition) : ReplayBuffer :=
  let index := mem_cntr b mod mem_size b in
  {| mem_size := mem_size b;
     mem_cntr := mem_cntr b + 1;
     state_memory := <[index := t_state t]> (state_memory b);
     action_memory := <[index := t_action t]> (action_memory b);
     reward_memory := <[index := t_reward t]> (reward_memory b);
     others_states := <[index := t_others_states t]> (others_states b);
     others_actions := <[index := t_others_actions t]> (others_actions b) |}.

(** While the counter has not passed the capacity, the first [mem_cntr]
    rows of every array are the stored transitions in insertion order. *)
Definition holds_prefix b (ts : list Transition) : Prop :=
  mem_cntr b = length ts /\
  take (length ts) (state_memory b) = map t_state ts /\
  take (length ts) (action_memory b) = map t_action ts /\
  take (length ts) (reward_memory b) = map t_reward ts /\
  take (length ts) (others_states b) = map t_others_states ts /\
  take (length ts) (others_actions b) = map t_others_actions ts.

End ReplayBuffer.
End Buffer.

(** ** networks.py *)

Module Networks.
Open Scope R_scope.

(** *** torch primitives used by the networks *)

(** [nn.Linear(in_features, out_features)]: [weight] has shape
    [(out_features, in_features)], [bias] has shape [(out_features)]. *)
Record Linear : Type := mkLinear {
  in_features : nat;
  out_features : nat;
  weight : list (list R);
  bias : list R
}.

Definition linear_shape (l : Linear) : Prop :=
  length (weight l) = out_features l /\
  Forall (fun row => length row = in_features l) (weight l) /\
  length (bias l) = out_features l.

Definition dot (u v : list R) : R := foldr Rplus 0 (zip_with Rmult u v).

(** [layer(x)] on one row: [x @ weight.T + bias]; the width of [x] must be
    [in_features]. *)
Definition linear_row (l : Linear) (x : list R) : option (list R) :=
  if (length x =? in_features l)%nat
  then Some (zip_with (fun row b => dot row x + b) (weight l) (bias l))
  else None.

Definition relu (x : R) : R := Rmax 0 x.

Definition sigmoid (x : R) : R := 1 / (1 + exp (- x)).

(** [tensor.clamp(lo, hi)] on one entry. *)
Definition clamp (lo hi x : R) : R := Rmin (Rmax x lo) hi.

(** [T.cat(tensors, dim=1)]: the rows of the tensors side by side; an empty
    list of tensors, or tensors with different numbers of rows, raise. *)
Fixpoint cat_dim1 (tensors : list (list (list R))) : option (list (list R)) :=
  match tensors with
  | [] => None
  | [t] => Some t
  | t :: rest =>
      r ← cat_dim1 rest;
      if (length t =? length r)%nat then Some (zip_with app t r) else None
  end.

(** One row whose entries are redrawn from [U(a, b)]; [u] holds one draw
    from [U(0, 1)] per entry. *)
Definition redraw (a b : R) (data u : list R) : list R :=
  zip_with (fun _ ui => a + (b - a) * ui) data u.

(** [T.nn.init.uniform_(data, a, b)] on a 1-D and on a 2-D tensor: torch
    refuses [a > b], whatever the size of the tensor; otherwise every entry
    is redrawn from [U(a, b)]. *)
Definition uniform_ (data : list R) (a b : R) (u : list R) : option (list R) :=
  if Rlt_dec b a then None else Some (redraw a b data u).

Definition uniform_2d (data : list (list R)) (a b : R) (u : list (list R))
  : option (list (list R)) :=
  if Rlt_dec b a then None else Some (zip_with (redraw a b) data u).

(** *** CriticNetwork *)

Record CriticNetwork : Type := mkCritic {
  c_fc1 : Linear;
  c_fc2 : Linear;
  c_q : Linear
}.

Definition critic_row (net : CriticNetwork) (concatenated_inputs : list R)
  : option (list R) :=
  x ← linear_row (c_fc1 net) concatenated_inputs;
  x ← linear_row (c_fc2 net) (map relu x);
  linear_row (c_q net) (map relu x).

Definition critic_forward (net : CriticNetwork)
    (state action others_states others_actions : list (list R))
  : option (list (list R)) :=
  concatenated_inputs ← cat_dim1 [state; action; others_states; others_actions];
  mapM (critic_row net) concatenated_inputs.

(** Width of the critic's input, as [CriticNetwork.__init__] computes it. *)
Definition shape_of_input (n_agents input_dims n_actions : nat)
    (flag : bool) (extra : nat) : nat :=
  if flag then ((n_agents + extra) * (input_dims + n_actions))%nat
  else (n_agents * (input_dims + n_actions))%nat.

(** *** ActorNetwork *)

Record ActorNetwork : Type := mkActor {
  a_fc1 : Linear;
  a_fc2 : Linear;
  a_mu : Linear
}.

Definition fan_in (layer : Linear) : nat := length (weight layer).

(** [scale / np.sqrt(fan_in)].  For [fan_in = 0] numpy divides by [0.0]
    and returns [inf], [-inf] or [nan]: no real number, [None] here. *)
Definition limit (layer : Linear) (scale : R) : option R :=
  if (fan_in layer =? 0)%nat then None
  else Some (scale / sqrt (INR (fan_in layer))).

(** [u_w] and [u_b] are the draws for the weight and for the bias.
    [uniform_] raises for a limit that is no real number (its range is not
    finite or not ordered) and for a negative limit ([-limit > limit]). *)
Definition _init_layer (layer : Linear) (scale : R)
    (u_w : list (list R)) (u_b : list R) : option Linear :=
  limit ← limit layer scale;
  weight' ← uniform_2d (weight layer) (- limit) limit u_w;
  bias' ← uniform_ (bias layer) (- limit) limit u_b;
  Some {| in_features := in_features layer;
          out_features := out_features layer;
          weight := weight';
          bias := bias' |}.

(** [nn.Linear(i, o)] before [_init_layer] overwrites every entry. *)
Definition nn_Linear (i o : nat) : Linear :=
  {| in_features := i; out_features := o;
     weight := replicate o (replicate i 0); bias := replicate o 0 |}.

(** The draws of one layer: weight draws and bias draws. *)
Definition Draws : Type := (list (list R) * list R)%type.

Definition actor_init (input_dims fc1_dims fc2_dims n_actions : nat)
    (d1 d2 d3 : Draws) : option ActorNetwork :=
  let fc1 := nn_Linear input_dims fc1_dims in
  let fc2 := nn_Linear fc1_dims fc2_dims in
  let mu := nn_Linear fc2_dims n_actions in
  fc1 ← _init_layer fc1 1 d1.1 d1.2;
  fc2 ← _init_layer fc2 1 d2.1 d2.2;
  mu ← _init_layer mu 0.003 d3.1 d3.2;
  Some {| a_fc1 := fc1; a_fc2 := fc2; a_mu := mu |}.

Definition actor_row (net : ActorNetwork) (state : list R) : option (list R) :=
  x ← linear_row (a_fc1 net) state;
  x ← linear_row (a_fc2 net) (map relu x);
  y ← linear_row (a_mu net) (map relu x);
  Some (map sigmoid y).

Definition actor_forward (net : ActorNetwork) (state : list (list R))
  : option (list (list R)) :=
  mapM (actor_row net) state.

(** *** [parameters()] and in-place [copy_] *)

Inductive Tensor : Type :=
| Vec (v : list R)
| Mat (m : list (list R)).

Definition linear_parameters (l : Linear) : list Tensor :=
  [Mat (weight l); Vec (bias l)].

Definition actor_parameters (net : ActorNetwork) : list Tensor :=
  linear_parameters (a_fc1 net) ++ linear_parameters (a_fc2 net)
    ++ linear_parameters (a_mu net).

Definition critic_parameters (net : CriticNetwork) : list Tensor :=
  linear_parameters (c_fc1 net) ++ linear_parameters (c_fc2 net)
    ++ linear_parameters (c_q net).

Definition with_data (l : Linear) (w : list (list R)) (b : list R) : Linear :=
  {| in_features := in_features l; out_features := out_features l;
     weight := w; bias := b |}.

(** The network whose parameter tensors hold [ps], in [parameters()]
    order. *)
Definition actor_copy_ (net : ActorNetwork) (ps : list Tensor)
  : option ActorNetwork :=
  match ps with
  | [Mat w1; Vec b1; Mat w2; Vec b2; Mat w3; Vec b3] =>
      Some {| a_fc1 := with_data (a_fc1 net) w1 b1;
              a_fc2 := with_data (a_fc2 net) w2 b2;
              a_mu := with_data (a_mu net) w3 b3 |}
  | _ => None
  end.

Definition critic_copy_ (net : CriticNetwork) (ps : list Tensor)
  : option CriticNetwork :=
  match ps with
  | [Mat w1; Vec b1; Mat w2; Vec b2; Mat w3; Vec b3] =>
      Some {| c_fc1 := with_data (c_fc1 net) w1 b1;
              c_fc2 := with_data (c_fc2 net) w2 b2;
              c_q := with_data (c_q net) w3 b3 |}
  | _ => None
  end.

(** Entrywise combination of two tensors of one shape; tensors of
    different shapes are refused. *)
Definition zip_rows (f : R -> R -> R) (u v : list R) : option (list R) :=
  if (length u =? length v)%nat then Some (zip_with f u v) else None.

Definition tensor_zip (f : R -> R -> R) (s t : Tensor) : option Tensor :=
  match s, t with
  | Vec u, Vec v => Vec <$> zip_rows f u v
  | Mat m, Mat n =>
      if (length m =? length n)%nat
      then Mat <$> mapM (fun uv => zip_rows f uv.1 uv.2) (zip m n)
      else None
  | _, _ => None
  end.

(** *** Shapes *)

(** [l] is an [nn.Linear(i, o)]. *)
Definition linear_dims (i o : nat) (l : Linear) : Prop :=
  in_features l = i /\ out_features l = o /\ linear_shape l.

(** [net] is an [ActorNetwork] built for these dimensions. *)
Definition actor_dims (input_dims fc1_dims fc2_dims n_actions : nat)
    (net : ActorNetwork) : Prop :=
  linear_dims input_dims fc1_dims (a_fc1 net) /\
  linear_dims fc1_dims fc2_dims (a_fc2 net) /\
  linear_dims fc2_dims n_actions (a_mu net).

(** [net] is a [CriticNetwork] whose first layer reads [shape_of_input]
    entries. *)
Definition critic_dims (shape_of_input fc1_dims fc2_dims : nat)
    (net : CriticNetwork) : Prop :=
  linear_dims shape_of_input fc1_dims (c_fc1 net) /\
  linear_dims fc1_dims fc2_dims (c_fc2 net) /\
  linear_dims fc2_dims 1 (c_q net).

(** Entrywise combination of two tensors, as a total function: what
    [tensor_zip] computes on tensors of one shape. *)
Definition tensor_map2 (f : R -> R -> R) (s t : Tensor) : Tensor :=
  match s, t with
  | Vec u, Vec v => Vec (zip_with f u v)
  | Mat m, Mat n => Mat (zip_with (zip_with f) m n)
  | _, _ => s
  end.

Definition same_shape (s t : Tensor) : Prop :=
  match s, t with
  | Vec u, Vec v => length u = length v
  | Mat m, Mat n => Forall2 (fun r r' => length r = length r') m n
  | _, _ => False
  end.

End Networks.

(** ** agent.py *)

Module Agent.
Import Networks.
Open Scope R_scope.

Record Agent : Type := mkAgent {
  gamma : R;
  tau : R;
  batch_size : nat;
  total_episodes : Z;
  noise_std : R;
  actor : ActorNetwork;
  critic : CriticNetwork;
  target_actor : ActorNetwork;
  target_critic : CriticNetwork
}.

(** [tau * param.data + (1 - tau) * target_param.data] on one entry. *)
Definition blend (tau target_param param : R) : R :=
  tau * param + (1 - tau) * target_param.

(** One [for target_param, param in zip(...)] loop: the new data of every
    target parameter. *)
Definition soft_update (tau : R) (target_params params : list Tensor)
  : option (list Tensor) :=
  mapM (fun tp => tensor_zip (blend tau) tp.1 tp.2) (zip target_params params).

Definition update_network_parameters (self : Agent) (tau' : option R)
  : option Agent :=
  let tau := match tau' with None => tau self | Some t => t end in
  new_critic ← soft_update tau (critic_parameters (target_critic self))
                               (critic_parameters (critic self));
  target_critic' ← critic_copy_ (target_critic self) new_critic;
  new_actor ← soft_update tau (actor_parameters (target_actor self))
                              (actor_parameters (actor self));
  target_actor' ← actor_copy_ (target_actor self) new_actor;
  Some {| gamma := gamma self; tau := Agent.tau self;
          batch_size := batch_size self;
          total_episodes := total_episodes self;
          noise_std := noise_std self;
          actor := actor self; critic := critic self;
          target_actor := target_actor';
          target_critic := target_critic' |}.

(** The four networks are the ones the constructors of networks.py
    return for the dimensions passed to [Agent.__init__]. *)
Definition __init__ (tau gamma : R) (batch_size : nat) (total_eps : Z)
    (noise_std : R) (actor : ActorNetwork) (critic : CriticNetwork)
    (target_actor : ActorNetwork) (target_critic : CriticNetwork)
  : option Agent :=
  update_network_parameters
    {| gamma := gamma; tau := tau; batch_size := batch_size;
       total_episodes := total_eps; noise_std := noise_std;
       actor := actor; critic := critic;
       target_actor := target_actor; target_critic := target_critic |}
    (Some 1).

(** [np.random.normal(loc, scale)]: ValueError for [scale < 0], otherwise
    [loc + scale * z] for a standard normal draw [z]. *)
Definition random_normal (loc scale z : R) : option R :=
  if Rlt_dec scale 0 then None else Some (loc + scale * z).

(** [observation] is the vector of one observation, [z] the standard
    normal draw behind [np.random.normal].  The noise is drawn before the
    decay is computed; [episode / total_episodes] is a true division and
    raises ZeroDivisionError for [total_episodes = 0]. *)
Definition choose_action (self : Agent) (observation : list R)
    (episode : Z) (evaluation : bool) (z : R) : option (list (list R)) :=
  let obs_tensor := [observation] in
  action ← actor_forward (actor self) obs_tensor;
  if negb evaluation then
    noise ← random_normal 0 (noise_std self) z;
    if (total_episodes self =? 0)%Z then None
    else
      let decay := 1 - IZR episode / IZR (total_episodes self) in
      let action := map (map (fun a => a + noise * decay)) action in
      let action := map (map (clamp 0 1)) action in
      Some action
  else Some action.

(** [choose_action] as the specification words it: the decay is clamped at
    0 from below. *)
Definition choose_action_clamped_decay (self : Agent) (observation : list R)
    (episode : Z) (evaluation : bool) (z : R) : option (list (list R)) :=
  let obs_tensor := [observation] in
  action ← actor_forward (actor self) obs_tensor;
  if negb evaluation then
    noise ← random_normal 0 (noise_std self) z;
    if (total_episodes self =? 0)%Z then None
    else
      let decay := Rmax 0 (1 - IZR episode / IZR (total_episodes self)) in
      let action := map (map (fun a => a + noise * decay)) action in
      let action := map (map (clamp 0 1)) action in
      Some action
  else Some action.

(** The target networks have the shapes of the live networks, as the
    constructor builds them. *)
Definition twin_shapes (self : Agent) : Prop :=
  Forall2 same_shape (critic_parameters (target_critic self))
                     (critic_parameters (critic self)) /\
  Forall2 same_shape (actor_parameters (target_actor self))
                     (actor_parameters (actor self)).

End Agent.

(** ** maddpg.py *)

Module MADDPG.
Import Networks Agent.
Open Scope R_scope.

Record MADDPG : Type := mkMADDPG {
  agents : list Agent;
  num_agents : nat;
  batch_size : nat;
  gamma : R;
  max_size : nat;
  memory : Buffer.ReplayBuffer (A := R);
  short_memory : Buffer.ReplayBuffer (A := R)
}.

(** [new_agents] are the agents built by the loop over [range(n_agents)]. *)
Definition __init__ (new_agents : list Agent) (gamma : R)
    (BS input_dims n_actions n_agents : nat) : option MADDPG :=
  let max_size := Z.to_nat 1000000 in
  memory ← Buffer.__init__ 0 max_size input_dims n_actions n_agents;
  short_memory ← Buffer.__init__ 0 1 input_dims n_actions n_agents;
  Some {| agents := new_agents; num_agents := n_agents; batch_size := BS;
          gamma := gamma; max_size := max_size;
          memory := memory; short_memory := short_memory |}.

Definition remember (self : MADDPG) (t : Buffer.Transition (A := R))
  : option MADDPG :=
  memory' ← Buffer.store (memory self) t;
  short_memory' ← Buffer.store (short_memory self) t;
  Some {| agents := agents self; num_agents := num_agents self;
          batch_size := batch_size self; gamma := gamma self;
          max_size := max_size self;
          memory := memory'; short_memory := short_memory' |}.

Fixpoint remember_all (self : MADDPG) (ts : list (Buffer.Transition (A := R)))
  : option MADDPG :=
  match ts with
  | [] => Some self
  | t :: ts' => self' ← remember self t; remember_all self' ts'
  end.

(** *** Pieces of [learn] *)

(** [t[:, i]]: IndexError when a row has no entry [i]. *)
Definition column (t : list (list R)) (i : nat) : option (list R) :=
  mapM (fun row => row !! i) t.

(** [v.reshape(-1, 1)], [np.expand_dims(v, axis=1)], [v.unsqueeze(1)]. *)
Definition as_column (v : list R) : list (list R) := map (fun c => [c]) v.

(** The numpy block under [if flag]: the first column, tiled [num_tiles]
    times, is appended to every row. *)
Definition np_tile (flag : bool) (num_tiles : nat) (t : list (list R))
  : option (list (list R)) :=
  if flag then
    first_column ← column t 0;
    let tiled := map (replicate num_tiles) first_column in
    Some (zip_with app t tiled)
  else Some t.

(** The torch block under [if flag]; [T.cat] of [num_tiles = 0] tensors
    raises. *)
Definition torch_tile (flag : bool) (num_tiles : nat) (t : list (list R))
  : option (list (list R)) :=
  if flag then
    first_column ← column t 0;
    tiled ← cat_dim1 (replicate num_tiles (as_column first_column));
    cat_dim1 [t; tiled]
  else Some t.

(** [l.remove(x)]: the first occurrence goes; ValueError without one. *)
Fixpoint list_remove (x : nat) (l : list nat) : option (list nat) :=
  match l with
  | [] => None
  | y :: l' => if (y =? x)%nat then Some l' else cons y <$> list_remove x l'
  end.

(** Lines 74-83 (and 112-116): column [i] of [others_states] goes through
    the target actor of agent [indexes[i]]. *)
Definition others_forward (agents : list Agent) (num_agents idx : nat)
    (others_states : list (list R)) : option (list (list R)) :=
  let num_columns := (num_agents - 1)%nat in
  indexes ← list_remove idx (seq 0 num_agents);
  target_actions_list ←
    mapM (fun i =>
            other_state_column ← as_column <$> column others_states i;
            k ← indexes !! i;
            other ← agents !! k;
            actor_forward (target_actor other) other_state_column)
         (seq 0 num_columns);
  cat_dim1 target_actions_list.

(** [T.tensor(target)] of one-entry tensors followed by
    [view(batch_size, 1)]. *)
Definition as_scalar (t : list R) : option R :=
  match t with [x] => Some x | _ => None end.

(** Lines 96-100. *)
Definition critic_target (gamma : R) (batch_size : nat) (reward : list R)
    (critic_value_ : list (list R)) : option (list (list R)) :=
  target ← mapM (fun j =>
                   r ← reward !! j;
                   q ← critic_value_ !! j;
                   Some (map (fun v => r + gamma * v) q))
                (seq 0 batch_size);
  as_column <$> mapM as_scalar target.

(** What one pass over a store computed before its gradient steps. *)
Record PassLog : Type := mkPassLog {
  log_batch : Buffer.Batch (A := R);
  log_others_states : list (list R);
  log_target_actions : list (list R);
  log_others_target_actions : list (list R);
  log_critic_value_ : list (list R);
  log_target : list (list R)
}.

Section Learn.
(** The two optimiser steps ([zero_grad], [backward], [optimizer.step])
    belong to torch: the critic's step sees the regression target and
    the critic's inputs, the actor's step sees the critic and the
    critic's inputs other than the actor's own action. *)
Variable critic_step :
  CriticNetwork -> list (list R) ->
  list (list R) -> list (list R) -> list (list R) -> list (list R) ->
  CriticNetwork.
Variable actor_step :
  ActorNetwork -> CriticNetwork ->
  list (list R) -> list (list R) -> list (list R) -> ActorNetwork.

(** One of the two halves of [learn], from the sampling to the soft
    update, on the store [mem]; [batch] is the draw of
    [np.random.choice]. *)
Definition learn_pass (self : MADDPG) (mem : Buffer.ReplayBuffer (A := R))
    (idx : nat) (flag : bool) (num_tiles : nat) (batch : list nat)
  : option (MADDPG * PassLog) :=
  agent ← agents self !! idx;
  sampled ← Buffer.sample_buffer mem batch;
  let state := Buffer.b_states sampled in
  let action := Buffer.b_actions sampled in
  let reward := Buffer.b_rewards sampled in
  others_states ← np_tile flag num_tiles (Buffer.b_others_states sampled);
  others_actions ← np_tile flag num_tiles (Buffer.b_others_actions sampled);
  target_actions ← actor_forward (target_actor agent) state;
  others_target_actions ←
    others_forward (agents self) (num_agents self) idx others_states;
  others_target_actions ← torch_tile flag num_tiles others_target_actions;
  critic_value_ ← critic_forward (target_critic agent) state target_actions
                                 others_states others_target_actions;
  critic_value ← critic_forward (critic agent) state action
                                others_states others_actions;
  target ← critic_target (gamma self) (batch_size self) reward critic_value_;
  let critic' :=
    critic_step (critic agent) target state action others_states others_actions in
  mu ← actor_forward (actor agent) state;
  others_mus ← others_forward (agents self) (num_agents self) idx others_states;
  others_mus ← torch_tile flag num_tiles others_mus;
  actor_loss ← critic_forward critic' state mu others_states others_mus;
  let actor' := actor_step (actor agent) critic' state others_states others_mus in
  agent' ← update_network_parameters
             {| Agent.gamma := Agent.gamma agent; tau := tau agent;
                Agent.batch_size := Agent.batch_size agent;
                total_episodes := total_episodes agent;
                noise_std := noise_std agent;
                actor := actor'; critic := critic';
                target_actor := target_actor agent;
                target_critic := target_critic agent |}
             None;
  Some ({| agents := <[idx := agent']> (agents self);
           num_agents := num_agents self; batch_size := batch_size self;
           gamma := gamma self; max_size := max_size self;
           memory := memory self; short_memory := short_memory self |},
        mkPassLog sampled others_states target_actions
                  others_target_actions critic_value_ target).

(** [learn]: the logs of the passes that ran, in order; no log when the
    first gate returns, one when the second gate returns. *)
Definition learn (self : MADDPG) (idx : nat) (flag : bool) (num_tiles : nat)
    (batch_long batch_short : list nat) : option (MADDPG * list PassLog) :=
  if (Buffer.mem_cntr (memory self) <? batch_size self)%nat
  then Some (self, [])
  else
    '(self1, long) ← learn_pass self (memory self) idx flag num_tiles batch_long;
    if (Buffer.mem_cntr (short_memory self1) <? batch_size self1)%nat
    then Some (self1, [long])
    else
      '(self2, short) ← learn_pass self1 (short_memory self1) idx flag
                                   num_tiles batch_short;
      Some (self2, [long; short]).
End Learn.

(** *** Vocabulary of the properties *)

(** The [k]-th agent index in ascending order when [idx] is left out. *)
Definition other_agent (idx k : nat) : nat := if (k <? idx)%nat then k else S k.

(** Row [j] of the joint target actions of the others: for every column
    [k] below [num_agents - 1], in this order, the action of the target
    actor of agent [other_agent idx k] on entry [k] of row [j] of
    [others_states]; the actions are laid side by side. *)
Definition routed_row (agents : list Agent) (num_agents idx : nat)
    (others_states_j row : list R) : Prop :=
  exists blocks : list (list R),
    row = concat blocks /\
    Forall2 (fun k block =>
               exists c other,
                 others_states_j !! k = Some c /\
                 agents !! other_agent idx k = Some other /\
                 actor_row (target_actor other) [c] = Some block)
            (seq 0 (num_agents - 1)) blocks.

(** The regression target of sample [j] in a pass of agent [agent]. *)
Definition bootstrap_target (gamma : R) (agent : Agent) (log : PassLog) (j : nat)
  : Prop :=
  exists (state_j target_action_j others_states_j others_target_actions_j : list R)
         (reward_j q_j : R),
    Buffer.b_states (log_batch log) !! j = Some state_j /\
    Buffer.b_rewards (log_batch log) !! j = Some reward_j /\
    log_others_states log !! j = Some others_states_j /\
    log_others_target_actions log !! j = Some others_target_actions_j /\
    actor_row (target_actor agent) state_j = Some target_action_j /\
    critic_row (target_critic agent)
      (state_j ++ target_action_j ++ others_states_j ++ others_target_actions_j)
      = Some [q_j] /\
    log_target log !! j = Some [reward_j + gamma * q_j].

(** *** Shapes the coordinator relies on

    [learn] feeds single columns of [others_states] to the target actors,
    so observations have one entry ([input_dims = 1]). *)

Definition transition_dims (n_actions num_agents : nat)
    (t : Buffer.Transition (A := R)) : Prop :=
  length (Buffer.t_state t) = 1%nat /\
  length (Buffer.t_action t) = n_actions /\
  length (Buffer.t_others_states t) = (num_agents - 1)%nat /\
  length (Buffer.t_others_actions t) = (n_actions * (num_agents - 1))%nat.

Definition batch_dims (n_actions num_agents rows : nat)
    (b : Buffer.Batch (A := R)) : Prop :=
  (length (Buffer.b_states b) = rows /\
   length (Buffer.b_actions b) = rows /\
   length (Buffer.b_rewards b) = rows /\
   length (Buffer.b_others_states b) = rows /\
   length (Buffer.b_others_actions b) = rows) /\
  Forall (fun r => length r = 1%nat) (Buffer.b_states b) /\
  Forall (fun r => length r = n_actions) (Buffer.b_actions b) /\
  Forall (fun r => length r = (num_agents - 1)%nat) (Buffer.b_others_states b) /\
  Forall (fun r => length r = (n_actions * (num_agents - 1))%nat)
         (Buffer.b_others_actions b).

(** Columns the transfer-learning flag appends. *)
Definition tiles (flag : bool) (num_tiles : nat) : nat :=
  if flag then num_tiles else 0%nat.

(** Width of the rows [learn] hands to the critics. *)
Definition critic_width (n_actions num_agents : nat) (flag : bool)
    (num_tiles : nat) : nat :=
  (1 + n_actions + (num_agents - 1 + tiles flag num_tiles)
     + (n_actions * (num_agents - 1) + tiles flag num_tiles))%nat.

Definition agent_dims (n_actions fc1 fc2 width : nat) (a : Agent) : Prop :=
  actor_dims 1 fc1 fc2 n_actions (actor a) /\
  actor_dims 1 fc1 fc2 n_actions (target_actor a) /\
  critic_dims width fc1 fc2 (critic a) /\
  critic_dims width fc1 fc2 (target_critic a).

(** A coordinator whose agents and stores fit together. *)
Definition coordinator_dims (n_actions fc1 fc2 width : nat) (self : MADDPG)
  : Prop :=
  length (agents self) = num_agents self /\
  (2 <= num_agents self)%nat /\ (1 <= n_actions)%nat /\
  Forall (agent_dims n_actions fc1 fc2 width) (agents self).

(** Every row of a store has the width of its array. *)
Definition buffer_dims (n_actions num_agents : nat)
    (b : Buffer.ReplayBuffer (A := R)) : Prop :=
  Forall (fun r => length r = 1%nat) (Buffer.state_memory b) /\
  Forall (fun r => length r = n_actions) (Buffer.action_memory b) /\
  Forall (fun r => length r = (num_agents - 1)%nat) (Buffer.others_states b) /\
  Forall (fun r => length r = (n_actions * (num_agents - 1))%nat)
         (Buffer.others_actions b).

(** The optimiser steps keep the shapes of the networks. *)
Definition steps_keep_dims
    (critic_step : CriticNetwork -> list (list R) -> list (list R) ->
                   list (list R) -> list (list R) -> list (list R) -> CriticNetwork)
    (actor_step : ActorNetwork -> CriticNetwork -> list (list R) ->
                  list (list R) -> list (list R) -> ActorNetwork) : Prop :=
  (forall width fc1 fc2 c target s a os oa,
     critic_dims width fc1 fc2 c ->
     critic_dims width fc1 fc2 (critic_step c target s a os oa)) /\
  (forall i fc1 fc2 n a c s os om,
     actor_dims i fc1 fc2 n a ->
     actor_dims i fc1 fc2 n (actor_step a c s os om)).

(** Row [r'] is row [r] with further entries appended. *)
Definition extends (r r' : list R) : Prop := exists extra, r' = r ++ extra.

End MADDPG.


(** ** Vocabulary for the ring buffer *)

(** The number of the last store, among the first [K], that wrote row [i]
    of a store of capacity [C] (for [i < C] and [i < K]). *)
Definition last_write (C K i : nat) : nat := i + C * ((K - 1 - i) / C).

Section RingContents.
Import Buffer.
Context {A : Type}.
Implicit Types (b : ReplayBuffer (A:=A)) (t : Transition (A:=A)).

(** The rows of [b] after the stores [ts] on top of [b0]. *)
Definition ring_of (b0 : ReplayBuffer (A:=A)) (ts : list Transition) b : Prop :=
  mem_size b = mem_size b0 /\ mem_cntr b = length ts /\ wf b /\
  forall i, i < mem_size b0 ->
    (i < length ts ->
       exists t, ts !! last_write (mem_size b0) (length ts) i = Some t /\
         state_memory b !! i = Some (t_state t) /\
         action_memory b !! i = Some (t_action t) /\
         reward_memory b !! i = Some (t_reward t) /\
         others_states b !! i = Some (t_others_states t) /\
         others_actions b !! i = Some (t_others_actions t)) /\
    (length ts <= i ->
       state_memory b !! i = state_memory b0 !! i /\
       action_memory b !! i = action_memory b0 !! i /\
       reward_memory b !! i = reward_memory b0 !! i /\
       others_states b !! i = others_states b0 !! i /\
       others_actions b !! i = others_actions b0 !! i).

End RingContents.

(** ** Vocabulary for the soft update *)

Section SoftUpdateVocabulary.
Import Networks Agent.

(** The entries of a parameter tensor, row by row, and of a list of
    parameter tensors, tensor by tensor. *)
Definition tensor_entries (t : Tensor) : list R :=
  match t with Vec v => v | Mat m => concat m end.

Definition parameter_entries (ps : list Tensor) : list R :=
  concat (map tensor_entries ps).

(** A target layer after the soft update against the live layer [l]. *)
Definition blend_layer (tau : R) (t l : Linear) : Linear :=
  with_data t (zip_with (zip_with (blend tau)) (weight t) (weight l))
              (zip_with (blend tau) (bias t) (bias l)).

Definition blend_actor (tau : R) (t l : ActorNetwork) : ActorNetwork :=
  {| a_fc1 := blend_layer tau (a_fc1 t) (a_fc1 l);
     a_fc2 := blend_layer tau (a_fc2 t) (a_fc2 l);
     a_mu := blend_layer tau (a_mu t) (a_mu l) |}.

Definition blend_critic (tau : R) (t l : CriticNetwork) : CriticNetwork :=
  {| c_fc1 := blend_layer tau (c_fc1 t) (c_fc1 l);
     c_fc2 := blend_layer tau (c_fc2 t) (c_fc2 l);
     c_q := blend_layer tau (c_q t) (c_q l) |}.

End SoftUpdateVocabulary.

(** ** Vocabulary for the initialisation draws *)

Section InitVocabulary.
Import Networks.
Open Scope R_scope.

(** [d] holds one draw from [U(0, 1)] for every weight and every bias of an
    [nn.Linear(i, o)]. *)
Definition draws_for (i o : nat) (d : Draws) : Prop :=
  length d.1 = o /\
  Forall (fun u => length u = i /\ Forall (fun ui => 0 <= ui <= 1) u) d.1 /\
  length d.2 = o /\ Forall (fun ui => 0 <= ui <= 1) d.2.

(** All weights and biases of a layer lie within [bound] of 0. *)
Definition layer_within (bound : R) (l : Linear) : Prop :=
  Forall (Forall (fun v => - bound <= v <= bound)) (weight l) /\
  Forall (fun v => - bound <= v <= bound) (bias l).

End InitVocabulary.


(** ** env.py *)

Module Env.
Open Scope R_scope.

(** *** numpy and random primitives *)

(** [np.argmax] on a non-empty list: the first position of the largest
    entry; [best] at position [best_i] is the largest entry so far. *)
Fixpoint argmax_from (best_i : nat) (best : R) (i : nat) (l : list R) : nat :=
  match l with
  | [] => best_i
  | x :: l' =>
      if Rlt_dec best x then argmax_from i x (S i) l'
      else argmax_from best_i best (S i) l'
  end.

(** [np.argmax(l)]: ValueError on an empty sequence. *)
Definition argmax (l : list R) : option nat :=
  match l with
  | [] => None
  | x :: l' => Some (argmax_from 0 x 1 l')
  end.

(** [rewards[idx] = x]: IndexError out of range. *)
Definition assign (rewards : list R) (idx : nat) (x : R) : option (list R) :=
  if (idx <? length rewards)%nat then Some (<[idx := x]> rewards) else None.

(** [winner_reward**r if winner_reward > 0 else winner_reward]; the power
    of a positive base is [exp (r * ln base)]. *)
Definition risk_adjusted (winner_reward r : R) : R :=
  if Rlt_dec 0 winner_reward then Rpower winner_reward r else winner_reward.

(** [random.uniform(a, b)] for the draw [u] of [random.random()]. *)
Definition uniform (a b u : R) : R := a + (b - a) * u.

(** [math.sqrt]: ValueError below 0. *)
Definition math_sqrt (x : R) : option R :=
  if Rlt_dec x 0 then None else Some (sqrt x).

(** *** MAFirstPriceAuctionEnv (also MAAssymetricFirstPriceAuctionEnv and
    MAJointFirstPriceAuctionEnv, whose [reward_n_players] is the same) *)

Definition first_price_reward (N : nat) (values bids : list R) (r : R)
  : option (list R) :=
  let rewards := replicate N 0 in
  idx ← argmax bids;
  v ← values !! idx;
  b ← bids !! idx;
  let winner_reward := v - b in
  assign rewards idx (risk_adjusted winner_reward r).

(** *** MAAllPayAuctionEnv *)

Definition all_pay_reward (values bids : list R) (r : R) : option (list R) :=
  let alpha := 0.1 in
  let rewards := map (fun b => - b - alpha) bids in
  idx ← argmax bids;
  v ← values !! idx;
  b ← bids !! idx;
  let winner_reward := v - b in
  assign rewards idx (risk_adjusted winner_reward r).

(** *** MASecondPriceAuctionEnv *)

(** [order] is a possible outcome of [np.argsort(bids)]: the positions of
    [bids], each once, with the bids in ascending order (numpy's default
    sort does not promise an order among equal bids). *)
Definition argsort_outcome (bids : list R) (order : list nat) : Prop :=
  Permutation order (seq 0 (length bids)) /\
  forall i j a b x y,
    (i <= j)%nat -> order !! i = Some a -> order !! j = Some b ->
    bids !! a = Some x -> bids !! b = Some y -> x <= y.

(** [order[-2:]] *)
Definition last_two (order : list nat) : list nat :=
  drop (length order - 2) order.

Definition second_price_reward (N : nat) (values bids : list R) (r : R)
    (order : list nat) : option (list R) :=
  let rewards := replicate N 0 in
  let end_list := last_two order in
  second_max_idx ← end_list !! 0%nat;
  max_idx ← end_list !! 1%nat;
  v ← values !! max_idx;
  b ← bids !! second_max_idx;
  let winner_reward := v - b in
  assign rewards max_idx (risk_adjusted winner_reward r).

(** *** MACoreSelectingAuctionEnv *)

Definition core_selecting_reward (values bids : list R) (r : R)
  : option (R * R * R) :=
  v1 ← values !! 0%nat; v2 ← values !! 1%nat; value_global ← values !! 2%nat;
  b1 ← bids !! 0%nat; b2 ← bids !! 1%nat; B ← bids !! 2%nat;
  let bid_locals := b1 + b2 in
  if Rlt_dec B bid_locals then
    let payment1 := if Rlt_dec b2 B then B - (bid_locals - b1) else 0 in
    let payment2 := if Rlt_dec b1 B then B - (bid_locals - b2) else 0 in
    Some (v1 - payment1, v2 - payment2, 0)
  else
    let payment_global := bid_locals in
    Some (0, 0, value_global - payment_global).

(** *** MACommonPriceAuctionEnv *)

(** [np.max(A)] of a non-empty array with first entry [x]. *)
Definition max_of (x : R) (l : list R) : R := foldl Rmax x l.

(** [np.where(A == m)[0]]: the positions of the entries equal to [m]. *)
Definition where_equal (A : list R) (m : R) : list nat :=
  List.filter (fun i => match A !! i with
                        | Some x => if Req_dec_T x m then true else false
                        | None => false
                        end)
              (seq 0 (length A)).

(** [pick] is the position [random.choice] draws in [max_indices]. *)
Definition argmax_with_random_tie (A : list R) (pick : nat) : option nat :=
  match A with
  | [] => None
  | x :: l =>
      let max_indices := where_equal A (max_of x l) in
      if (length max_indices =? 1)%nat then max_indices !! 0%nat
      else max_indices !! pick
  end.

Definition common_price_reward (N : nat) (common_value : R) (bids : list R)
    (pick : nat) : option (list R) :=
  let rewards := replicate N 0 in
  idx ← argmax_with_random_tie bids pick;
  b ← bids !! idx;
  assign rewards idx (common_value - b).

(** [reset]: [u] is the draw behind the common value, [us] the draws behind
    the [N] signals. *)
Definition common_price_reset (vl vh eps : R) (u : R) (us : list R)
  : R * list R :=
  let common_value := uniform vl vh u in
  let least := Rmax (common_value - eps) vl in
  let top := Rmin (common_value + eps) vh in
  let signals := map (uniform least top) us in
  (common_value, signals).

(** *** MAJointFirstPriceAuctionEnv *)

(** [reset] for the draws [u] and [v]; a division by [0.0] raises
    ZeroDivisionError. *)
Definition joint_reset (u v : R) : option (list R) :=
  s ← math_sqrt (1 + 8 * u);
  let x := (-1 + s) / 2 in
  s' ← math_sqrt (1 + 8 * x * v * (1 + 2 * x));
  if Req_dec_T (4 * x) 0 then None
  else
    let y := (-1 + s') / (4 * x) in
    Some [x; y].

(** *** Vocabulary of the properties *)

(** [k] is the first position of a largest entry of [l]. *)
Definition first_max (l : list R) (k : nat) (m : R) : Prop :=
  l !! k = Some m /\
  (forall j x, l !! j = Some x -> x <= m) /\
  (forall j x, (j < k)%nat -> l !! j = Some x -> x < m).

(** The positions [argmax_with_random_tie] chooses among. *)
Definition max_indices (A : list R) : list nat :=
  match A with
  | [] => []
  | x :: l => where_equal A (max_of x l)
  end.

End Env.


(** ** Concrete inputs *)

Module Examples.
Import Buffer.

(** Two transitions of a two-agent game with one-entry rows. *)
Definition t1 : Transition (A := Z) := mkTransition [5%Z] [3%Z] 10%Z [6%Z] [4%Z].
Definition t2 : Transition (A := Z) := mkTransition [7%Z] [2%Z] 20%Z [8%Z] [1%Z].
Definition t3 : Transition (A := Z) := mkTransition [9%Z] [1%Z] 30%Z [2%Z] [5%Z].

(** [ReplayBuffer(0, 1, 1, 2)], [ReplayBuffer(1, 1, 1, 2)] and
    [ReplayBuffer(2, 1, 1, 2)]. *)
Definition store0 : ReplayBuffer (A := Z) :=
  mkReplayBuffer 0 0 [] [] [] [] [].
Definition store1 : ReplayBuffer (A := Z) :=
  mkReplayBuffer 1 0 [[0%Z]] [[0%Z]] [0%Z] [[0%Z]] [[0%Z]].
Definition store2 : ReplayBuffer (A := Z) :=
  mkReplayBuffer 2 0 [[0%Z]; [0%Z]] [[0%Z]; [0%Z]] [0%Z; 0%Z]
                 [[0%Z]; [0%Z]] [[0%Z]; [0%Z]].

(** [store2] after the stores of [t1], [t2], [t3]: [t3] overwrote row 0. *)
Definition store2_after3 : ReplayBuffer (A := Z) :=
  mkReplayBuffer 2 3 [[9%Z]; [7%Z]] [[1%Z]; [2%Z]] [30%Z; 20%Z]
                 [[2%Z]; [8%Z]] [[5%Z]; [1%Z]].

End Examples.

Module ExampleNets.
Import Networks Agent.
Open Scope R_scope.

(** An [nn.Linear(i, 1)] with all weights [w] and bias [b]. *)
Definition const_layer (i : nat) (w b : R) : Linear :=
  mkLinear i 1 [replicate i w] [b].

(** [ActorNetwork(input_dims=1, fc1_dims=1, fc2_dims=1, n_actions=1)] with
    all parameters 0: its output is [sigmoid 0] on every state. *)
Definition actor0 : ActorNetwork :=
  mkActor (const_layer 1 0 0) (const_layer 1 0 0) (const_layer 1 0 0).

(** The critic of a two-agent game with one-entry states and actions
    ([shape_of_input = 4]), all parameters 0. *)
Definition critic0 : CriticNetwork :=
  mkCritic (const_layer 4 0 0) (const_layer 1 0 0) (const_layer 1 0 0).

(** An agent planned for 10 episodes with [noise_std = 0.1]. *)
Definition agent0 : Agent :=
  mkAgent 0.99 0.001 2 10 0.1 actor0 critic0 actor0 critic0.

(** [fc1] of the default coordinator: [nn.Linear(1, 64)]. *)
Definition fc1_default : Linear := nn_Linear 1 64.

(** One draw of 0.5 for the weight and for the bias of an
    [nn.Linear(1, 1)]. *)
Definition draws_half : Draws := ([[0.5]], [0.5]).

End ExampleNets.

Module ExampleGame.
Import Networks Agent MADDPG ExampleNets.
Open Scope R_scope.

(** Two transitions of a two-agent game with one-entry rows. *)
Definition tr1 : Buffer.Transition (A := R) :=
  Buffer.mkTransition [0.5] [0.3] 1 [0.4] [0.2].
Definition tr2 : Buffer.Transition (A := R) :=
  Buffer.mkTransition [0.7] [0.6] 2 [0.1] [0.9].

(** An optimiser step that leaves the network as it is (learning rate 0). *)
Definition critic_step0 (c : CriticNetwork)
    (_ _ _ _ _ : list (list R)) : CriticNetwork := c.
Definition actor_step0 (a : ActorNetwork) (_ : CriticNetwork)
    (_ _ _ : list (list R)) : ActorNetwork := a.

(** [MADDPG(input_dims=1, n_actions=1, n_agents=2, BS=2)] with two copies
    of the example agent. *)
Definition coordinator : option MADDPG :=
  MADDPG.__init__ [agent0; agent0] 0.99 2 1 1 2.

(** The coordinator after [remember] of [tr1] and then [tr2]. *)
Definition coordinator2 : option MADDPG :=
  m ← coordinator; remember_all m [tr1; tr2].

(** A critic whose first layer reads [w] entries, and an agent with it. *)
Definition critic_reading (w : nat) : CriticNetwork :=
  mkCritic (const_layer w 0 0) (const_layer 1 0 0) (const_layer 1 0 0).
Definition agent_reading (w : nat) : Agent :=
  mkAgent 0.99 0.001 1 10 0.1 actor0 (critic_reading w) actor0 (critic_reading w).

(** A one-row store that holds [tr2]. *)
Definition store_tr2 : Buffer.ReplayBuffer (A := R) :=
  Buffer.mkReplayBuffer 1 1 [[0.7]] [[0.6]] [2] [[0.1]] [[0.9]].

(** A two-agent coordinator with batch size 1 whose critics read [w]
    entries. *)
Definition coordinator_reading (w : nat) : MADDPG :=
  mkMADDPG [agent_reading w; agent_reading w] 2 1 0.99 (Z.to_nat 1000000)
           store_tr2 store_tr2.

End ExampleGame.

(** ** Proof automation *)

(** Case analysis of [x ← o; k x = Some y] in hypothesis [H]. *)
Ltac bind_inv H :=
  match type of H with
  | mbind _ ?o = Some _ =>
      let E := fresh "E" in
      destruct o eqn:E; [cbn [mbind option_bind] in H | discriminate H]
  end.



(** * Properties *)

(** ** Replay buffer *)

Section BufferFacts.
Import Buffer.
Context {A : Type} (zero : A).
Implicit Types (b : ReplayBuffer (A:=A)) (t : Transition (A:=A)).

Lemma init_wf max_size input_shape n_actions num_agents b :
  __init__ zero max_size input_shape n_actions num_agents = Some b ->
  wf b /\ mem_cntr b = 0 /\ mem_size b = max_size.
Proof.
  unfold __init__. case_match; [done|]. intros [= <-].
  unfold wf; simpl. rewrite !length_replicate. done.
Qed.

Lemma init_row_widths max_size input_shape n_actions num_agents b :
  __init__ zero max_size input_shape n_actions num_agents = Some b ->
  row_widths input_shape n_actions num_agents b.
Proof.
  unfold __init__. case_match; [done|]. intros [= <-].
  unfold row_widths; simpl.
  split_and!; apply Forall_replicate, length_replicate.
Qed.

Lemma broadcast_to_spec w (value row : list A) :
  broadcast_to w value = Some row <-> fits_row w value /\ row = np_row w value.
Proof.
  unfold broadcast_to, fits_row, np_row.
  destruct (Nat.eqb_spec (length value) w) as [Hw|Hw].
  - split.
    + intros [= <-]. split; [by left|].
      destruct value as [|x [|??]]; try done. simpl in Hw. by subst w.
    + intros [_ ->]. destruct value as [|x [|??]]; try done.
      simpl in Hw. by subst w.
  - destruct value as [|x [|y value]]; simpl in *.
    + split; [done|]. intros [[?|?] _]; [done|lia].
    + split; [intros [= <-]; split; [by right|done]|]. by intros [_ ->].
    + split; [done|]. intros [[?|?] _]; [done|lia].
Qed.

Lemma np_row_length w (value : list A) :
  fits_row w value -> length (np_row w value) = w.
Proof.
  unfold fits_row, np_row. intros [H|H].
  - destruct value as [|x [|??]]; try done. simpl in H. by subst w.
  - destruct value as [|x [|??]]; try done. apply length_replicate.
Qed.

Lemma np_row_exact w (value : list A) : length value = w -> np_row w value = value.
Proof.
  unfold np_row. intros H. destruct value as [|x [|??]]; try done.
  simpl in H. by subst w.
Qed.

Lemma as_stored_exact input_shape n_actions num_agents t :
  exact input_shape n_actions num_agents t ->
  as_stored input_shape n_actions num_agents t = t.
Proof.
  intros (H1 & H2 & H3 & H4). unfold as_stored.
  rewrite !np_row_exact by done. by destruct t.
Qed.

Lemma exact_storable input_shape n_actions num_agents t :
  exact input_shape n_actions num_agents t ->
  storable input_shape n_actions num_agents t.
Proof. intros (H1 & H2 & H3 & H4). unfold storable, fits_row. tauto. Qed.

Lemma as_stored_widths input_shape n_actions num_agents t :
  storable input_shape n_actions num_agents t ->
  exact input_shape n_actions num_agents
        (as_stored input_shape n_actions num_agents t).
Proof.
  intros (H1 & H2 & H3 & H4). unfold exact, as_stored; simpl.
  split_and!; by apply np_row_length.
Qed.

Lemma set_row_spec w (arr arr' : list (list A)) index value :
  Forall (fun r => length r = w) arr ->
  set_row arr index value = Some arr' <->
  index < length arr /\ fits_row w value /\
  arr' = <[index := np_row w value]> arr.
Proof.
  intros Hw. unfold set_row. destruct (arr !! index) as [old|] eqn:E; simpl.
  - pose proof (lookup_lt_Some _ _ _ E) as Hlt.
    eapply Forall_lookup_1 in Hw; [|exact E]. rewrite Hw.
    destruct (broadcast_to w value) as [row|] eqn:Eb; simpl.
    + apply broadcast_to_spec in Eb as [Hf ->]. split; [by intros [= <-]|].
      by intros (_ & _ & ->).
    + split; [done|]. intros (_ & Hf & _).
      assert (broadcast_to w value = Some (np_row w value)) as Hb
        by (by apply broadcast_to_spec).
      congruence.
  - apply lookup_ge_None in E. split; [done|]. intros (? & _); lia.
Qed.

Lemma set_row_Some w (arr : list (list A)) index value :
  Forall (fun r => length r = w) arr -> index < length arr ->
  fits_row w value ->
  set_row arr index value = Some (<[index := np_row w value]> arr).
Proof. intros Hw Hi Hf. by apply (set_row_spec w). Qed.

Lemma set_entry_spec (arr arr' : list A) index value :
  set_entry arr index value = Some arr' <->
  index < length arr /\ arr' = <[index := value]> arr.
Proof.
  unfold set_entry. destruct (Nat.ltb_spec index (length arr)).
  - split; [by intros [= <-]|]. by intros [_ ->].
  - split; [done|]. intros [? _]; lia.
Qed.

(** [store] succeeds exactly on the transitions numpy accepts, and writes
    them as numpy lays them out. *)
Lemma store_spec input_shape n_actions num_agents b t b' :
  wf b -> row_widths input_shape n_actions num_agents b ->
  store b t = Some b' <->
  0 < mem_size b /\ storable input_shape n_actions num_agents t /\
  b' = write b (as_stored input_shape n_actions num_agents t).
Proof.
  intros (W1 & W2 & W3 & W4 & W5) (R1 & R2 & R3 & R4).
  unfold store, store_transition.
  destruct (Nat.eqb_spec (mem_size b) 0) as [H0|H0].
  { split; [done|]. intros [? _]; lia. }
  assert (mem_cntr b mod mem_size b < mem_size b) as Hm
    by (apply Nat.mod_upper_bound; lia).
  split.
  - intros H. bind_inv H. bind_inv H. bind_inv H. bind_inv H. bind_inv H.
    injection H as <-.
    apply (set_row_spec _ _ _ _ _ R1) in E as (_ & F1 & ->).
    apply (set_row_spec _ _ _ _ _ R2) in E0 as (_ & F2 & ->).
    apply set_entry_spec in E1 as (_ & ->).
    apply (set_row_spec _ _ _ _ _ R3) in E2 as (_ & F3 & ->).
    apply (set_row_spec _ _ _ _ _ R4) in E3 as (_ & F4 & ->).
    split; [lia|]. split; [done|]. done.
  - intros (_ & (F1 & F2 & F3 & F4) & ->).
    rewrite (set_row_Some _ _ _ _ R1), (set_row_Some _ _ _ _ R2),
      (set_row_Some _ _ _ _ R3), (set_row_Some _ _ _ _ R4) by (done || lia).
    unfold set_entry.
    destruct (Nat.ltb_spec (mem_cntr b mod mem_size b) (length (reward_memory b)));
      [done|lia].
Qed.

Lemma store_Some input_shape n_actions num_agents b t :
  wf b -> row_widths input_shape n_actions num_agents b ->
  0 < mem_size b -> storable input_shape n_actions num_agents t ->
  store b t = Some (write b (as_stored input_shape n_actions num_agents t)).
Proof. intros Hwf Hr Hpos Ht. by apply (store_spec input_shape n_actions num_agents). Qed.

Lemma store_inv b t b' :
  store b t = Some b' ->
  0 < mem_size b /\ mem_size b' = mem_size b /\ mem_cntr b' = mem_cntr b + 1.
Proof.
  unfold store, store_transition.
  destruct (Nat.eqb_spec (mem_size b) 0); [done|]. intros H.
  bind_inv H. bind_inv H. bind_inv H. bind_inv H. bind_inv H.
  injection H as <-. simpl. lia.
Qed.

Lemma write_wf b t : wf b -> wf (write b t).
Proof. unfold wf, write; simpl. rewrite !length_insert. done. Qed.

Lemma write_row_widths input_shape n_actions num_agents b t :
  row_widths input_shape n_actions num_agents b ->
  exact input_shape n_actions num_agents t ->
  row_widths input_shape n_actions num_agents (write b t).
Proof.
  intros (R1 & R2 & R3 & R4) (E1 & E2 & E3 & E4).
  unfold row_widths, write; simpl. split_and!; by apply Forall_insert.
Qed.

Lemma set_row_length (arr arr' : list (list A)) index value :
  set_row arr index value = Some arr' -> length arr' = length arr.
Proof.
  unfold set_row. intros H. bind_inv H. bind_inv H. injection H as <-.
  apply length_insert.
Qed.

Lemma store_wf b t b' : wf b -> store b t = Some b' -> wf b'.
Proof.
  intros (W1 & W2 & W3 & W4 & W5). unfold store, store_transition.
  destruct (Nat.eqb_spec (mem_size b) 0); [done|]. intros H.
  bind_inv H. bind_inv H. bind_inv H. bind_inv H. bind_inv H.
  injection H as <-.
  apply set_row_length in E, E0, E2, E3. apply set_entry_spec in E1 as [_ ->].
  unfold wf; simpl. rewrite length_insert. split_and!; congruence.
Qed.

Lemma store_row_widths input_shape n_actions num_agents b t b' :
  wf b -> row_widths input_shape n_actions num_agents b ->
  store b t = Some b' -> row_widths input_shape n_actions num_agents b'.
Proof.
  intros Hwf Hr Hs.
  apply (store_spec input_shape n_actions num_agents) in Hs as (_ & Ht & ->);
    [|done|done].
  apply write_row_widths; [done|]. by apply as_stored_widths.
Qed.

Lemma store_all_inv b ts b' :
  store_all b ts = Some b' ->
  mem_size b' = mem_size b /\ mem_cntr b' = mem_cntr b + length ts.
Proof.
  revert b. induction ts as [|t ts IH]; intros b; simpl.
  - intros [= <-]. lia.
  - intros H. bind_inv H. destruct (store_inv _ _ _ E) as (_ & Hs & Hc).
    destruct (IH _ H) as [Hs' Hc']. lia.
Qed.

Lemma store_all_Some input_shape n_actions num_agents b ts :
  wf b -> row_widths input_shape n_actions num_agents b -> 0 < mem_size b ->
  Forall (storable input_shape n_actions num_agents) ts ->
  exists b', store_all b ts = Some b' /\ mem_size b' = mem_size b /\
             mem_cntr b' = mem_cntr b + length ts.
Proof.
  intros Hwf Hr Hpos Hts. revert b Hwf Hr Hpos.
  induction Hts as [|t ts Ht _ IH]; intros b Hwf Hr Hpos; simpl.
  - exists b. split_and!; [done|done|lia].
  - rewrite (store_Some input_shape n_actions num_agents) by done. simpl.
    edestruct IH as (b' & -> & Hs & Hc).
    + by apply write_wf.
    + apply write_row_widths; [done|]. by apply as_stored_widths.
    + simpl. exact Hpos.
    + exists b'. simpl in *. split_and!; [done|done|lia].
Qed.

Lemma store_all_wf b ts b' : wf b -> store_all b ts = Some b' -> wf b'.
Proof.
  revert b. induction ts as [|t ts IH]; intros b Hwf; simpl.
  - by intros [= <-].
  - destruct (store b t) as [b1|] eqn:E; [|done]. simpl.
    apply IH. by eapply store_wf.
Qed.

Lemma store_all_row_widths input_shape n_actions num_agents b ts b' :
  wf b -> row_widths input_shape n_actions num_agents b ->
  store_all b ts = Some b' ->
  row_widths input_shape n_actions num_agents b' /\
  Forall (storable input_shape n_actions num_agents) ts.
Proof.
  revert b. induction ts as [|t ts IH]; intros b Hwf Hr; simpl.
  - by intros [= <-].
  - intros H. bind_inv H.
    destruct (IH _ (store_wf _ _ _ Hwf E)
                (store_row_widths _ _ _ _ _ _ Hwf Hr E) H) as [Hr' Hts].
    split; [done|]. constructor; [|done].
    by apply (store_spec input_shape n_actions num_agents) in E as (_ & ? & _).
Qed.

Lemma store_all_snoc b ts t :
  store_all b (ts ++ [t]) = b' ← store_all b ts; store b' t.
Proof.
  revert b. induction ts as [|u ts IH]; intros b; simpl.
  - by destruct (store b t).
  - destruct (store b u); simpl; [apply IH|done].
Qed.

(** A one-row array holds what was written last. *)
Lemma insert_one_row {B} (l : list B) i x :
  length l = 1 -> <[i mod 1 := x]> l = [x].
Proof.
  intros Hl. rewrite Nat.mod_1_r. destruct l as [|y [|??]]; done.
Qed.

Lemma write_capacity_one b t :
  wf b -> mem_size b = 1 ->
  state_memory (write b t) = [t_state t] /\
  action_memory (write b t) = [t_action t] /\
  reward_memory (write b t) = [t_reward t] /\
  others_states (write b t) = [t_others_states t] /\
  others_actions (write b t) = [t_others_actions t].
Proof.
  intros (H1 & H2 & H3 & H4 & H5) Hsz. unfold write; simpl.
  rewrite Hsz in *. rewrite !insert_one_row by done. done.
Qed.

End BufferFacts.

Section RingWrite.
Import Buffer.
Context {A : Type}.
Implicit Types (b : ReplayBuffer (A:=A)) (t : Transition (A:=A)).

(** C8 (amended to stores of capacity at least 1 and to transitions that
    numpy accepts).  On a replay store with [mem_size >= 1] whose rows have
    the widths of [__init__], [store_transition] succeeds exactly on the
    transitions whose four sequences have the width of their row or one
    entry, and raises on every other one.  When it succeeds it writes the
    transition into all five arrays at index [mem_cntr mod mem_size] (a
    one-entry sequence repeated along its row, a sequence of the row's
    width as it is), leaves every other index as it was, and adds exactly
    one to the counter; after any sequence of such stores the counter is
    the old counter plus the number of stores (it never resets); and a
    store of capacity 1 holds exactly the transition stored last. *)
Theorem store_transition_ring_write input_shape n_actions num_agents b t :
  wf b -> row_widths input_shape n_actions num_agents b -> 0 < mem_size b ->
  storable input_shape n_actions num_agents t ->
  (exists b', store b t = Some b' /\
     mem_cntr b' = mem_cntr b + 1 /\ mem_size b' = mem_size b /\ wf b' /\
     row_widths input_shape n_actions num_agents b' /\
     let index := mem_cntr b mod mem_size b in
     let t' := as_stored input_shape n_actions num_agents t in
     (exact input_shape n_actions num_agents t -> t' = t) /\
     (state_memory b' !! index = Some (t_state t') /\
      action_memory b' !! index = Some (t_action t') /\
      reward_memory b' !! index = Some (t_reward t') /\
      others_states b' !! index = Some (t_others_states t') /\
      others_actions b' !! index = Some (t_others_actions t')) /\
     (forall i, i <> index ->
        state_memory b' !! i = state_memory b !! i /\
        action_memory b' !! i = action_memory b !! i /\
        reward_memory b' !! i = reward_memory b !! i /\
        others_states b' !! i = others_states b !! i /\
        others_actions b' !! i = others_actions b !! i)) /\
  (forall t0, ~ storable input_shape n_actions num_agents t0 -> store b t0 = None) /\
  (forall ts, Forall (storable input_shape n_actions num_agents) ts ->
     exists b', store_all b ts = Some b' /\
       mem_cntr b' = mem_cntr b + length ts /\ mem_size b' = mem_size b) /\
  (mem_size b = 1 -> forall ts t',
     Forall (storable input_shape n_actions num_agents) (ts ++ [t']) ->
     exists b',
       store_all b (ts ++ [t']) = Some b' /\
       let t'' := as_stored input_shape n_actions num_agents t' in
       state_memory b' = [t_state t''] /\ action_memory b' = [t_action t''] /\
       reward_memory b' = [t_reward t''] /\
       others_states b' = [t_others_states t''] /\
       others_actions b' = [t_others_actions t'']).
Proof.
  intros Hwf Hr Hpos Ht. split_and!.
  - eexists. split; [by apply store_Some|].
    pose proof (as_stored_widths _ _ _ _ Ht) as He.
    destruct Hwf as (H1 & H2 & H3 & H4 & H5).
    assert (mem_cntr b mod mem_size b < mem_size b) by (apply Nat.mod_upper_bound; lia).
    cbv zeta. split_and!; try done.
    + by apply write_wf.
    + by apply write_row_widths.
    + apply as_stored_exact.
    + apply list_lookup_insert_eq. lia.
    + apply list_lookup_insert_eq. lia.
    + apply list_lookup_insert_eq. lia.
    + apply list_lookup_insert_eq. lia.
    + apply list_lookup_insert_eq. lia.
    + intros i Hi. unfold write; simpl.
      rewrite !list_lookup_insert_ne by done. done.
  - intros t0 Hn. destruct (store b t0) as [b'|] eqn:E; [|done].
    apply (store_spec input_shape n_actions num_agents) in E as (_ & ? & _); done.
  - intros ts Hts.
    destruct (store_all_Some _ _ _ b ts Hwf Hr Hpos Hts) as (b' & ? & ? & ?). eauto.
  - intros Hone ts t' Hts. apply Forall_app in Hts as [Hts Ht'].
    rewrite Forall_singleton in Ht'. rewrite store_all_snoc.
    destruct (store_all_Some _ _ _ b ts Hwf Hr Hpos Hts) as (b1 & E1 & Hs1 & Hc1).
    rewrite E1. cbn [mbind option_bind].
    assert (wf b1) as Hwf1 by (by eapply store_all_wf).
    destruct (store_all_row_widths _ _ _ _ _ _ Hwf Hr E1) as [Hr1 _].
    eexists.
    split; [apply (store_Some input_shape n_actions num_agents); (done || lia)|].
    cbv zeta. apply write_capacity_one; [done|lia].
Qed.

End RingWrite.

(** C8, witness: the theorem on the empty store of capacity 2. *)
Lemma store_transition_ring_write_witness :
  Buffer.wf Examples.store2 /\ 0 < Buffer.mem_size Examples.store2 /\
  exists b', Buffer.store Examples.store2 Examples.t1 = Some b' /\
             Buffer.mem_cntr b' = 1.
Proof.
  split; [vm_compute; done|]. split; [vm_compute; lia|].
  destruct (store_transition_ring_write 1 1 2 Examples.store2 Examples.t1)
    as ((b' & Hs & Hc & _) & _).
  - vm_compute; done.
  - exact (init_row_widths 0%Z 2 1 1 2 Examples.store2 eq_refl).
  - vm_compute; lia.
  - vm_compute. tauto.
  - exists b'. split; [exact Hs|exact Hc].
Defined.

(** C8, as stated, fails on a store of capacity 0: [mem_cntr % mem_size]
    divides by zero, nothing is written and the counter stays. *)
Lemma store_transition_capacity_zero_fails :
  Buffer.__init__ 0%Z 0 1 1 2 = Some Examples.store0 /\
  Buffer.store_transition Examples.store0 [5%Z] [3%Z] 10%Z [6%Z] [4%Z] = None.
Proof. split; reflexivity. Qed.

(** It also fails on a store of capacity 2 for one-entry rows when the
    state has two entries (numpy cannot broadcast it into the row), while a
    one-entry state is repeated along a row of two entries. *)
Lemma store_transition_widths :
  Buffer.__init__ 0%Z 2 1 1 2 = Some Examples.store2 /\
  Buffer.store_transition Examples.store2 [5%Z; 5%Z] [3%Z] 10%Z [6%Z] [4%Z] = None /\
  (b ← Buffer.__init__ 0%Z 1 2 1 2;
   Buffer.store_transition b [5%Z] [3%Z] 10%Z [6%Z; 7%Z] [4%Z])
  = Some (Buffer.mkReplayBuffer 1 1 [[5%Z; 5%Z]] [[3%Z]] [10%Z] [[6%Z; 7%Z]] [[4%Z]]).
Proof. split_and!; reflexivity. Qed.


Section SampleLast.
Import Buffer.
Context {A : Type}.
Implicit Types (b : ReplayBuffer (A:=A)) (t : Transition (A:=A)).

Lemma take_insert_snoc {B} (l : list B) n x :
  n < length l -> take (S n) (<[n := x]> l) = take n l ++ [x].
Proof.
  revert n. induction l as [|y l IH]; intros [|n] Hn; simpl in *; try lia; [done|].
  f_equal. apply IH. lia.
Qed.

Lemma holds_prefix_write b ts t :
  wf b -> holds_prefix b ts -> length ts < mem_size b ->
  holds_prefix (write b t) (ts ++ [t]).
Proof.
  intros (W1 & W2 & W3 & W4 & W5) (Hc & P1 & P2 & P3 & P4 & P5) Hlt.
  unfold holds_prefix, write; simpl.
  rewrite Hc, Nat.mod_small by lia.
  rewrite length_app, !map_app; simpl.
  replace (length ts + 1) with (S (length ts)) by lia.
  rewrite !take_insert_snoc by lia.
  rewrite P1, P2, P3, P4, P5. done.
Qed.

Lemma holds_prefix_store_all input_shape n_actions num_agents b0 ts b :
  wf b0 -> row_widths input_shape n_actions num_agents b0 ->
  mem_cntr b0 = 0 -> length ts <= mem_size b0 ->
  store_all b0 ts = Some b ->
  holds_prefix b (map (as_stored input_shape n_actions num_agents) ts).
Proof.
  intros Hwf Hr H0. revert b. induction ts as [|t ts IH] using rev_ind; intros b Hle.
  - simpl. intros [= <-]. unfold holds_prefix; simpl. by rewrite H0, !take_0.
  - rewrite length_app in Hle; simpl in Hle.
    rewrite store_all_snoc. destruct (store_all b0 ts) as [b1|] eqn:E; [|done].
    simpl. intros Hs.
    destruct (store_all_inv _ _ _ E) as [Hsz _].
    destruct (store_all_row_widths _ _ _ _ _ _ Hwf Hr E) as [Hr1 _].
    pose proof (store_all_wf _ _ _ Hwf E) as Hwf1.
    apply (store_spec input_shape n_actions num_agents) in Hs as (_ & _ & ->);
      [|done|done].
    rewrite map_app. simpl. apply holds_prefix_write; [done|apply IH; [lia|done]|].
    rewrite length_map. lia.
Qed.

(** Without wrap-around ([K <= C] stores into a fresh store of capacity
    [C]), [sample_last_buffer] returns the last [min K batch_size] stored
    transitions in insertion order. *)
Lemma sample_last_buffer_no_wrap input_shape n_actions num_agents
    b0 ts b batch_size :
  wf b0 -> row_widths input_shape n_actions num_agents b0 ->
  mem_cntr b0 = 0 -> length ts <= mem_size b0 ->
  store_all b0 ts = Some b ->
  sample_last_buffer b batch_size =
    batch_of (map (as_stored input_shape n_actions num_agents)
                  (drop (length ts - min (length ts) batch_size) ts)).
Proof.
  intros Hwf Hr H0 Hle Hs.
  destruct (holds_prefix_store_all _ _ _ b0 ts b Hwf Hr H0 Hle Hs)
    as (Hc & P1 & P2 & P3 & P4 & P5).
  rewrite length_map in Hc, P1, P2, P3, P4, P5.
  unfold sample_last_buffer, batch_of, slice. rewrite Hc.
  assert ((if length ts <? batch_size then length ts else batch_size)
          = min (length ts) batch_size) as ->.
  { destruct (Nat.ltb_spec (length ts) batch_size); lia. }
  rewrite P1, P2, P3, P4, P5, <- !skipn_map. done.
Qed.

End SampleLast.

(** C2 at the failing input: a store of capacity 1 after two stores.  The
    store holds the transition stored last, [t2], but
    [sample_last_buffer(1)] slices rows [1:2] of one-row arrays and returns
    an empty batch. *)
Theorem sample_last_buffer_after_wrap :
  exists b, Buffer.store_all Examples.store1 [Examples.t1; Examples.t2] = Some b /\
    Buffer.mem_cntr b = 2 /\
    Buffer.state_memory b = [Buffer.t_state Examples.t2] /\
    Buffer.sample_last_buffer b 1 = Buffer.mkBatch [] [] [] [] [] /\
    Buffer.sample_last_buffer b 1 <> Buffer.batch_of [Examples.t2].
Proof. eexists. split_and!; [reflexivity|reflexivity|reflexivity|reflexivity|discriminate]. Qed.


(** ** Networks *)

Section NetworkFacts.
Import Networks.
Open Scope R_scope.

Lemma sigmoid_range x : 0 < sigmoid x < 1.
Proof.
  unfold sigmoid. pose proof (exp_pos (- x)) as He.
  split.
  - apply Rdiv_lt_0_compat; lra.
  - apply (Rmult_lt_reg_r (1 + exp (- x))); [lra|].
    unfold Rdiv. rewrite Rmult_assoc, Rinv_l by lra. lra.
Qed.

Lemma sigmoid_0 : sigmoid 0 = 1 / 2.
Proof. unfold sigmoid. rewrite Ropp_0, exp_0. lra. Qed.

Lemma clamp_range x : 0 <= clamp 0 1 x <= 1.
Proof.
  unfold clamp, Rmin, Rmax.
  repeat destruct (Rle_dec _ _); lra.
Qed.

Lemma clamp_inside x : 0 <= x <= 1 -> clamp 0 1 x = x.
Proof.
  intros H. unfold clamp, Rmin, Rmax.
  repeat destruct (Rle_dec _ _); lra.
Qed.

Lemma linear_row_Some i o l x :
  linear_dims i o l -> length x = i ->
  exists y, linear_row l x = Some y /\ length y = o.
Proof.
  intros (Hi & Ho & Hw & _ & Hb) Hx. unfold linear_row.
  rewrite Hi, <- Hx, Nat.eqb_refl. eexists. split; [done|].
  rewrite length_zip_with. lia.
Qed.

Lemma actor_row_Some i h1 h2 n net x :
  actor_dims i h1 h2 n net -> length x = i ->
  exists y, actor_row net x = Some y /\ length y = n.
Proof.
  intros (H1 & H2 & H3) Hx. unfold actor_row.
  destruct (linear_row_Some _ _ _ _ H1 Hx) as (x1 & -> & L1). simpl.
  destruct (linear_row_Some _ _ _ (map relu x1) H2) as (x2 & -> & L2);
    [by rewrite length_map|]. simpl.
  destruct (linear_row_Some _ _ _ (map relu x2) H3) as (x3 & -> & L3);
    [by rewrite length_map|]. simpl.
  eexists. split; [done|]. by rewrite length_map.
Qed.

Lemma actor_row_range net x y :
  actor_row net x = Some y -> Forall (fun v => 0 <= v <= 1) y.
Proof.
  unfold actor_row. intros H. simplify_option_eq.
  apply List.Forall_map, Forall_true. intros w.
  pose proof (sigmoid_range w). lra.
Qed.

Lemma mapM_cons {B C} (f : B -> option C) x l :
  mapM f (x :: l) = y ← f x; k ← mapM f l; Some (y :: k).
Proof. reflexivity. Qed.

Lemma mapM_Some_total {B C} (f : B -> option C) (P : B -> Prop) (Q : C -> Prop) l :
  Forall P l -> (forall x, P x -> exists y, f x = Some y /\ Q y) ->
  exists k, mapM f l = Some k /\ length k = length l /\ Forall Q k.
Proof.
  intros Hl Hf. induction Hl as [|x l Hx Hl IH]; simpl.
  - exists []. done.
  - destruct (Hf x Hx) as (y & -> & Hy). destruct IH as (k & -> & Hk & HQ).
    simpl. exists (y :: k). split_and!; [done|simpl; lia|by constructor].
Qed.

Lemma mapM_Some_Forall {B C} (f : B -> option C) (Q : C -> Prop) l k :
  mapM f l = Some k -> (forall x y, f x = Some y -> Q y) -> Forall Q k.
Proof.
  revert k. induction l as [|x l IH]; simpl; intros k H Hf.
  - injection H as <-. constructor.
  - simplify_option_eq. constructor; eauto.
Qed.

Lemma actor_forward_Some i h1 h2 n net state :
  actor_dims i h1 h2 n net -> Forall (fun x => length x = i) state ->
  exists a, actor_forward net state = Some a /\ length a = length state /\
            Forall (fun y => length y = n) a.
Proof.
  intros Hd Hs. unfold actor_forward.
  eapply mapM_Some_total; [exact Hs|]. intros x Hx. by eapply actor_row_Some.
Qed.

Lemma actor_forward_range net state a :
  actor_forward net state = Some a ->
  Forall (Forall (fun v => 0 <= v <= 1)) a.
Proof.
  intros H. eapply mapM_Some_Forall; [exact H|]. apply actor_row_range.
Qed.

End NetworkFacts.

Section InitLayer.
Import Networks.
Open Scope R_scope.

(** What [_init_layer] calls [fan_in] is the number of rows of the weight,
    the layer's [out_features]. *)
Lemma limit_out_features i o l scale :
  linear_dims i o l -> (1 <= o)%nat ->
  limit l scale = Some (scale / sqrt (INR o)).
Proof.
  intros (_ & Ho & Hw & _) Hpos. unfold limit, fan_in. rewrite Hw, Ho.
  destruct (Nat.eqb_spec o 0); [lia|done].
Qed.

Lemma redraw_range data a b u :
  a <= b -> Forall (fun ui => 0 <= ui <= 1) u ->
  Forall (fun v => a <= v <= b) (redraw a b data u).
Proof.
  intros Hab Hu. unfold redraw. revert data.
  induction Hu as [|ui u Hui Hu IH]; intros [|d data]; simpl; try constructor.
  - nra.
  - apply IH.
Qed.

Lemma redraw_rows_range rows a b u_w :
  a <= b -> Forall (Forall (fun ui => 0 <= ui <= 1)) u_w ->
  Forall (Forall (fun v => a <= v <= b)) (zip_with (redraw a b) rows u_w).
Proof.
  intros Hab Hw. revert rows.
  induction Hw as [|u us Hu Hus IH]; intros [|row rows]; simpl; try constructor.
  - by apply redraw_range.
  - apply IH.
Qed.

(** With a limit [lim >= 0], [_init_layer] returns the layer with every
    entry redrawn. *)
Lemma init_layer_Some layer scale u_w u_b lim :
  limit layer scale = Some lim -> 0 <= lim ->
  _init_layer layer scale u_w u_b =
    Some {| in_features := in_features layer;
            out_features := out_features layer;
            weight := zip_with (redraw (- lim) lim) (weight layer) u_w;
            bias := redraw (- lim) lim (bias layer) u_b |}.
Proof.
  intros Hl Hpos. unfold _init_layer, uniform_2d, uniform_. rewrite Hl.
  cbn [mbind option_bind]. destruct (Rlt_dec lim (- lim)); [lra|done].
Qed.

(** Every entry [_init_layer] draws lies within the limit of 0. *)
Lemma init_layer_range layer scale u_w u_b lim :
  limit layer scale = Some lim -> 0 <= lim ->
  Forall (Forall (fun ui => 0 <= ui <= 1)) u_w ->
  Forall (fun ui => 0 <= ui <= 1) u_b ->
  exists layer',
    _init_layer layer scale u_w u_b = Some layer' /\
    Forall (Forall (fun v => - lim <= v <= lim)) (weight layer') /\
    Forall (fun v => - lim <= v <= lim) (bias layer').
Proof.
  intros Hl Hpos Hw Hb. eexists. split; [by apply init_layer_Some|].
  cbn [weight bias]. split.
  - apply redraw_rows_range; [lra|done].
  - apply redraw_range; [lra|done].
Qed.

End InitLayer.

(** C9 at the failing input, [fc1 = nn.Linear(1, 64)] of the default
    coordinator with [scale = 1]: the layer has 1 input feature, but
    [_init_layer] reads [fan_in = weight.size()[0] = 64] (the output
    features), so the bound is [1/sqrt 64 = 1/8] and not
    [1/sqrt 1 = 1]. *)
Theorem init_layer_limit_reads_out_features :
  Networks.in_features ExampleNets.fc1_default = 1%nat /\
  Networks.out_features ExampleNets.fc1_default = 64%nat /\
  Networks.fan_in ExampleNets.fc1_default = 64%nat /\
  Networks.limit ExampleNets.fc1_default 1 = Some (1 / 8)%R /\
  Networks.limit ExampleNets.fc1_default 1 <>
    Some (1 / sqrt (INR (Networks.in_features ExampleNets.fc1_default)))%R /\
  (forall u_w u_b,
     Forall (Forall (fun ui => 0 <= ui <= 1)%R) u_w ->
     exists layer,
       Networks._init_layer ExampleNets.fc1_default 1 u_w u_b = Some layer /\
       Forall (Forall (fun v => - (1 / 8) <= v <= 1 / 8)%R)
         (Networks.weight layer)).
Proof.
  assert (Networks.limit ExampleNets.fc1_default 1 = Some (1 / 8)%R) as Hl.
  { unfold Networks.limit, Networks.fan_in, ExampleNets.fc1_default, Networks.nn_Linear.
    cbn [Networks.weight]. rewrite length_replicate.
    change (64 =? 0)%nat with false. cbv iota. f_equal.
    replace (INR 64) with (8 * 8)%R by (simpl; lra).
    rewrite sqrt_square by lra. reflexivity. }
  split_and!; [reflexivity|reflexivity|reflexivity|exact Hl| |].
  - rewrite Hl. cbn [Networks.in_features ExampleNets.fc1_default Networks.nn_Linear].
    replace (INR 1) with 1%R by reflexivity. rewrite sqrt_1. intros [= H]. lra.
  - intros u_w u_b Hw. eexists.
    split; [apply (init_layer_Some _ _ _ _ _ Hl); lra|].
    cbn [Networks.weight]. apply redraw_rows_range; [lra|done].
Qed.



(** ** Agent *)

Section ChooseAction.
Import Networks Agent.
Open Scope R_scope.

(** The value [choose_action] returns when it adds noise. *)
Lemma choose_action_noisy self observation episode z :
  0 <= noise_std self -> total_episodes self <> 0%Z ->
  choose_action self observation episode false z =
    map (map (fun a =>
      clamp 0 1 (a + noise_std self * z
                     * (1 - IZR episode / IZR (total_episodes self)))))
    <$> actor_forward (actor self) [observation].
Proof.
  intros Hn HT. unfold choose_action, random_normal.
  destruct (actor_forward (actor self) [observation]) as [action|]; [|done].
  simpl. destruct (Rlt_dec (noise_std self) 0); [lra|]. simpl.
  destruct (Z.eqb_spec (total_episodes self) 0); [done|].
  f_equal. rewrite map_map. apply map_ext. intros row.
  rewrite map_map. apply map_ext. intros a.
  f_equal. lra.
Qed.

Lemma choose_action_evaluation self observation episode z :
  choose_action self observation episode true z =
    actor_forward (actor self) [observation].
Proof.
  unfold choose_action.
  by destruct (actor_forward (actor self) [observation]).
Qed.

Lemma choose_action_Some self observation episode evaluation z i h1 h2 n :
  actor_dims i h1 h2 n (actor self) -> length observation = i ->
  evaluation = true \/ (0 <= noise_std self /\ total_episodes self <> 0%Z) ->
  exists a, choose_action self observation episode evaluation z = Some a.
Proof.
  intros Hd Hl He.
  destruct (actor_forward_Some i h1 h2 n (actor self) [observation] Hd)
    as (a & Ha & _); [by repeat constructor|].
  destruct evaluation.
  - rewrite choose_action_evaluation. eauto.
  - destruct He as [?|[Hn HT]]; [done|].
    rewrite choose_action_noisy, Ha by done. simpl. eauto.
Qed.

(** C7.  Every component of a vector returned by [choose_action] lies in
    [[0, 1]], for every observation, episode index, evaluation flag, noise
    draw and network weights; and [choose_action] does return a vector
    whenever the observation has the width the actor was built for and
    either [evaluation] is set or the noise and its decay are defined
    ([noise_std >= 0] and [total_episodes <> 0]). *)
Theorem choose_action_unit_interval self observation episode evaluation z :
  (forall a, choose_action self observation episode evaluation z = Some a ->
     Forall (Forall (fun v => 0 <= v <= 1)) a) /\
  (forall i h1 h2 n,
     actor_dims i h1 h2 n (actor self) -> length observation = i ->
     evaluation = true \/ (0 <= noise_std self /\ total_episodes self <> 0%Z) ->
     exists a, choose_action self observation episode evaluation z = Some a).
Proof.
  split; [|intros; by eapply choose_action_Some].
  intros a. unfold choose_action.
  destruct (actor_forward (actor self) [observation]) as [action|] eqn:E; [|done].
  simpl. destruct evaluation; simpl.
  - intros [= <-]. by eapply actor_forward_range.
  - destruct (random_normal 0 (noise_std self) z) as [noise|]; [|done]. simpl.
    destruct (Z.eqb_spec (total_episodes self) 0); [done|]. intros [= <-].
    apply List.Forall_map, Forall_true. intros row.
    apply List.Forall_map, Forall_true. intros v. apply clamp_range.
Qed.

(** C6 (amended).  With [evaluation] unset, a standard deviation
    [noise_std >= 0] and [total_episodes <> 0], [choose_action] adds [noise_std * z * decay] to every component of the
    actor's output, [z] being the standard normal draw, with
    [decay = 1 - episode/total_episodes], and clamps the sum to [[0, 1]].
    The decay itself is not clamped: it is [max 0 (1 -
    episode/total_episodes)] as long as [episode <= total_episodes] (for
    [total_episodes > 0]), and there the code agrees with the
    specification's wording. *)
Theorem choose_action_noise_decay self observation episode z :
  0 <= noise_std self -> total_episodes self <> 0%Z ->
  choose_action self observation episode false z =
    (map (map (fun a =>
       clamp 0 1 (a + noise_std self * z
                      * (1 - IZR episode / IZR (total_episodes self)))))
     <$> actor_forward (actor self) [observation]) /\
  ((0 < total_episodes self)%Z -> (episode <= total_episodes self)%Z ->
   1 - IZR episode / IZR (total_episodes self)
     = Rmax 0 (1 - IZR episode / IZR (total_episodes self)) /\
   choose_action self observation episode false z =
     choose_action_clamped_decay self observation episode false z).
Proof.
  intros Hn HT. split; [by apply choose_action_noisy|].
  intros Hpos Hle.
  assert (1 - IZR episode / IZR (total_episodes self)
          = Rmax 0 (1 - IZR episode / IZR (total_episodes self))) as Hd.
  { rewrite Rmax_right; [done|].
    apply IZR_lt in Hpos. apply IZR_le in Hle.
    assert (IZR episode / IZR (total_episodes self) <= 1); [|lra].
    apply (Rmult_le_reg_r (IZR (total_episodes self))); [done|].
    unfold Rdiv. rewrite Rmult_assoc, Rinv_l by lra. lra. }
  split; [exact Hd|].
  unfold choose_action, choose_action_clamped_decay.
  destruct (actor_forward (actor self) [observation]) as [action|]; [|done].
  simpl. destruct (random_normal 0 (noise_std self) z) as [noise|]; [|done].
  simpl. destruct (Z.eqb_spec (total_episodes self) 0); [done|].
  by rewrite <- Hd.
Qed.

End ChooseAction.

Section ExampleAgent.
Import Networks Agent ExampleNets.
Open Scope R_scope.

Lemma actor0_dims : actor_dims 1 1 1 1 actor0.
Proof. repeat split; repeat constructor. Qed.

Lemma actor0_row x : actor_row actor0 [x] = Some [1 / 2].
Proof.
  unfold actor_row, actor0, const_layer, linear_row; simpl.
  do 2 f_equal. rewrite <- sigmoid_0. f_equal. unfold dot; simpl. lra.
Qed.

Lemma actor0_forward x : actor_forward actor0 [[x]] = Some [[1 / 2]].
Proof. unfold actor_forward. by rewrite mapM_cons, actor0_row. Qed.

End ExampleAgent.

(** C7, witness: a noisy action of the example agent. *)
Lemma choose_action_unit_interval_witness :
  exists a, Agent.choose_action ExampleNets.agent0 [1%R] 5 false 2 = Some a /\
            Forall (Forall (fun v => 0 <= v <= 1)%R) a.
Proof.
  destruct (choose_action_unit_interval ExampleNets.agent0 [1%R] 5 false 2)
    as [Hrange Htotal].
  destruct (Htotal 1%nat 1%nat 1%nat 1%nat actor0_dims eq_refl) as [a Ha].
  - right. split; [simpl; lra|discriminate].
  - exists a. split; [exact Ha|exact (Hrange a Ha)].
Defined.

(** C6, witness: episode 5 of 10. *)
Lemma choose_action_noise_decay_witness :
  (0 <= Agent.noise_std ExampleNets.agent0)%R /\
  Agent.total_episodes ExampleNets.agent0 <> 0%Z /\
  Agent.choose_action ExampleNets.agent0 [1%R] 5 false 2 =
    Agent.choose_action_clamped_decay ExampleNets.agent0 [1%R] 5 false 2.
Proof.
  assert (0 <= Agent.noise_std ExampleNets.agent0)%R as Hn by (simpl; lra).
  assert (Agent.total_episodes ExampleNets.agent0 <> 0%Z) as HT by discriminate.
  split; [exact Hn|]. split; [exact HT|].
  destruct (choose_action_noise_decay ExampleNets.agent0 [1%R] 5 2 Hn HT) as [_ H].
  apply H; vm_compute; congruence.
Defined.

(** C6, as stated, fails at episode 20 of 10 with the draw [z = -1]: the
    decay is [-1], the noise [0.1 * -1 * -1 = 0.1] is added to the actor's
    output [0.5], and the action is [0.6]; with the decay clamped to 0 it
    would be [0.5]. *)
Lemma choose_action_decay_not_clamped :
  Agent.choose_action ExampleNets.agent0 [1%R] 20 false (-1) = Some [[0.6%R]] /\
  Agent.choose_action_clamped_decay ExampleNets.agent0 [1%R] 20 false (-1)
    = Some [[0.5%R]] /\
  Agent.choose_action ExampleNets.agent0 [1%R] 20 false (-1) <>
    Agent.choose_action_clamped_decay ExampleNets.agent0 [1%R] 20 false (-1).
Proof.
  assert (Agent.choose_action ExampleNets.agent0 [1%R] 20 false (-1)
          = Some [[0.6%R]]) as H1.
  { rewrite choose_action_noisy by (simpl; lra || discriminate).
    cbn [Agent.actor ExampleNets.agent0]. rewrite actor0_forward. simpl.
    do 3 f_equal. rewrite <- (clamp_inside 0.6) by lra. f_equal. lra. }
  assert (Agent.choose_action_clamped_decay ExampleNets.agent0 [1%R] 20 false (-1)
          = Some [[0.5%R]]) as H2.
  { unfold Agent.choose_action_clamped_decay.
    cbn [Agent.actor ExampleNets.agent0]. rewrite actor0_forward.
    unfold Agent.random_normal. cbn [Agent.noise_std ExampleNets.agent0].
    destruct (Rlt_dec 0.1 0); [lra|]. simpl.
    do 3 f_equal. rewrite <- (clamp_inside 0.5) by lra. f_equal.
    rewrite Rmax_left by lra. lra. }
  split_and!; [exact H1|exact H2|].
  rewrite H1, H2. intros [= H]. lra.
Qed.


Section SoftUpdate.
Import Networks Agent.
Open Scope R_scope.

Lemma blend_1 t p : blend 1 t p = p.
Proof. unfold blend. lra. Qed.


Lemma zip_with_blend_1 (t p : list R) :
  length t = length p -> zip_with (blend 1) t p = p.
Proof.
  revert p. induction t as [|x t IH]; intros [|y p] Hl; simpl in *; try done.
  rewrite blend_1, IH by lia. done.
Qed.


Lemma tensor_map2_blend_1 s t : same_shape s t -> tensor_map2 (blend 1) s t = t.
Proof.
  destruct s as [u|m], t as [v|n]; simpl; try done.
  - intros H. by rewrite zip_with_blend_1.
  - intros H. f_equal. induction H as [|r r' m n Hr H IH]; simpl; [done|].
    by rewrite zip_with_blend_1, IH.
Qed.


Lemma zip_rows_Some f (u v : list R) :
  length u = length v -> zip_rows f u v = Some (zip_with f u v).
Proof. intros H. unfold zip_rows. by rewrite H, Nat.eqb_refl. Qed.

Lemma tensor_zip_Some f s t :
  same_shape s t -> tensor_zip f s t = Some (tensor_map2 f s t).
Proof.
  destruct s as [u|m], t as [v|n]; simpl; try done.
  - intros H. by rewrite zip_rows_Some.
  - intros H. pose proof (Forall2_length H) as Hlen. rewrite Hlen, Nat.eqb_refl.
    assert (mapM (fun uv : list R * list R => zip_rows f uv.1 uv.2) (zip m n)
            = Some (zip_with (zip_with f) m n)) as ->; [|done].
    clear Hlen. induction H as [|r r' m n Hr H IH]; [done|].
    change (zip (r :: m) (r' :: n)) with ((r, r') :: zip m n).
    rewrite mapM_cons, IH. cbn [fst snd].
    by rewrite zip_rows_Some.
Qed.

Lemma soft_update_Some tau tps ps :
  Forall2 same_shape tps ps ->
  soft_update tau tps ps = Some (zip_with (tensor_map2 (blend tau)) tps ps).
Proof.
  intros H. unfold soft_update.
  induction H as [|s t tps ps Hs H IH]; [done|].
  change (zip (s :: tps) (t :: ps)) with ((s, t) :: zip tps ps).
  rewrite mapM_cons, IH. cbn [fst snd].
  by rewrite tensor_zip_Some.
Qed.

Lemma zip_with_same_shape_1 tps ps :
  Forall2 same_shape tps ps -> zip_with (tensor_map2 (blend 1)) tps ps = ps.
Proof.
  induction 1 as [|s t tps ps Hs H IH]; simpl; [done|].
  by rewrite tensor_map2_blend_1, IH.
Qed.





End SoftUpdate.

Section ExampleTwins.
Import Networks Agent ExampleNets.

Lemma agent0_twin_shapes : twin_shapes agent0.
Proof. split; repeat constructor. Qed.

End ExampleTwins.



(** ** Coordinator *)

Section TensorFacts.
Import Networks Agent MADDPG.
Open Scope R_scope.

Lemma mapM_lookup {B C} (f : B -> option C) l k j x :
  mapM f l = Some k -> l !! j = Some x ->
  exists y, k !! j = Some y /\ f x = Some y.
Proof.
  intros H Hx. apply mapM_Some in H.
  destruct (Forall2_lookup_l _ _ _ _ _ H Hx) as (y & ? & ?). eauto.
Qed.

Lemma mapM_lookup_r {B C} (f : B -> option C) l k j y :
  mapM f l = Some k -> k !! j = Some y ->
  exists x, l !! j = Some x /\ f x = Some y.
Proof.
  intros H Hy. apply mapM_Some in H.
  destruct (Forall2_lookup_r _ _ _ _ _ H Hy) as (x & ? & ?). eauto.
Qed.

Lemma mapM_length {B C} (f : B -> option C) l k :
  mapM f l = Some k -> length k = length l.
Proof. intros H. apply mapM_Some in H. symmetry. by eapply Forall2_length. Qed.

(** Row [j] of [T.cat(tensors, dim=1)] is made of the rows [j] of the
    tensors, in order. *)
Lemma cat_dim1_lookup tensors r j row :
  cat_dim1 tensors = Some r -> r !! j = Some row ->
  exists blocks, Forall2 (fun t block => t !! j = Some block) tensors blocks /\
                 row = concat blocks.
Proof.
  revert r row. induction tensors as [|t rest IH]; intros r row; [done|].
  destruct rest as [|t' rest].
  - simpl. intros [= <-] Hj. exists [row]. split; [by repeat constructor|].
    simpl. by rewrite app_nil_r.
  - change (cat_dim1 (t :: t' :: rest)) with
      (r' ← cat_dim1 (t' :: rest);
       if (length t =? length r')%nat then Some (zip_with app t r') else None).
    destruct (cat_dim1 (t' :: rest)) as [r'|] eqn:E; [|done].
    cbn [mbind option_bind]. case_match; [|done]. intros [= <-] Hj.
    apply lookup_zip_with_Some in Hj as (x & y & -> & Hx & Hy).
    destruct (IH r' y eq_refl Hy) as (blocks & HF & ->).
    exists (x :: blocks). split; [by constructor|done].
Qed.

Lemma cat_dim1_length tensors r :
  cat_dim1 tensors = Some r -> Forall (fun t => length t = length r) tensors.
Proof.
  revert r. induction tensors as [|t rest IH]; intros r; [done|].
  destruct rest as [|t' rest].
  - simpl. intros [= <-]. by repeat constructor.
  - change (cat_dim1 (t :: t' :: rest)) with
      (r' ← cat_dim1 (t' :: rest);
       if (length t =? length r')%nat then Some (zip_with app t r') else None).
    destruct (cat_dim1 (t' :: rest)) as [r'|] eqn:E; [|done].
    cbn [mbind option_bind].
    destruct (Nat.eqb_spec (length t) (length r')) as [Hl|]; [|done].
    intros [= <-]. rewrite length_zip_with, <- Hl, Nat.min_id.
    constructor; [done|]. rewrite Hl. by apply IH.
Qed.

Lemma actor_forward_lookup net state a j state_j :
  actor_forward net state = Some a -> state !! j = Some state_j ->
  exists a_j, a !! j = Some a_j /\ actor_row net state_j = Some a_j.
Proof. apply mapM_lookup. Qed.

Lemma critic_forward_lookup net state action others_states others_actions cv j row :
  critic_forward net state action others_states others_actions = Some cv ->
  cv !! j = Some row ->
  exists s_j a_j os_j oa_j,
    state !! j = Some s_j /\ action !! j = Some a_j /\
    others_states !! j = Some os_j /\ others_actions !! j = Some oa_j /\
    critic_row net (s_j ++ a_j ++ os_j ++ oa_j) = Some row.
Proof.
  unfold critic_forward. intros H Hj.
  destruct (cat_dim1 [state; action; others_states; others_actions])
    as [inputs|] eqn:E; [|done].
  cbn [mbind option_bind] in H.
  destruct (mapM_lookup_r _ _ _ _ _ H Hj) as (x & Hx & Hrow).
  destruct (cat_dim1_lookup _ _ _ _ E Hx) as (blocks & HF & ->).
  inversion HF as [|? s_j ? ? Hs HF1]; subst.
  inversion HF1 as [|? a_j ? ? Ha HF2]; subst.
  inversion HF2 as [|? os_j ? ? Hos HF3]; subst.
  inversion HF3 as [|? oa_j ? ? Hoa HF4]; subst.
  inversion HF4; subst.
  exists s_j, a_j, os_j, oa_j. split_and!; try done.
  simpl in Hrow. by rewrite app_nil_r in Hrow.
Qed.

Lemma critic_target_lookup gamma batch_size reward cv target j :
  critic_target gamma batch_size reward cv = Some target -> (j < batch_size)%nat ->
  exists r q, reward !! j = Some r /\ cv !! j = Some [q] /\
              target !! j = Some [r + gamma * q].
Proof.
  unfold critic_target. intros H Hj.
  destruct (mapM _ (seq 0 batch_size)) as [raw|] eqn:E; [|done].
  cbn [mbind option_bind] in H.
  destruct (mapM as_scalar raw) as [scalars|] eqn:E2; [|done].
  injection H as <-.
  destruct (mapM_lookup _ _ _ j j E) as (tj & Htj & Hg).
  { by rewrite lookup_seq_lt. }
  destruct (reward !! j) as [r|]; [|done]. cbn [mbind option_bind] in Hg.
  destruct (cv !! j) as [qrow|]; [|done]. cbn [mbind option_bind] in Hg.
  injection Hg as <-.
  destruct (mapM_lookup _ _ _ _ _ E2 Htj) as (x & Hx & Hs).
  destruct qrow as [|q [|??]]; try done. injection Hs as <-.
  exists r, q. split_and!; try done.
  unfold as_column. by rewrite list_lookup_fmap, Hx.
Qed.

End TensorFacts.


Section Routing.
Import Networks Agent MADDPG.
Open Scope R_scope.

Lemma list_remove_seq_from idx s n :
  (s <= idx < s + n)%nat ->
  list_remove idx (seq s n) =
    Some (map (fun k => if (k <? idx)%nat then k else S k) (seq s (n - 1))).
Proof.
  revert s. induction n as [|n IH]; intros s Hs; [lia|].
  cbn [seq list_remove]. replace (S n - 1)%nat with n by lia.
  destruct (Nat.eqb_spec s idx) as [->|Hne].
  - f_equal. rewrite <- seq_shift. apply map_ext_in. intros k Hk.
    apply in_seq in Hk. destruct (Nat.ltb_spec k idx); [lia|done].
  - rewrite IH by lia. cbn [fmap option_fmap option_map]. f_equal.
    destruct n as [|n]; [lia|]. replace (S n - 1)%nat with n by lia.
    cbn [seq map]. destruct (Nat.ltb_spec s idx); [done|lia].
Qed.

(** [indexes] after [indexes.remove(idx)]: the agents other than [idx]
    in ascending order. *)
Lemma list_remove_seq idx n :
  (idx < n)%nat ->
  list_remove idx (seq 0 n) = Some (map (other_agent idx) (seq 0 (n - 1))).
Proof. intros H. apply list_remove_seq_from. lia. Qed.

Lemma list_remove_Some_elem x l l' : list_remove x l = Some l' -> In x l.
Proof.
  revert l'. induction l as [|y l IH]; intros l'; simpl; [done|].
  destruct (Nat.eqb_spec y x) as [->|]; [by left|].
  destruct (list_remove x l); [|done]. intros _. right. by eapply IH.
Qed.

Lemma other_agent_filter idx n :
  (idx < n)%nat ->
  map (other_agent idx) (seq 0 (n - 1)) = List.filter (fun a => negb (a =? idx)%nat) (seq 0 n).
Proof.
  intros H. replace n with (idx + (1 + (n - 1 - idx)))%nat at 2 by lia.
  replace (n - 1)%nat with (idx + (n - 1 - idx))%nat at 1 by lia.
  rewrite !seq_app, map_app, !List.filter_app. simpl. rewrite Nat.eqb_refl. simpl.
  f_equal.
  - rewrite List.forallb_filter_id.
    + rewrite <- (map_id (seq 0 idx)) at 2. apply map_ext_in. intros k Hk.
      apply in_seq in Hk. unfold other_agent.
      destruct (Nat.ltb_spec k idx); [done|lia].
    + apply forallb_forall. intros k Hk. apply in_seq in Hk.
      destruct (Nat.eqb_spec k idx); [lia|done].
  - replace (idx + 1)%nat with (S idx) by lia. rewrite List.forallb_filter_id.
    + rewrite <- seq_shift. apply map_ext_in. intros k Hk.
      apply in_seq in Hk. unfold other_agent.
      destruct (Nat.ltb_spec k idx); [lia|done].
    + apply forallb_forall. intros k Hk. apply in_seq in Hk.
      destruct (Nat.eqb_spec k idx); [lia|done].
Qed.

End Routing.


Section OthersForward.
Import Networks Agent MADDPG.
Open Scope R_scope.

Lemma column_lookup t k col j row :
  column t k = Some col -> t !! j = Some row ->
  exists c, col !! j = Some c /\ row !! k = Some c.
Proof. apply mapM_lookup. Qed.

Lemma others_forward_rows agents num_agents idx others_states ota :
  others_forward agents num_agents idx others_states = Some ota ->
  (idx < num_agents)%nat /\ (2 <= num_agents)%nat /\
  length ota = length others_states /\
  forall j others_states_j row,
    others_states !! j = Some others_states_j -> ota !! j = Some row ->
    routed_row agents num_agents idx others_states_j row.
Proof.
  unfold others_forward. intros H. bind_inv H. bind_inv H.
  rename l into indexes, l0 into tal, E0 into Etal.
  assert (idx < num_agents)%nat as Hidx.
  { apply list_remove_Some_elem, in_seq in E. lia. }
  rewrite list_remove_seq in E by done. injection E as <-.
  pose proof (mapM_length _ _ _ Etal) as Hlen. rewrite length_seq in Hlen.
  pose proof (cat_dim1_length _ _ H) as Hrows.
  assert (2 <= num_agents)%nat as Hn.
  { destruct tal; [done|]. simpl in Hlen. lia. }
  (* what the loop computed for column [k] *)
  assert (forall k t, tal !! k = Some t ->
            (k < num_agents - 1)%nat /\
            exists col other,
              column others_states k = Some col /\
              agents !! other_agent idx k = Some other /\
              actor_forward (target_actor other) (as_column col) = Some t)
    as Hloop.
  { intros k t Hk.
    destruct (mapM_lookup_r _ _ _ _ _ Etal Hk) as (k' & Hk' & Hg).
    apply lookup_seq in Hk' as [-> Hlt]. simpl in *. split; [done|].
    destruct (column others_states k) as [col|]; [|done].
    cbn [fmap option_fmap option_map mbind option_bind] in Hg.
    bind_inv Hg. bind_inv Hg.
    rewrite list_lookup_fmap, lookup_seq_lt in E by done.
    injection E as <-. eauto. }
  split_and!; [done|done| |].
  - destruct tal as [|t tal]; [done|].
    destruct (Hloop 0%nat t eq_refl) as (_ & col & other & Hcol & _ & Hf).
    inversion Hrows as [|? ? Ht _]; subst. rewrite <- Ht.
    rewrite (mapM_length _ _ _ Hf). unfold as_column. rewrite length_map.
    apply (mapM_length _ _ _ Hcol).
  - intros j os_j row Hj Hrow.
    destruct (cat_dim1_lookup _ _ _ _ H Hrow) as (blocks & HF & ->).
    exists blocks. split; [done|].
    apply Forall2_same_length_lookup. split.
    { rewrite length_seq, <- Hlen. by eapply Forall2_length. }
    intros k k' block Hk' Hblock.
    apply lookup_seq in Hk' as [-> Hlt]. simpl in *.
    destruct (Forall2_lookup_r _ _ _ _ _ HF Hblock) as (t & Ht & Htj).
    destruct (Hloop k t Ht) as (_ & col & other & Hcol & Hother & Hf).
    destruct (column_lookup _ _ _ _ _ Hcol Hj) as (c & Hc & Hck).
    destruct (actor_forward_lookup _ (as_column col) _ j [c] Hf) as (a_j & Ha & Hrowj).
    { unfold as_column. by rewrite list_lookup_fmap, Hc. }
    exists c, other. split_and!; [done|done|congruence].
Qed.

Lemma zip_with_app_extends (t u : list (list R)) :
  length t = length u -> Forall2 extends t (zip_with app t u).
Proof.
  revert u. induction t as [|r t IH]; intros u Hl.
  - constructor.
  - destruct u as [|x u]; [done|]. simpl in *.
    constructor; [by exists x|]. apply IH. lia.
Qed.

Lemma Forall2_extends_refl (t : list (list R)) : Forall2 extends t t.
Proof.
  induction t as [|r t IH]; constructor; [|done]. exists []. by rewrite app_nil_r.
Qed.

(** The tiling only appends columns: the first columns stay in place. *)
Lemma np_tile_extends flag num_tiles t t' :
  np_tile flag num_tiles t = Some t' -> Forall2 extends t t'.
Proof.
  unfold np_tile. destruct flag; [|intros [= <-]; apply Forall2_extends_refl].
  intros H. bind_inv H. injection H as <-.
  apply zip_with_app_extends. rewrite length_map.
  symmetry. by eapply mapM_length.
Qed.

Lemma torch_tile_extends flag num_tiles t t' :
  torch_tile flag num_tiles t = Some t' -> Forall2 extends t t'.
Proof.
  unfold torch_tile. destruct flag; [|intros [= <-]; apply Forall2_extends_refl].
  intros H. bind_inv H. bind_inv H.
  change (cat_dim1 [t; l0]) with
    (r' ← Some l0;
     if (length t =? length r')%nat then Some (zip_with app t r') else None) in H.
  cbn [mbind option_bind] in H.
  destruct (Nat.eqb_spec (length t) (length l0)) as [Hl|]; [|done].
  injection H as <-. by apply zip_with_app_extends.
Qed.

End OthersForward.


Section LearnPass.
Import Networks Agent MADDPG.
Open Scope R_scope.

Variable critic_step :
  CriticNetwork -> list (list R) ->
  list (list R) -> list (list R) -> list (list R) -> list (list R) ->
  CriticNetwork.
Variable actor_step :
  ActorNetwork -> CriticNetwork ->
  list (list R) -> list (list R) -> list (list R) -> ActorNetwork.


(** What a pass that ran to its end has computed, step by step. *)
Lemma learn_pass_inv self mem idx flag num_tiles batch self' log :
  MADDPG.learn_pass critic_step actor_step self mem idx flag num_tiles batch = Some (self', log) ->
  exists agent ota,
    agents self !! idx = Some agent /\
    Buffer.sample_buffer mem batch = Some (log_batch log) /\
    np_tile flag num_tiles (Buffer.b_others_states (log_batch log))
      = Some (log_others_states log) /\
    actor_forward (target_actor agent) (Buffer.b_states (log_batch log))
      = Some (log_target_actions log) /\
    others_forward (agents self) (num_agents self) idx (log_others_states log)
      = Some ota /\
    torch_tile flag num_tiles ota = Some (log_others_target_actions log) /\
    critic_forward (target_critic agent) (Buffer.b_states (log_batch log))
      (log_target_actions log) (log_others_states log)
      (log_others_target_actions log) = Some (log_critic_value_ log) /\
    critic_target (gamma self) (batch_size self)
      (Buffer.b_rewards (log_batch log)) (log_critic_value_ log)
      = Some (log_target log) /\
    memory self' = memory self /\ short_memory self' = short_memory self /\
    batch_size self' = batch_size self /\ num_agents self' = num_agents self /\
    gamma self' = gamma self /\
    length (agents self') = length (agents self).
Proof.
  unfold MADDPG.learn_pass. intros H.
  cbv zeta in H. repeat bind_inv H. injection H as <- <-.
  cbn [log_batch log_others_states log_target_actions log_others_target_actions
       log_critic_value_ log_target memory short_memory batch_size num_agents
       gamma agents].
  eexists _, _. split_and!; try done. by rewrite length_insert.
Qed.

(** C3.  In a pass of [learn] for agent [idx] that runs to its end, the
    regression target of every sample [j < batch_size] is
    [reward_j + gamma * q_j], where [q_j] is the target critic of the agent
    on the sampled state [state_j] itself, the target actor's action on
    [state_j], and row [j] of the others' states and of the others' target
    actions; no stored successor state and no terminal mask enter.  Both
    passes of [learn] are such passes. *)
Theorem learn_target_is_bootstrap self mem idx flag num_tiles batch self' log :
  MADDPG.learn_pass critic_step actor_step self mem idx flag num_tiles batch = Some (self', log) ->
  (exists agent,
     agents self !! idx = Some agent /\
     Buffer.sample_buffer mem batch = Some (log_batch log) /\
     (flag = false ->
        log_others_states log = Buffer.b_others_states (log_batch log)) /\
     forall j, (j < batch_size self)%nat ->
       bootstrap_target (gamma self) agent log j) /\
  (forall batch_long batch_short out,
     MADDPG.learn critic_step actor_step self idx flag num_tiles batch_long batch_short = Some out ->
     out = (self, []) \/
     exists self1 long,
       MADDPG.learn_pass critic_step actor_step self (memory self) idx flag num_tiles batch_long
         = Some (self1, long) /\
       (out = (self1, [long]) \/
        exists self2 short,
          MADDPG.learn_pass critic_step actor_step self1 (short_memory self1) idx flag num_tiles batch_short
            = Some (self2, short) /\
          out = (self2, [long; short]))).
Proof.
  intros H. split.
  - destruct (learn_pass_inv _ _ _ _ _ _ _ _ H)
      as (agent & ota & Hag & Hs & Htile & Hta & Hof & Htt & Hcv & Htg & _).
    exists agent. split_and!; [done|done| |].
    + intros ->. simpl in Htile. congruence.
    + intros j Hj.
      destruct (critic_target_lookup _ _ _ _ _ _ Htg Hj) as (r & q & Hr & Hq & Ht).
      destruct (critic_forward_lookup _ _ _ _ _ _ _ _ Hcv Hq)
        as (s_j & a_j & os_j & oa_j & Hsj & Haj & Hosj & Hoaj & Hrow).
      destruct (actor_forward_lookup _ _ _ _ _ Hta Hsj) as (a_j' & Haj' & Hact).
      assert (a_j' = a_j) as -> by congruence.
      exists s_j, a_j, os_j, oa_j, r, q. split_and!; done.
  - clear H. intros batch_long batch_short out. unfold MADDPG.learn.
    destruct (_ <? _)%nat; [intros [= <-]; by left|].
    intros Hl. right.
    destruct (MADDPG.learn_pass critic_step actor_step self (memory self) idx flag num_tiles batch_long)
      as [[self1 long]|]; [|done].
    cbn [mbind option_bind] in Hl. exists self1, long. split; [done|].
    destruct (_ <? _)%nat; [left; congruence|]. right.
    destruct (MADDPG.learn_pass critic_step actor_step self1 (short_memory self1) idx flag num_tiles batch_short)
      as [[self2 short]|]; [|done].
    cbn [mbind option_bind] in Hl. exists self2, short. split; congruence.
Qed.

(** C5.  In a pass of [learn] for agent [idx] that runs to its end, with
    [n = num_agents]: [idx < n], and for every sample [j] the row [j] of
    the others' target actions that the loop builds is, for
    [k = 0 .. n - 2] in this order, the action of the target actor of the
    [k]-th agent other than [idx] (ascending agent index) on column [k] of
    the others' states, laid side by side in the same order.  Without the
    transfer-learning flag, these are the columns of the sampled
    [others_states] and the result is the joint others' target action as
    the critic receives it; with the flag, the tiled columns come after the
    sampled ones and after the routed actions. *)
Theorem learn_routes_columns self mem idx flag num_tiles batch self' log :
  MADDPG.learn_pass critic_step actor_step self mem idx flag num_tiles batch = Some (self', log) ->
  (idx < num_agents self)%nat /\
  list_remove idx (seq 0 (num_agents self))
    = Some (map (other_agent idx) (seq 0 (num_agents self - 1))) /\
  map (other_agent idx) (seq 0 (num_agents self - 1))
    = List.filter (fun a => negb (a =? idx)%nat) (seq 0 (num_agents self)) /\
  exists ota,
    others_forward (agents self) (num_agents self) idx (log_others_states log)
      = Some ota /\
    torch_tile flag num_tiles ota = Some (log_others_target_actions log) /\
    (flag = false ->
       ota = log_others_target_actions log /\
       log_others_states log = Buffer.b_others_states (log_batch log)) /\
    Forall2 extends (Buffer.b_others_states (log_batch log))
                    (log_others_states log) /\
    Forall2 extends ota (log_others_target_actions log) /\
    length ota = length (log_others_states log) /\
    forall j others_states_j,
      log_others_states log !! j = Some others_states_j ->
      exists row, ota !! j = Some row /\
        routed_row (agents self) (num_agents self) idx others_states_j row.
Proof.
  intros H.
  destruct (learn_pass_inv _ _ _ _ _ _ _ _ H)
    as (agent & ota & Hag & Hs & Htile & Hta & Hof & Htt & _).
  destruct (others_forward_rows _ _ _ _ _ Hof) as (Hidx & Hn & Hlen & Hrows).
  split_and!; [done|by apply list_remove_seq|by apply other_agent_filter|].
  exists ota. split_and!; [done|done| | | |done|].
  - intros ->. simpl in Htile, Htt. split; congruence.
  - by eapply np_tile_extends.
  - by eapply torch_tile_extends.
  - intros j os_j Hj.
    destruct (lookup_lt_is_Some_2 ota j) as [row Hrow].
    { rewrite Hlen. by eapply lookup_lt_Some. }
    exists row. split; [done|]. by eapply Hrows.
Qed.

End LearnPass.


Section Sampling.
Import Buffer.
Context {A : Type}.
Implicit Types (b : ReplayBuffer (A:=A)) (t : Transition (A:=A)).

Lemma gather_take {B} (arr : list B) n batch :
  Forall (fun i => i < n) batch -> gather (take n arr) batch = gather arr batch.
Proof.
  unfold gather. induction 1 as [|i batch Hi _ IH]; [done|].
  by rewrite !mapM_cons, IH, lookup_take_lt.
Qed.

Lemma gather_map {B C} (f : B -> C) (l : list B) batch :
  gather (map f l) batch = map f <$> gather l batch.
Proof.
  unfold gather. induction batch as [|i batch IH]; [done|].
  rewrite !mapM_cons, IH. change (map f l) with (f <$> l).
  rewrite list_lookup_fmap. destruct (l !! i); [|done]. simpl.
  by destruct (mapM (fun i0 : nat => l !! i0) batch).
Qed.

Lemma gather_Some {B} (l : list B) batch :
  Forall (fun i => i < length l) batch ->
  exists k, gather l batch = Some k /\ length k = length batch /\
            Forall (fun x => In x l) k.
Proof.
  intros H. unfold gather.
  eapply (mapM_Some_total _ (fun i => i < length l)); [done|].
  intros i Hi. destruct (lookup_lt_is_Some_2 l i Hi) as [x Hx].
  exists x. split; [done|]. apply list_elem_of_In. by eapply list_elem_of_lookup_2.
Qed.

Lemma gather_replicate_0 {B} (x : B) n :
  gather [x] (replicate n 0) = Some (replicate n x).
Proof.
  unfold gather. induction n as [|n IH]; [done|].
  cbn [replicate]. by rewrite mapM_cons, IH.
Qed.

(** Before the counter passes the capacity, [sample_buffer] returns the
    stored transitions at the drawn positions. *)
Lemma sample_buffer_prefix b ts batch :
  holds_prefix b ts -> Forall (fun i => i < length ts) batch ->
  sample_buffer b batch = batch_of <$> gather ts batch.
Proof.
  intros (_ & P1 & P2 & P3 & P4 & P5) Hb. unfold sample_buffer.
  rewrite <- (gather_take (state_memory b) _ _ Hb), P1.
  rewrite <- (gather_take (action_memory b) _ _ Hb), P2.
  rewrite <- (gather_take (reward_memory b) _ _ Hb), P3.
  rewrite <- (gather_take (others_states b) _ _ Hb), P4.
  rewrite <- (gather_take (others_actions b) _ _ Hb), P5.
  rewrite !gather_map. by destruct (gather ts batch).
Qed.

(** The only draw from a one-row store is row 0, and the batch repeats the
    one stored transition. *)
Lemma sample_buffer_one_row b t batch_size batch :
  state_memory b = [t_state t] -> action_memory b = [t_action t] ->
  reward_memory b = [t_reward t] -> others_states b = [t_others_states t] ->
  others_actions b = [t_others_actions t] ->
  random_choice 1 batch_size batch ->
  batch = replicate batch_size 0 /\
  sample_buffer b batch = Some (batch_of (replicate batch_size t)).
Proof.
  intros H1 H2 H3 H4 H5 [Hlen Hall].
  assert (batch = replicate batch_size 0) as ->.
  { subst batch_size. induction Hall as [|i batch Hi _ IH]; [done|].
    simpl. f_equal; [lia|done]. }
  split; [done|]. unfold sample_buffer. rewrite H1, H2, H3, H4, H5.
  rewrite !gather_replicate_0. simpl. unfold batch_of.
  change (@map) with (@fmap list _). by rewrite !fmap_replicate.
Qed.

End Sampling.

Section Remember.
Import Networks Agent MADDPG.
Open Scope nat_scope.

Lemma remember_inv self t self' :
  remember self t = Some self' ->
  Buffer.store (memory self) t = Some (memory self') /\
  Buffer.store (short_memory self) t = Some (short_memory self') /\
  agents self' = agents self /\ num_agents self' = num_agents self /\
  batch_size self' = batch_size self /\ gamma self' = gamma self /\
  max_size self' = max_size self.
Proof.
  unfold remember. intros H. bind_inv H. bind_inv H. by injection H as <-.
Qed.

Lemma remember_all_inv self ts self' :
  remember_all self ts = Some self' ->
  Buffer.store_all (memory self) ts = Some (memory self') /\
  Buffer.store_all (short_memory self) ts = Some (short_memory self') /\
  agents self' = agents self /\ num_agents self' = num_agents self /\
  batch_size self' = batch_size self /\ gamma self' = gamma self /\
  max_size self' = max_size self.
Proof.
  revert self. induction ts as [|t ts IH]; intros self; simpl.
  - by intros [= <-].
  - intros H. bind_inv H.
    destruct (remember_inv _ _ _ E) as (S1 & S2 & A1 & A2 & A3 & A4 & A5).
    destruct (IH _ H) as (I1 & I2 & B1 & B2 & B3 & B4 & B5).
    rewrite S1, S2. simpl. split_and!; congruence.
Qed.

Lemma remember_all_of_stores self ts m s :
  Buffer.store_all (memory self) ts = Some m ->
  Buffer.store_all (short_memory self) ts = Some s ->
  remember_all self ts =
    Some {| agents := agents self; num_agents := num_agents self;
            batch_size := batch_size self; gamma := gamma self;
            max_size := max_size self; memory := m; short_memory := s |}.
Proof.
  revert self. induction ts as [|t ts IH]; intros self; simpl.
  - intros [= <-] [= <-]. by destruct self.
  - intros Hm Hs. bind_inv Hm. bind_inv Hs. unfold remember.
    rewrite E, E0. cbn [mbind option_bind].
    by rewrite (IH (mkMADDPG (agents self) (num_agents self) (batch_size self)
                      (gamma self) (max_size self) r r0) Hm Hs).
Qed.

(** The coordinator [__init__] returns. *)
Lemma init_inv new_agents g BS input_dims n_actions n_agents self :
  MADDPG.__init__ new_agents g BS input_dims n_actions n_agents = Some self ->
  agents self = new_agents /\ num_agents self = n_agents /\
  batch_size self = BS /\ gamma self = g /\
  Buffer.__init__ 0%R (Z.to_nat 1000000) input_dims n_actions n_agents
    = Some (memory self) /\
  Buffer.__init__ 0%R 1 input_dims n_actions n_agents = Some (short_memory self).
Proof.
  unfold MADDPG.__init__. intros H. bind_inv H. bind_inv H. by injection H as <-.
Qed.

(** On a fresh coordinator [remember] accepts every sequence of
    transitions numpy can store. *)
Lemma remember_all_Some new_agents g BS input_dims n_actions n_agents self0 ts :
  MADDPG.__init__ new_agents g BS input_dims n_actions n_agents = Some self0 ->
  Forall (Buffer.storable input_dims n_actions n_agents) ts ->
  exists self', remember_all self0 ts = Some self'.
Proof.
  intros Hi Hts.
  destruct (init_inv _ _ _ _ _ _ _ Hi) as (_ & _ & _ & _ & Hm & Hs).
  destruct (init_wf _ _ _ _ _ _ Hm) as (Wm & _ & Sm).
  destruct (init_wf _ _ _ _ _ _ Hs) as (Ws & _ & Ss).
  destruct (store_all_Some _ _ _ (memory self0) ts Wm
              (init_row_widths _ _ _ _ _ _ Hm) ltac:(lia) Hts) as (m & Em & _).
  destruct (store_all_Some _ _ _ (short_memory self0) ts Ws
              (init_row_widths _ _ _ _ _ _ Hs) ltac:(lia) Hts) as (s & Es & _).
  eexists. by apply remember_all_of_stores.
Qed.

(** What the two stores hold after [remember] of the transitions [ts] on a
    fresh coordinator. *)
Lemma remember_all_stores new_agents g BS input_dims n_actions n_agents self0 ts self :
  MADDPG.__init__ new_agents g BS input_dims n_actions n_agents = Some self0 ->
  remember_all self0 ts = Some self ->
  agents self = new_agents /\ num_agents self = n_agents /\
  batch_size self = BS /\ gamma self = g /\
  Buffer.mem_cntr (memory self) = length ts /\
  Buffer.mem_cntr (short_memory self) = length ts /\
  Buffer.mem_size (memory self) = Z.to_nat 1000000 /\
  Buffer.mem_size (short_memory self) = 1 /\
  Buffer.wf (memory self) /\ Buffer.wf (short_memory self) /\
  (length ts <= Z.to_nat 1000000 ->
   Buffer.holds_prefix (memory self)
     (map (Buffer.as_stored input_dims n_actions n_agents) ts)) /\
  (forall ts' t, ts = ts' ++ [t] ->
     let t' := Buffer.as_stored input_dims n_actions n_agents t in
     Buffer.state_memory (short_memory self) = [Buffer.t_state t'] /\
     Buffer.action_memory (short_memory self) = [Buffer.t_action t'] /\
     Buffer.reward_memory (short_memory self) = [Buffer.t_reward t'] /\
     Buffer.others_states (short_memory self) = [Buffer.t_others_states t'] /\
     Buffer.others_actions (short_memory self) = [Buffer.t_others_actions t']) /\
  Buffer.row_widths input_dims n_actions n_agents (memory self) /\
  Buffer.row_widths input_dims n_actions n_agents (short_memory self) /\
  Forall (Buffer.storable input_dims n_actions n_agents) ts.
Proof.
  intros Hi Hr.
  destruct (init_inv _ _ _ _ _ _ _ Hi) as (Ha & Hn & Hb & Hg & Hm & Hs).
  destruct (remember_all_inv _ _ _ Hr) as (Rm & Rs & -> & -> & -> & -> & _).
  destruct (init_wf _ _ _ _ _ _ Hm) as (Wm & Cm & Sm).
  destruct (init_wf _ _ _ _ _ _ Hs) as (Ws & Cs & Ss).
  pose proof (init_row_widths _ _ _ _ _ _ Hm) as Dm.
  pose proof (init_row_widths _ _ _ _ _ _ Hs) as Ds.
  destruct (store_all_inv _ _ _ Rm) as [Sm' Cm'].
  destruct (store_all_inv _ _ _ Rs) as [Ss' Cs'].
  destruct (store_all_row_widths _ _ _ _ _ _ Wm Dm Rm) as [Dm' Hts].
  destruct (store_all_row_widths _ _ _ _ _ _ Ws Ds Rs) as [Ds' _].
  split_and!; try done; try lia.
  - exact (store_all_wf _ _ _ Wm Rm).
  - exact (store_all_wf _ _ _ Ws Rs).
  - intros Hle.
    eapply (holds_prefix_store_all input_dims n_actions n_agents);
      [exact Wm|exact Dm|done|lia|done].
  - intros ts' t ->. rewrite store_all_snoc in Rs. bind_inv Rs.
    destruct (store_all_inv _ _ _ E) as [Sr _].
    destruct (store_all_row_widths _ _ _ _ _ _ Ws Ds E) as [Dr _].
    pose proof (store_all_wf _ _ _ Ws E) as Wr.
    apply (store_spec input_dims n_actions n_agents) in Rs as (_ & _ & ->);
      [|done|done].
    cbv zeta. apply write_capacity_one; [done|lia].
Qed.

End Remember.


Section Shapes.
Import Networks Agent MADDPG.
Open Scope nat_scope.

Lemma column_Some (t : list (list R)) w k :
  Forall (fun r => length r = w) t -> k < w ->
  exists col, column t k = Some col /\ length col = length t.
Proof.
  intros Ht Hk. unfold column.
  destruct (mapM_Some_total (fun row : list R => row !! k)
              (fun r => length r = w) (fun _ => True) t Ht) as (col & ? & ? & _).
  - intros row Hrow. destruct (lookup_lt_is_Some_2 row k) as [c Hc]; [lia|]. eauto.
  - eauto.
Qed.

Lemma zip_with_app_widths (t u : list (list R)) w v :
  Forall (fun r => length r = w) t -> Forall (fun r => length r = v) u ->
  Forall (fun r => length r = w + v) (zip_with app t u).
Proof.
  intros Ht. revert u. induction Ht as [|r t Hr Ht IH]; intros u Hu; [constructor|].
  destruct Hu as [|r' u Hr' Hu]; [constructor|]. simpl.
  constructor; [rewrite length_app; lia|by apply IH].
Qed.

Lemma np_tile_Some flag num_tiles t w :
  Forall (fun r => length r = w) t -> (flag = true -> 1 <= w) ->
  exists t', np_tile flag num_tiles t = Some t' /\ length t' = length t /\
             Forall (fun r => length r = w + tiles flag num_tiles) t'.
Proof.
  intros Ht Hw. unfold np_tile, tiles. destruct flag.
  - destruct (column_Some t w 0 Ht) as (col & -> & Hcol); [by apply Hw|].
    cbn [mbind option_bind]. eexists. split; [done|]. split.
    + rewrite length_zip_with, length_map. lia.
    + apply zip_with_app_widths; [done|].
      apply List.Forall_map, Forall_true. intros c. apply length_replicate.
  - exists t. split_and!; [done|done|].
    eapply List.Forall_impl; [|exact Ht]. simpl. intros; lia.
Qed.

(** Rows of [T.cat(tensors, dim=1)] have the summed width. *)
Lemma cat_dim1_Some tensors widths rows :
  tensors <> [] ->
  Forall2 (fun t w => length t = rows /\ Forall (fun r => length r = w) t)
          tensors widths ->
  exists r, cat_dim1 tensors = Some r /\ length r = rows /\
            Forall (fun row => length row = foldr plus 0 widths) r.
Proof.
  intros Hne H. induction H as [|t w tensors widths [Hl Hw] H IH]; [done|].
  destruct tensors as [|t' tensors].
  - inversion H; subst. exists t. split_and!; [done|done|].
    eapply List.Forall_impl; [|exact Hw]. simpl. intros; lia.
  - destruct IH as (r & Hr & Hlr & Hwr); [done|].
    change (cat_dim1 (t :: t' :: tensors)) with
      (r' ← cat_dim1 (t' :: tensors);
       if length t =? length r' then Some (zip_with app t r') else None).
    rewrite Hr. cbn [mbind option_bind]. rewrite Hl, Hlr, Nat.eqb_refl.
    eexists. split; [done|]. split.
    + rewrite length_zip_with. lia.
    + simpl. by apply zip_with_app_widths.
Qed.

Lemma foldr_plus_replicate n w : foldr plus 0 (replicate n w) = w * n.
Proof. induction n as [|n IH]; simpl; lia. Qed.

Lemma torch_tile_Some flag num_tiles t w :
  Forall (fun r => length r = w) t -> (flag = true -> 1 <= w /\ 1 <= num_tiles) ->
  exists t', torch_tile flag num_tiles t = Some t' /\ length t' = length t /\
             Forall (fun r => length r = w + tiles flag num_tiles) t'.
Proof.
  intros Ht Hw. unfold torch_tile, tiles. destruct flag.
  - destruct Hw as [Hw Hn]; [done|].
    destruct (column_Some t w 0 Ht) as (col & -> & Hcol); [lia|].
    cbn [mbind option_bind].
    destruct (cat_dim1_Some (replicate num_tiles (as_column col))
                (replicate num_tiles 1) (length t))
      as (tiled & -> & Hlt & Hwt).
    { destruct num_tiles; [lia|done]. }
    { apply Forall2_replicate. split.
      - unfold as_column. by rewrite length_map.
      - apply List.Forall_map, Forall_true. done. }
    cbn [mbind option_bind]. rewrite foldr_plus_replicate in Hwt.
    destruct (cat_dim1_Some [t; tiled] [w; num_tiles] (length t))
      as (r & -> & Hlr & Hwr); [done| |].
    { repeat constructor; try done.
      eapply List.Forall_impl; [|exact Hwt]. simpl. intros; lia. }
    exists r. split_and!; [done|done|].
    eapply List.Forall_impl; [|exact Hwr]. simpl. intros; lia.
  - exists t. split_and!; [done|done|].
    eapply List.Forall_impl; [|exact Ht]. simpl. intros; lia.
Qed.

End Shapes.


Section Totality.
Import Networks Agent MADDPG.
Open Scope nat_scope.

Lemma critic_row_Some width fc1 fc2 net x :
  critic_dims width fc1 fc2 net -> length x = width ->
  exists y, critic_row net x = Some y /\ length y = 1.
Proof.
  intros (H1 & H2 & H3) Hx. unfold critic_row.
  destruct (linear_row_Some _ _ _ _ H1 Hx) as (x1 & -> & L1).
  cbn [mbind option_bind].
  destruct (linear_row_Some _ _ _ (map relu x1) H2) as (x2 & -> & L2);
    [by rewrite length_map|].
  cbn [mbind option_bind].
  apply (linear_row_Some _ _ _ (map relu x2) H3). by rewrite length_map.
Qed.

Lemma critic_forward_Some width fc1 fc2 net rows
    (state action others_states others_actions : list (list R)) w1 w2 w3 w4 :
  critic_dims width fc1 fc2 net -> width = w1 + w2 + w3 + w4 ->
  length state = rows -> Forall (fun r => length r = w1) state ->
  length action = rows -> Forall (fun r => length r = w2) action ->
  length others_states = rows -> Forall (fun r => length r = w3) others_states ->
  length others_actions = rows -> Forall (fun r => length r = w4) others_actions ->
  exists cv, critic_forward net state action others_states others_actions = Some cv /\
             length cv = rows /\ Forall (fun r => length r = 1) cv.
Proof.
  intros Hd Hw L1 W1 L2 W2 L3 W3 L4 W4. unfold critic_forward.
  destruct (cat_dim1_Some [state; action; others_states; others_actions]
              [w1; w2; w3; w4] rows) as (inputs & -> & Hl & Hwi); [done| |].
  { repeat constructor; done. }
  cbn [mbind option_bind].
  destruct (mapM_Some_total (critic_row net)
              (fun row => length row = foldr plus 0 [w1; w2; w3; w4])
              (fun y => length y = 1) inputs Hwi) as (cv & -> & Hlc & Hwc).
  - intros x Hx. eapply critic_row_Some; [exact Hd|]. simpl in Hx. lia.
  - exists cv. split_and!; [done|lia|done].
Qed.

Lemma critic_target_Some g batch_size (reward : list R) (cv : list (list R)) :
  length reward = batch_size -> length cv = batch_size ->
  Forall (fun r => length r = 1) cv ->
  exists target, critic_target g batch_size reward cv = Some target.
Proof.
  intros Hr Hc Hw. unfold critic_target.
  destruct (mapM_Some_total
              (fun j => r ← reward !! j; q ← cv !! j;
                        Some (map (fun v => (r + g * v)%R) q))
              (fun j => j < batch_size) (fun t => length t = 1)
              (seq 0 batch_size)) as (raw & -> & _ & Hraw).
  - apply Forall_forall. intros j Hj. apply in_seq in Hj. lia.
  - intros j Hj.
    destruct (lookup_lt_is_Some_2 reward j) as [r ->]; [lia|].
    destruct (lookup_lt_is_Some_2 cv j) as [q Hq]; [lia|]. rewrite Hq.
    cbn [mbind option_bind]. eexists. split; [done|]. rewrite length_map.
    eapply Forall_lookup_1 in Hw; [|exact Hq]. done.
  - cbn [mbind option_bind].
    destruct (mapM_Some_total as_scalar (fun t => length t = 1) (fun _ => True)
                raw Hraw) as (scalars & -> & _).
    + intros [|x [|??]] Hx; try done. eauto.
    + eauto.
Qed.

Lemma others_forward_Some n_actions fc1 fc2 width (ags : list Agent) n idx
    (others_states : list (list R)) w :
  length ags = n -> 2 <= n -> idx < n -> n - 1 <= w ->
  Forall (agent_dims n_actions fc1 fc2 width) ags ->
  Forall (fun r => length r = w) others_states ->
  exists ota, others_forward ags n idx others_states = Some ota /\
              length ota = length others_states /\
              Forall (fun r => length r = n_actions * (n - 1)) ota.
Proof.
  intros Hlen Hn Hidx Hw Hags Hos. unfold others_forward.
  rewrite list_remove_seq by done. cbn [mbind option_bind].
  destruct (mapM_Some_total
    (fun i => other_state_column ← as_column <$> column others_states i;
              k ← map (other_agent idx) (seq 0 (n - 1)) !! i;
              other ← ags !! k;
              actor_forward (target_actor other) other_state_column)
    (fun i => i < n - 1)
    (fun t => length t = length others_states /\
              Forall (fun r => length r = n_actions) t)
    (seq 0 (n - 1))) as (tal & -> & Hlt & Ht).
  - apply Forall_forall. intros j Hj. apply in_seq in Hj. lia.
  - intros k Hk.
    destruct (column_Some others_states w k Hos) as (col & -> & Hcol); [lia|].
    cbn [fmap option_fmap option_map mbind option_bind].
    change (map (other_agent idx) (seq 0 (n - 1)))
      with (other_agent idx <$> seq 0 (n - 1)).
    rewrite list_lookup_fmap, lookup_seq_lt by done.
    cbn [fmap option_fmap option_map mbind option_bind plus].
    destruct (lookup_lt_is_Some_2 ags (other_agent idx k)) as [other Hother].
    { unfold other_agent. destruct (k <? idx); lia. }
    rewrite Hother. cbn [mbind option_bind].
    eapply Forall_lookup_1 in Hags; [|exact Hother].
    destruct Hags as (_ & Hta & _).
    destruct (actor_forward_Some _ _ _ _ _ (as_column col) Hta)
      as (t & -> & Hl & Hwt).
    { unfold as_column. apply List.Forall_map, Forall_true. done. }
    exists t. split; [done|]. split; [|done].
    rewrite Hl. unfold as_column. rewrite length_map. done.
  - cbn [mbind option_bind].
    rewrite length_seq in Hlt.
    destruct (cat_dim1_Some tal (replicate (n - 1) n_actions) (length others_states))
      as (r & -> & Hlr & Hwr).
    + destruct tal; [simpl in Hlt; lia|done].
    + apply Forall2_same_length_lookup. split; [by rewrite length_replicate|].
      intros i t w' Hi Hw'. apply lookup_replicate in Hw' as [-> _].
      by eapply Forall_lookup_1 in Ht.
    + rewrite foldr_plus_replicate in Hwr. eauto.
Qed.

Lemma linear_dims_same_shape i o l l' :
  linear_dims i o l -> linear_dims i o l' ->
  Forall2 same_shape (linear_parameters l) (linear_parameters l').
Proof.
  intros (I & O & W & R & B) (I' & O' & W' & R' & B').
  repeat constructor.
  - simpl. apply Forall2_same_length_lookup. split; [lia|].
    intros k r r' Hr Hr'.
    eapply Forall_lookup_1 in R; [|exact Hr].
    eapply Forall_lookup_1 in R'; [|exact Hr']. simpl in *. lia.
  - simpl. lia.
Qed.

Lemma agent_dims_twin_shapes n_actions fc1 fc2 width a :
  agent_dims n_actions fc1 fc2 width a -> twin_shapes a.
Proof.
  intros ((A1 & A2 & A3) & (T1 & T2 & T3) & (C1 & C2 & C3) & (D1 & D2 & D3)).
  split.
  - unfold critic_parameters. repeat apply Forall2_app;
      eapply linear_dims_same_shape; done.
  - unfold actor_parameters. repeat apply Forall2_app;
      eapply linear_dims_same_shape; done.
Qed.

Lemma blend_linear_dims f i o t l :
  linear_dims i o t -> linear_dims i o l ->
  linear_dims i o (with_data t (zip_with (zip_with f) (weight t) (weight l))
                               (zip_with f (bias t) (bias l))).
Proof.
  intros (I & O & W & R & B) (I' & O' & W' & R' & B').
  unfold linear_dims, linear_shape; simpl. split_and!; try done.
  - rewrite length_zip_with. lia.
  - apply Forall_forall. intros r Hr.
    apply list_elem_of_In, elem_of_lookup_zip_with in Hr as (k & x & y & -> & Hx & Hy).
    eapply Forall_lookup_1 in R; [|exact Hx].
    eapply Forall_lookup_1 in R'; [|exact Hy].
    rewrite length_zip_with. simpl in *. lia.
  - rewrite length_zip_with. lia.
Qed.

(** The soft update keeps the shapes of an agent. *)
Lemma update_network_parameters_dims n_actions fc1 fc2 width a tau' :
  agent_dims n_actions fc1 fc2 width a ->
  exists a', update_network_parameters a tau' = Some a' /\
             agent_dims n_actions fc1 fc2 width a'.
Proof.
  intros Hd. destruct (agent_dims_twin_shapes _ _ _ _ _ Hd) as [Hc Ha].
  destruct Hd as ((A1 & A2 & A3) & (T1 & T2 & T3) & (C1 & C2 & C3) & (D1 & D2 & D3)).
  unfold update_network_parameters.
  rewrite (soft_update_Some _ _ _ Hc). cbn [mbind option_bind].
  change (critic_copy_ (target_critic a) _) with
    (Some {| c_fc1 := with_data (c_fc1 (target_critic a))
               (zip_with (zip_with (blend (default (tau a) tau')))
                  (weight (c_fc1 (target_critic a))) (weight (c_fc1 (critic a))))
               (zip_with (blend (default (tau a) tau'))
                  (bias (c_fc1 (target_critic a))) (bias (c_fc1 (critic a))));
             c_fc2 := with_data (c_fc2 (target_critic a))
               (zip_with (zip_with (blend (default (tau a) tau')))
                  (weight (c_fc2 (target_critic a))) (weight (c_fc2 (critic a))))
               (zip_with (blend (default (tau a) tau'))
                  (bias (c_fc2 (target_critic a))) (bias (c_fc2 (critic a))));
             c_q := with_data (c_q (target_critic a))
               (zip_with (zip_with (blend (default (tau a) tau')))
                  (weight (c_q (target_critic a))) (weight (c_q (critic a))))
               (zip_with (blend (default (tau a) tau'))
                  (bias (c_q (target_critic a))) (bias (c_q (critic a)))) |}).
  cbn [mbind option_bind].
  rewrite (soft_update_Some _ _ _ Ha). cbn [mbind option_bind].
  change (actor_copy_ (target_actor a) _) with
    (Some {| a_fc1 := with_data (a_fc1 (target_actor a))
               (zip_with (zip_with (blend (default (tau a) tau')))
                  (weight (a_fc1 (target_actor a))) (weight (a_fc1 (actor a))))
               (zip_with (blend (default (tau a) tau'))
                  (bias (a_fc1 (target_actor a))) (bias (a_fc1 (actor a))));
             a_fc2 := with_data (a_fc2 (target_actor a))
               (zip_with (zip_with (blend (default (tau a) tau')))
                  (weight (a_fc2 (target_actor a))) (weight (a_fc2 (actor a))))
               (zip_with (blend (default (tau a) tau'))
                  (bias (a_fc2 (target_actor a))) (bias (a_fc2 (actor a))));
             a_mu := with_data (a_mu (target_actor a))
               (zip_with (zip_with (blend (default (tau a) tau')))
                  (weight (a_mu (target_actor a))) (weight (a_mu (actor a))))
               (zip_with (blend (default (tau a) tau'))
                  (bias (a_mu (target_actor a))) (bias (a_mu (actor a)))) |}).
  cbn [mbind option_bind]. eexists. split; [done|].
  unfold agent_dims, actor_dims, critic_dims; simpl.
  split_and!; try done; by apply blend_linear_dims.
Qed.

End Totality.


Section LearnTotal.
Import Networks Agent MADDPG.
Open Scope nat_scope.

Variable critic_step :
  CriticNetwork -> list (list R) ->
  list (list R) -> list (list R) -> list (list R) -> list (list R) ->
  CriticNetwork.
Variable actor_step :
  ActorNetwork -> CriticNetwork ->
  list (list R) -> list (list R) -> list (list R) -> ActorNetwork.
Hypothesis steps_ok : steps_keep_dims critic_step actor_step.


(** A pass on a well-shaped batch runs to its end and keeps the shapes. *)
Lemma learn_pass_Some n_actions fc1 fc2 self mem idx flag num_tiles batch sampled :
  coordinator_dims n_actions fc1 fc2
    (critic_width n_actions (num_agents self) flag num_tiles) self ->
  idx < num_agents self -> (flag = true -> 1 <= num_tiles) ->
  Buffer.sample_buffer mem batch = Some sampled ->
  batch_dims n_actions (num_agents self) (batch_size self) sampled ->
  exists self' log,
    MADDPG.learn_pass critic_step actor_step self mem idx flag num_tiles batch = Some (self', log) /\
    coordinator_dims n_actions fc1 fc2
      (critic_width n_actions (num_agents self) flag num_tiles) self'.
Proof.
  intros (Hlen & Hn & Hna & Hags) Hidx Hnt Hs
         ((L1 & L2 & L3 & L4 & L5) & W1 & W2 & W3 & W4).
  destruct steps_ok as [Hcs Has].
  set (n := num_agents self) in *. set (e := tiles flag num_tiles).
  assert (1 <= n_actions * (n - 1)) as Hpos by nia.
  unfold MADDPG.learn_pass.
  destruct (lookup_lt_is_Some_2 (agents self) idx) as [agent Hagent]; [lia|].
  rewrite Hagent, Hs. cbn [mbind option_bind]. cbv zeta.
  pose proof Hags as Hag. eapply Forall_lookup_1 in Hag; [|exact Hagent].
  destruct Hag as (Da & Dta & Dc & Dtc).
  destruct (np_tile_Some flag num_tiles _ _ W3) as (os & -> & Los & Wos); [lia|].
  cbn [mbind option_bind].
  destruct (np_tile_Some flag num_tiles _ _ W4) as (oa & -> & Loa & Woa); [lia|].
  cbn [mbind option_bind].
  destruct (actor_forward_Some _ _ _ _ _ _ Dta W1) as (ta & -> & Lta & Wta).
  cbn [mbind option_bind].
  destruct (others_forward_Some n_actions fc1 fc2 _ (agents self) n idx os
              (n - 1 + tiles flag num_tiles)
              Hlen Hn Hidx ltac:(lia) Hags Wos) as (ota & Hota & Lota & Wota).
  fold n. rewrite Hota. cbn [mbind option_bind].
  destruct (torch_tile_Some flag num_tiles _ _ Wota) as (ota' & Hota' & Lota' & Wota');
    [intros; split; [lia|by apply Hnt]|].
  rewrite Hota'. cbn [mbind option_bind].
  destruct (critic_forward_Some _ _ _ _ (batch_size self) (Buffer.b_states sampled)
              ta os ota' _ _ _ _ Dtc eq_refl) as (cv_ & -> & Lcv_ & Wcv_);
    try done; try lia.
  cbn [mbind option_bind].
  destruct (critic_forward_Some _ _ _ _ (batch_size self) (Buffer.b_states sampled)
              (Buffer.b_actions sampled) os oa _ _ _ _ Dc eq_refl)
    as (cv & -> & Lcv & Wcv); try done; try lia.
  cbn [mbind option_bind].
  destruct (critic_target_Some (gamma self) (batch_size self)
              (Buffer.b_rewards sampled) cv_ L3 Lcv_ Wcv_) as (target & ->).
  cbn [mbind option_bind].
  destruct (actor_forward_Some _ _ _ _ _ _ Da W1) as (mu & -> & Lmu & Wmu).
  cbn [mbind option_bind].
  match goal with
  | |- context [critic_forward ?c (Buffer.b_states sampled) mu os ota'] =>
      destruct (critic_forward_Some _ _ _ c (batch_size self)
                  (Buffer.b_states sampled) mu os ota' _ _ _ _
                  ltac:(apply Hcs; exact Dc) eq_refl)
        as (loss & -> & _); try done; try lia
  end.
  cbn [mbind option_bind].
  match goal with
  | |- context [update_network_parameters ?a None] =>
      destruct (update_network_parameters_dims n_actions fc1 fc2
                  (critic_width n_actions n flag num_tiles) a None)
        as (agent' & -> & Dagent')
  end.
  { unfold agent_dims; simpl. split_and!; try done; [by apply Has|by apply Hcs]. }
  cbn [mbind option_bind]. eexists _, _. split; [done|].
  unfold coordinator_dims; simpl. fold n.
  split_and!; try done; [by rewrite length_insert|].
  by apply Forall_insert.
Qed.

(** When both gates pass and both draws yield well-shaped batches, [learn]
    runs both passes. *)
Lemma learn_Some n_actions fc1 fc2 self idx flag num_tiles
    batch_long batch_short sampled_long sampled_short :
  coordinator_dims n_actions fc1 fc2
    (critic_width n_actions (num_agents self) flag num_tiles) self ->
  idx < num_agents self -> (flag = true -> 1 <= num_tiles) ->
  batch_size self <= Buffer.mem_cntr (memory self) ->
  batch_size self <= Buffer.mem_cntr (short_memory self) ->
  Buffer.sample_buffer (memory self) batch_long = Some sampled_long ->
  batch_dims n_actions (num_agents self) (batch_size self) sampled_long ->
  Buffer.sample_buffer (short_memory self) batch_short = Some sampled_short ->
  batch_dims n_actions (num_agents self) (batch_size self) sampled_short ->
  exists self' long short,
    MADDPG.learn critic_step actor_step self idx flag num_tiles batch_long batch_short
      = Some (self', [long; short]) /\
    log_batch long = sampled_long /\ log_batch short = sampled_short.
Proof.
  intros Hd Hidx Hnt Hgl Hgs Hsl Hdl Hss Hds. unfold MADDPG.learn.
  destruct (Nat.ltb_spec (Buffer.mem_cntr (memory self)) (batch_size self)); [lia|].
  destruct (learn_pass_Some _ _ _ _ _ _ _ _ _ _ Hd Hidx Hnt Hsl Hdl)
    as (self1 & long & H1 & Hd1).
  rewrite H1. cbn [mbind option_bind].
  destruct (learn_pass_inv _ _ _ _ _ _ _ _ _ _ H1)
    as (_ & _ & _ & Hb1 & _ & _ & _ & _ & _ & _ & Em & Es & Eb & En & _).
  rewrite Es, Eb.
  destruct (Nat.ltb_spec (Buffer.mem_cntr (short_memory self)) (batch_size self)); [lia|].
  rewrite <- En in Hd1, Hidx, Hds. rewrite <- Eb in Hds.
  destruct (learn_pass_Some _ _ _ _ (short_memory self) _ _ _ _ _ Hd1 Hidx Hnt Hss Hds)
    as (self2 & short & H2 & _).
  rewrite H2. cbn [mbind option_bind].
  destruct (learn_pass_inv _ _ _ _ _ _ _ _ _ _ H2) as (_ & _ & _ & Hb2 & _).
  exists self2, long, short. split; [done|]. split; congruence.
Qed.

End LearnTotal.


Section Reachable.
Import Networks Agent MADDPG.
Open Scope nat_scope.

Lemma coordinator_init_Some new_agents g BS input_dims n_actions n_agents :
  0 < n_agents ->
  exists self0,
    MADDPG.__init__ new_agents g BS input_dims n_actions n_agents = Some self0.
Proof.
  intros Hn. unfold MADDPG.__init__, Buffer.__init__.
  destruct n_agents as [|n]; [lia|]. cbn [Nat.eqb andb mbind option_bind].
  eexists. reflexivity.
Qed.

Lemma init_buffer_dims max_size n_actions n_agents b :
  Buffer.__init__ 0%R max_size 1 n_actions n_agents = Some b ->
  buffer_dims n_actions n_agents b.
Proof.
  unfold Buffer.__init__. case_match; [done|]. intros [= <-].
  unfold buffer_dims; simpl.
  split_and!; apply Forall_replicate; rewrite ?length_replicate; simpl; lia.
Qed.

Lemma buffer_dims_row_widths n_actions n_agents b :
  buffer_dims n_actions n_agents b <-> Buffer.row_widths 1 n_actions n_agents b.
Proof.
  unfold buffer_dims, Buffer.row_widths. by rewrite Nat.mul_1_l.
Qed.

Lemma transition_dims_exact n_actions n_agents t :
  transition_dims n_actions n_agents t <-> Buffer.exact 1 n_actions n_agents t.
Proof.
  unfold transition_dims, Buffer.exact. by rewrite Nat.mul_1_l.
Qed.

Lemma gather_dims {B} (P : B -> Prop) (arr : list B) n batch_size batch :
  Forall P arr -> random_choice n batch_size batch -> n <= length arr ->
  exists k, gather arr batch = Some k /\ length k = batch_size /\ Forall P k.
Proof.
  intros HP [Hl Hb] Hn.
  destruct (gather_Some arr batch) as (k & Hk & Hlk & Hin).
  { eapply List.Forall_impl; [|exact Hb]. simpl. intros; lia. }
  exists k. split_and!; [done|lia|].
  eapply List.Forall_impl; [|exact Hin]. intros x Hx.
  rewrite List.Forall_forall in HP. by apply HP.
Qed.

(** A valid draw from a well-shaped store yields a well-shaped batch. *)
Lemma sample_buffer_dims n_actions n_agents b batch_size batch :
  Buffer.wf b -> buffer_dims n_actions n_agents b ->
  random_choice (Buffer.max_mem b) batch_size batch ->
  exists sampled, Buffer.sample_buffer b batch = Some sampled /\
                  batch_dims n_actions n_agents batch_size sampled.
Proof.
  intros (W1 & W2 & W3 & W4 & W5) (B1 & B2 & B3 & B4) Hc.
  assert (Buffer.max_mem b <= Buffer.mem_size b) as Hm
    by (unfold Buffer.max_mem; lia).
  unfold Buffer.sample_buffer.
  destruct (gather_dims _ (Buffer.state_memory b) _ _ _ B1 Hc ltac:(lia))
    as (s & -> & Ls & Ws).
  destruct (gather_dims _ (Buffer.action_memory b) _ _ _ B2 Hc ltac:(lia))
    as (a & -> & La & Wa).
  destruct (gather_dims (fun _ => True) (Buffer.reward_memory b) _ _ _
              ltac:(by apply Forall_true) Hc ltac:(lia)) as (r & -> & Lr & _).
  destruct (gather_dims _ (Buffer.others_states b) _ _ _ B3 Hc ltac:(lia))
    as (os & -> & Los & Wos).
  destruct (gather_dims _ (Buffer.others_actions b) _ _ _ B4 Hc ltac:(lia))
    as (oa & -> & Loa & Woa).
  cbn [mbind option_bind]. eexists. split; [done|].
  unfold batch_dims; simpl. done.
Qed.

End Reachable.

Section ReachableLearn.
Import Networks Agent MADDPG.
Open Scope nat_scope.

Variable critic_step :
  CriticNetwork -> list (list R) ->
  list (list R) -> list (list R) -> list (list R) -> list (list R) ->
  CriticNetwork.
Variable actor_step :
  ActorNetwork -> CriticNetwork ->
  list (list R) -> list (list R) -> list (list R) -> ActorNetwork.


(** What [learn] returns: nothing ran, the long pass ran, or both ran. *)
Lemma learn_inv self idx flag num_tiles batch_long batch_short out :
  MADDPG.learn critic_step actor_step self idx flag num_tiles batch_long batch_short = Some out ->
  (Buffer.mem_cntr (memory self) < batch_size self /\ out = (self, [])) \/
  exists self1 long,
    batch_size self <= Buffer.mem_cntr (memory self) /\
    MADDPG.learn_pass critic_step actor_step self (memory self) idx flag num_tiles batch_long
      = Some (self1, long) /\
    ((Buffer.mem_cntr (short_memory self) < batch_size self /\
      out = (self1, [long])) \/
     exists self2 short,
       batch_size self <= Buffer.mem_cntr (short_memory self) /\
       MADDPG.learn_pass critic_step actor_step self1 (short_memory self) idx flag num_tiles batch_short
         = Some (self2, short) /\
       out = (self2, [long; short])).
Proof.
  unfold MADDPG.learn.
  destruct (Nat.ltb_spec (Buffer.mem_cntr (memory self)) (batch_size self));
    [intros [= <-]; by left|].
  intros Hl. right.
  destruct (MADDPG.learn_pass critic_step actor_step self (memory self) idx flag num_tiles batch_long)
    as [[self1 long]|] eqn:E1; [|done].
  cbn [mbind option_bind] in Hl. exists self1, long. split_and!; [done|done|].
  destruct (learn_pass_inv _ _ _ _ _ _ _ _ _ _ E1)
    as (_ & _ & _ & _ & _ & _ & _ & _ & _ & _ & _ & Es & Eb & _).
  rewrite Es, Eb in Hl.
  destruct (Nat.ltb_spec (Buffer.mem_cntr (short_memory self)) (batch_size self));
    [left; split; [done|congruence]|].
  right.
  destruct (MADDPG.learn_pass critic_step actor_step self1 (short_memory self) idx flag num_tiles batch_short)
    as [[self2 short]|]; [|done].
  cbn [mbind option_bind] in Hl. exists self2, short. split_and!; congruence.
Qed.

(** On a fresh coordinator for one-entry observations that remembered
    well-shaped transitions, any two valid draws make [learn] run both
    passes once [batch_size] transitions are there. *)
Lemma learn_fresh_Some new_agents g BS n_actions n_agents self0 ts self
    fc1 fc2 idx flag num_tiles batch_long batch_short :
  steps_keep_dims critic_step actor_step ->
  MADDPG.__init__ new_agents g BS 1 n_actions n_agents = Some self0 ->
  remember_all self0 ts = Some self ->
  Forall (transition_dims n_actions n_agents) ts ->
  length new_agents = n_agents -> 2 <= n_agents -> 1 <= n_actions ->
  Forall (agent_dims n_actions fc1 fc2
            (critic_width n_actions n_agents flag num_tiles)) new_agents ->
  idx < n_agents -> (flag = true -> 1 <= num_tiles) ->
  BS <= length ts ->
  random_choice (Buffer.max_mem (memory self)) BS batch_long ->
  random_choice (Buffer.max_mem (short_memory self)) BS batch_short ->
  exists self' long short,
    MADDPG.learn critic_step actor_step self idx flag num_tiles batch_long batch_short
      = Some (self', [long; short]) /\
    Buffer.sample_buffer (memory self) batch_long = Some (log_batch long) /\
    Buffer.sample_buffer (short_memory self) batch_short = Some (log_batch short).
Proof.
  intros Hsteps Hi Hr Hts Hlen Hn Hna Hags Hidx Hnt Hbs Hcl Hcs.
  destruct (remember_all_stores _ _ _ _ _ _ _ _ _ Hi Hr)
    as (Ea & En & Eb & Eg & Cm & Cs & Sm & Ss & Wm & Ws & _ & _ & Dm & Ds & _).
  apply buffer_dims_row_widths in Dm, Ds.
  destruct (sample_buffer_dims _ _ _ _ _ Wm Dm Hcl) as (sl & Hsl & Hdl).
  destruct (sample_buffer_dims _ _ _ _ _ Ws Ds Hcs) as (ss & Hss & Hds).
  destruct (learn_Some critic_step actor_step Hsteps n_actions fc1 fc2 self idx
              flag num_tiles batch_long batch_short sl ss)
    as (self' & long & short & Hl & <- & <-); try (rewrite ?En, ?Eb; done || lia).
  - unfold coordinator_dims. rewrite Ea, En. done.
  - exists self', long, short. done.
Qed.

End ReachableLearn.


Section Gates.
Import Networks Agent MADDPG.
Open Scope nat_scope.

Variable critic_step :
  CriticNetwork -> list (list R) ->
  list (list R) -> list (list R) -> list (list R) -> list (list R) ->
  CriticNetwork.
Variable actor_step :
  ActorNetwork -> CriticNetwork ->
  list (list R) -> list (list R) -> list (list R) -> ActorNetwork.


(** C1 (amended).  The counter of the capacity-1 short store is not capped
    at 1: after [K] remembered transitions it is [K], like the counter of
    the long store.  Hence, for every [batch_size], [learn] skips both
    passes while [K < batch_size]; once [K >= batch_size] the short gate
    [counter >= batch_size] holds and a [learn] that returns has run the
    short-horizon pass after the long-horizon one; and it does return, with
    both passes run, on a well-shaped coordinator for one-entry observations
    with valid draws and shape-preserving optimiser steps. *)
Theorem short_pass_follows_counter
    new_agents g BS input_dims n_actions n_agents self0 ts self :
  MADDPG.__init__ new_agents g BS input_dims n_actions n_agents = Some self0 ->
  remember_all self0 ts = Some self ->
  Buffer.mem_size (short_memory self) = 1 /\
  Buffer.mem_cntr (short_memory self) = length ts /\
  Buffer.mem_cntr (memory self) = length ts /\
  ((Buffer.mem_cntr (short_memory self) <? batch_size self) = false
     <-> BS <= length ts) /\
  (length ts < BS ->
     forall idx flag num_tiles batch_long batch_short,
       MADDPG.learn critic_step actor_step self idx flag num_tiles batch_long batch_short = Some (self, [])) /\
  (BS <= length ts ->
     forall idx flag num_tiles batch_long batch_short out,
       MADDPG.learn critic_step actor_step self idx flag num_tiles batch_long batch_short = Some out ->
       exists long short, out.2 = [long; short]) /\
  (BS <= length ts ->
     forall fc1 fc2 idx flag num_tiles batch_long batch_short,
       input_dims = 1 ->
       steps_keep_dims critic_step actor_step ->
       Forall (transition_dims n_actions n_agents) ts ->
       length new_agents = n_agents -> 2 <= n_agents -> 1 <= n_actions ->
       Forall (agent_dims n_actions fc1 fc2
                 (critic_width n_actions n_agents flag num_tiles)) new_agents ->
       idx < n_agents -> (flag = true -> 1 <= num_tiles) ->
       random_choice (Buffer.max_mem (memory self)) BS batch_long ->
       random_choice (Buffer.max_mem (short_memory self)) BS batch_short ->
       exists self' long short,
         MADDPG.learn critic_step actor_step self idx flag num_tiles batch_long batch_short
           = Some (self', [long; short])).
Proof.
  intros Hi Hr.
  destruct (remember_all_stores _ _ _ _ _ _ _ _ _ Hi Hr)
    as (Ea & En & Eb & Eg & Cm & Cs & Sm & Ss & _).
  split_and!; try done.
  - rewrite Cs, Eb. destruct (Nat.ltb_spec (length ts) BS); split; (done || lia).
  - intros Hlt idx flag num_tiles batch_long batch_short. unfold MADDPG.learn.
    rewrite Cm, Eb. destruct (Nat.ltb_spec (length ts) BS); [done|lia].
  - intros Hle idx flag num_tiles batch_long batch_short out Hl.
    destruct (learn_inv _ _ _ _ _ _ _ _ _ Hl)
      as [[Hlt _]|(self1 & long & _ & _ & [[Hlt _]|(self2 & short & _ & _ & ->)])];
      [lia|lia|]. eauto.
  - intros Hle fc1 fc2 idx flag num_tiles batch_long batch_short -> Hsteps Hts
           Hlen Hn Hna Hags Hidx Hnt Hcl Hcs.
    destruct (learn_fresh_Some critic_step actor_step _ _ _ _ _ _ _ _ fc1 fc2
                idx flag num_tiles batch_long batch_short Hsteps Hi Hr Hts Hlen
                Hn Hna Hags Hidx Hnt Hle Hcl Hcs)
      as (self' & long & short & Hl & _). eauto.
Qed.

(** C10.  On a coordinator that has remembered at least one transition, the
    last being [t]: the short store offers one row to
    [np.random.choice], every valid draw for the short-horizon pass is
    [batch_size] times index 0, [sample_buffer] returns [batch_size] copies
    of [t] as the store holds it, and whenever [learn] runs the
    short-horizon pass, that pass works on these copies.  The store holds
    [t] itself when the sequences of [t] have the widths of the store's
    rows; a one-entry sequence is repeated along a wider row. *)
Theorem short_pass_batch
    new_agents g BS input_dims n_actions n_agents self0 ts t self batch_short :
  MADDPG.__init__ new_agents g BS input_dims n_actions n_agents = Some self0 ->
  remember_all self0 (ts ++ [t]) = Some self ->
  random_choice (Buffer.max_mem (short_memory self)) BS batch_short ->
  let t' := Buffer.as_stored input_dims n_actions n_agents t in
  (Buffer.exact input_dims n_actions n_agents t -> t' = t) /\
  Buffer.max_mem (short_memory self) = 1 /\
  batch_short = replicate BS 0 /\
  Buffer.sample_buffer (short_memory self) batch_short
    = Some (Buffer.batch_of (replicate BS t')) /\
  forall idx flag num_tiles batch_long self' long short,
    MADDPG.learn critic_step actor_step self idx flag num_tiles batch_long batch_short
      = Some (self', [long; short]) ->
    BS <= Buffer.mem_cntr (short_memory self) /\
    log_batch short = Buffer.batch_of (replicate BS t').
Proof.
  intros Hi Hr Hc t'.
  destruct (remember_all_stores _ _ _ _ _ _ _ _ _ Hi Hr)
    as (Ea & En & Eb & Eg & Cm & Cs & Sm & Ss & Wm & Ws & _ & Hlast & _).
  destruct (Hlast ts t eq_refl) as (M1 & M2 & M3 & M4 & M5). fold t' in M1, M2, M3, M4, M5.
  assert (Buffer.max_mem (short_memory self) = 1) as Hmax.
  { unfold Buffer.max_mem. rewrite Cs, Ss, length_app. simpl. lia. }
  rewrite Hmax in Hc.
  destruct (sample_buffer_one_row _ t' BS batch_short M1 M2 M3 M4 M5 Hc) as [Hb Hs].
  split_and!; try done; [apply as_stored_exact|].
  intros idx flag num_tiles batch_long self' long short Hl.
  destruct (learn_inv _ _ _ _ _ _ _ _ _ Hl)
    as [[_ [=]]|(self1 & long' & _ & _ & [[_ [=]]|(self2 & short' & Hg & H2 & E)])].
  injection E as _ _ <-.
  destruct (learn_pass_inv _ _ _ _ _ _ _ _ _ _ H2) as (_ & _ & _ & Hsb & _).
  rewrite Eb in Hg. split; [done|]. congruence.
Qed.

End Gates.


(** ** The example game *)

Section ExampleRun.
Import Networks Agent MADDPG ExampleNets ExampleGame.
Open Scope nat_scope.

Lemma steps0_keep_dims : steps_keep_dims critic_step0 actor_step0.
Proof. split; intros; assumption. Qed.

Lemma const_layer_dims i w b : linear_dims i 1 (const_layer i w b).
Proof.
  unfold linear_dims, linear_shape, const_layer; simpl.
  split_and!; try done. repeat constructor. apply length_replicate.
Qed.

Lemma agent0_dims : agent_dims 1 1 1 4 agent0.
Proof.
  unfold agent_dims, actor_dims, critic_dims; simpl.
  split_and!; apply const_layer_dims.
Qed.

Lemma transitions_dims : Forall (transition_dims 1 2) [tr1; tr2].
Proof. repeat constructor. Qed.

Lemma transitions_storable : Forall (Buffer.storable 1 1 2) [tr1; tr2].
Proof.
  eapply List.Forall_impl; [|exact transitions_dims].
  intros t Ht. by apply exact_storable, transition_dims_exact.
Qed.

(** The example coordinator exists, and so does its state after the two
    [remember] calls. *)
Lemma coordinator2_facts :
  exists self0 self,
    MADDPG.__init__ [agent0; agent0] 0.99%R 2 1 1 2 = Some self0 /\
    remember_all self0 ([tr1] ++ [tr2]) = Some self /\
    coordinator2 = Some self /\
    Buffer.max_mem (memory self) = 2 /\
    Buffer.max_mem (short_memory self) = 1.
Proof.
  destruct (coordinator_init_Some [agent0; agent0] 0.99%R 2 1 1 2) as [self0 Hi]; [lia|].
  destruct (remember_all_Some _ _ _ _ _ _ _ ([tr1] ++ [tr2]) Hi
              transitions_storable) as [self Hr].
  destruct (remember_all_stores _ _ _ _ _ _ _ _ _ Hi Hr)
    as (_ & _ & _ & _ & Cm & Cs & Sm' & Ss' & _).
  exists self0, self. split_and!; [done|done| | |].
  - unfold coordinator2, coordinator. rewrite Hi. exact Hr.
  - unfold Buffer.max_mem. rewrite Cm, Sm'. cbn [app length]. lia.
  - unfold Buffer.max_mem. rewrite Cs, Ss'. cbn [app length]. lia.
Qed.

Lemma draw_long_valid : random_choice 2 2 [0; 1].
Proof. split; [done|]. repeat constructor. Qed.

Lemma draw_short_valid : random_choice 1 2 [0; 0].
Proof. split; [done|]. repeat constructor. Qed.

(** One call of [learn] for agent 0 on the example runs both passes. *)
Lemma example_learn :
  exists self self1 self2 long short,
    coordinator2 = Some self /\ batch_size self = 2 /\
    learn_pass critic_step0 actor_step0 self (memory self) 0 false 3 [0; 1]
      = Some (self1, long) /\
    learn_pass critic_step0 actor_step0 self1 (short_memory self) 0 false 3 [0; 0]
      = Some (self2, short) /\
    learn critic_step0 actor_step0 self 0 false 3 [0; 1] [0; 0]
      = Some (self2, [long; short]).
Proof.
  destruct coordinator2_facts as (self0 & self & Hi & Hr & Hc & Ml & Ms).
  destruct (remember_all_stores _ _ _ _ _ _ _ _ _ Hi Hr) as (_ & _ & Eb & _).
  revert Hc.
  assert (Forall (agent_dims 1 1 1 (critic_width 1 2 false 3)) [agent0; agent0])
    as Hags by (repeat constructor; apply agent0_dims).
  assert (random_choice (Buffer.max_mem (memory self)) 2 [0; 1]) as Hcl
    by (rewrite Ml; exact draw_long_valid).
  assert (random_choice (Buffer.max_mem (short_memory self)) 2 [0; 0]) as Hcs
    by (rewrite Ms; exact draw_short_valid).
  destruct (learn_fresh_Some critic_step0 actor_step0 _ _ _ _ _ _ _ _ 1 1
              0 false 3 [0; 1] [0; 0] steps0_keep_dims Hi Hr transitions_dims
              eq_refl (le_n 2) (le_n 1) Hags (Nat.lt_0_succ 1)
              (fun _ => le_S 1 2 (le_S 1 1 (le_n 1))) (le_n 2) Hcl Hcs)
    as (self' & long & short & Hl & _).
  destruct (learn_inv _ _ _ _ _ _ _ _ _ Hl)
    as [[_ [=]]|(self1 & long' & _ & H1 & [[_ [=]]|(self2 & short' & _ & H2 & E)])].
  injection E as -> -> ->. intros Hc.
  exists self, self1, self2, long', short'.
  split_and!; [exact Hc|exact Eb|exact H1|exact H2|exact Hl].
Qed.

End ExampleRun.

(** C1, as stated, fails on the example: [batch_size = 2 > 1], two
    transitions remembered, and [learn] runs the short-horizon pass. *)
Lemma short_pass_runs_with_batch_size_2 :
  exists self self' long short,
    ExampleGame.coordinator2 = Some self /\
    (1 < MADDPG.batch_size self)%nat /\
    MADDPG.learn ExampleGame.critic_step0 ExampleGame.actor_step0
      self 0 false 3 [0; 1]%nat [0; 0]%nat = Some (self', [long; short]).
Proof.
  destruct example_learn as (self & self1 & self2 & long & short & Hc & Hb & _ & _ & Hl).
  exists self, self2, long, short.
  split_and!; [exact Hc| |exact Hl].
  rewrite Hb. exact (le_n 2).
Qed.

(** C1, witness: the counters of the example after two [remember]. *)
Lemma short_pass_follows_counter_witness :
  exists self,
    ExampleGame.coordinator2 = Some self /\
    Buffer.mem_cntr (MADDPG.short_memory self) = 2%nat.
Proof.
  destruct coordinator2_facts as (self0 & self & Hi & Hr & Hc & _).
  exists self. split; [exact Hc|].
  exact (proj1 (proj2 (short_pass_follows_counter
           ExampleGame.critic_step0 ExampleGame.actor_step0
           _ _ _ _ _ _ _ _ _ Hi Hr))).
Defined.

(** C10, witness: the short-horizon draw of the example. *)
Lemma short_pass_batch_witness :
  exists self,
    ExampleGame.coordinator2 = Some self /\
    Buffer.sample_buffer (MADDPG.short_memory self) [0; 0]%nat
      = Some (Buffer.batch_of [ExampleGame.tr2; ExampleGame.tr2]).
Proof.
  destruct coordinator2_facts as (self0 & self & Hi & Hr & Hc & _ & Ms).
  exists self. split; [exact Hc|].
  refine (proj1 (proj2 (proj2 (proj2 (short_pass_batch
           ExampleGame.critic_step0 ExampleGame.actor_step0
           _ _ 2%nat _ _ _ _ _ _ _ [0; 0]%nat Hi Hr _))))).
  rewrite Ms. exact draw_short_valid.
Defined.

(** C3, witness: the long-horizon pass of the example. *)
Lemma learn_target_is_bootstrap_witness :
  exists self self1 long agent,
    ExampleGame.coordinator2 = Some self /\
    MADDPG.learn_pass ExampleGame.critic_step0 ExampleGame.actor_step0
      self (MADDPG.memory self) 0 false 3 [0; 1]%nat = Some (self1, long) /\
    MADDPG.agents self !! 0%nat = Some agent /\
    forall j, (j < MADDPG.batch_size self)%nat ->
      MADDPG.bootstrap_target (MADDPG.gamma self) agent long j.
Proof.
  destruct example_learn as (self & self1 & self2 & long & short & Hc & Hb & H1 & _).
  destruct (learn_target_is_bootstrap _ _ _ _ _ _ _ _ _ _ H1)
    as ((agent & Ha & _ & _ & Ht) & _).
  exists self, self1, long, agent. split_and!; [exact Hc|exact H1|exact Ha|exact Ht].
Defined.

(** C5, witness: the long-horizon pass of the example. *)
Lemma learn_routes_columns_witness :
  exists self self1 long,
    ExampleGame.coordinator2 = Some self /\
    MADDPG.learn_pass ExampleGame.critic_step0 ExampleGame.actor_step0
      self (MADDPG.memory self) 0 false 3 [0; 1]%nat = Some (self1, long) /\
    (0 < MADDPG.num_agents self)%nat.
Proof.
  destruct example_learn as (self & self1 & self2 & long & short & Hc & Hb & H1 & _).
  exists self, self1, long. split_and!; [exact Hc|exact H1|].
  exact (proj1 (learn_routes_columns _ _ _ _ _ _ _ _ _ _ H1)).
Defined.


(** * Further properties *)

(** ** Replay buffer: contents of the ring *)

Section Ring.
Import Buffer.
Context {A : Type}.
Implicit Types (b : ReplayBuffer (A:=A)) (t : Transition (A:=A)).

Lemma last_write_bounds C K i :
  0 < C -> i < C -> i < K ->
  last_write C K i < K /\ K - C <= last_write C K i /\
  last_write C K i mod C = i.
Proof.
  intros HC Hi HK. unfold last_write.
  pose proof (Nat.div_mod_eq (K - 1 - i) C) as Hd.
  pose proof (Nat.mod_upper_bound (K - 1 - i) C ltac:(lia)) as Hm.
  split_and!; try lia.
  rewrite (Nat.mul_comm C), Nat.Div0.mod_add. by apply Nat.mod_small.
Qed.

Lemma last_write_here C K :
  0 < C -> last_write C (K + 1) (K mod C) = K.
Proof.
  intros HC. unfold last_write.
  pose proof (Nat.div_mod_eq K C) as Hd.
  pose proof (Nat.mod_upper_bound K C ltac:(lia)) as Hm.
  replace (K + 1 - 1 - K mod C) with (K / C * C) by lia.
  rewrite Nat.div_mul by lia. lia.
Qed.

Lemma last_write_elsewhere C K i :
  0 < C -> i < C -> i < K -> i <> K mod C ->
  last_write C (K + 1) i = last_write C K i.
Proof.
  intros HC Hi HK Hne. unfold last_write. f_equal. f_equal.
  replace (K + 1 - 1 - i) with (K - i) by lia.
  pose proof (Nat.div_mod_eq (K - 1 - i) C) as Hd.
  pose proof (Nat.mod_upper_bound (K - 1 - i) C ltac:(lia)) as Hm.
  symmetry. apply (Nat.div_unique _ _ _ ((K - 1 - i) mod C + 1)); [|lia].
  assert ((K - 1 - i) mod C + 1 <> C); [|lia].
  intros Heq. apply Hne.
  replace K with (i + ((K - 1 - i) / C + 1) * C) at 1 by nia.
  rewrite Nat.Div0.mod_add. symmetry. by apply Nat.mod_small.
Qed.

Lemma ring_of_write b0 ts b t :
  0 < mem_size b0 -> ring_of b0 ts b -> ring_of b0 (ts ++ [t]) (write b t).
Proof.
  intros HC (Hs & Hc & Hwf & Hrows).
  pose proof (write_wf _ t Hwf) as Hwf'.
  destruct Hwf as (W1 & W2 & W3 & W4 & W5).
  unfold ring_of. unfold write in *.
  cbn [mem_size mem_cntr state_memory action_memory
    reward_memory others_states others_actions] in *.
  rewrite length_app. cbn [length]. rewrite Hs, Hc. rewrite Hs, Hc in Hwf'.
  split_and!; [done|done|done|].
  set (C := mem_size b0) in *. set (K := length ts) in *.
  pose proof (Nat.mod_upper_bound K C ltac:(lia)) as Hm.
  intros i Hi. destruct (decide (i = K mod C)) as [->|Hne].
  - split; [intros _|].
    + exists t. rewrite last_write_here by done.
      rewrite lookup_app_r by done. replace (K - length ts) with 0 by (unfold K; lia).
      split; [done|].
      rewrite !list_lookup_insert_eq by lia. done.
    + intros Hle. assert (K mod C <= K) by (apply Nat.Div0.mod_le). lia.
  - rewrite !list_lookup_insert_ne by done.
    destruct (Hrows i Hi) as [Hold Hfresh]. split.
    + intros Hlt. assert (i < K) as HiK.
      { destruct (decide (i = K)) as [->|]; [|lia].
        exfalso. apply Hne. symmetry. by apply Nat.mod_small. }
      destruct (Hold HiK) as (t' & Ht' & Hr).
      exists t'. rewrite last_write_elsewhere by done.
      split; [|done]. rewrite lookup_app_l; [done|].
      by eapply lookup_lt_Some.
    + intros Hle. apply Hfresh. lia.
Qed.

Lemma ring_of_store_all input_shape n_actions num_agents b0 ts b :
  wf b0 -> row_widths input_shape n_actions num_agents b0 ->
  mem_cntr b0 = 0 -> 0 < mem_size b0 ->
  store_all b0 ts = Some b ->
  ring_of b0 (map (as_stored input_shape n_actions num_agents) ts) b.
Proof.
  intros Hwf Hr H0 HC. revert b. induction ts as [|t ts IH] using rev_ind; intros b.
  - simpl. intros [= <-]. unfold ring_of. split_and!; try done.
    intros i Hi. split; [simpl; lia|done].
  - rewrite store_all_snoc. intros H. bind_inv H.
    destruct (store_all_row_widths _ _ _ _ _ _ Hwf Hr E) as [Hr1 _].
    pose proof (store_all_wf _ _ _ Hwf E) as Hwf1.
    apply (store_spec input_shape n_actions num_agents) in H as (_ & _ & ->);
      [|done|done].
    rewrite map_app. apply ring_of_write; [done|by apply IH].
Qed.

Lemma map_as_stored_exact input_shape n_actions num_agents
    (ts : list (Transition (A:=A))) :
  Forall (exact input_shape n_actions num_agents) ts ->
  map (as_stored input_shape n_actions num_agents) ts = ts.
Proof.
  induction 1 as [|t ts Ht _ IH]; [done|]. simpl.
  by rewrite as_stored_exact, IH.
Qed.

End Ring.

Section RingTheorems.
Import Buffer.
Context {A : Type}.
Implicit Types (b : ReplayBuffer (A:=A)) (t : Transition (A:=A)).

(** X1.  After the stores [ts] into a fresh store of capacity [max_size],
    row [i] (for [i < max_size] and [i < K], [K] the number of stores) holds
    in all five arrays the transition number [last_write max_size K i]: the
    last one whose number is [i] modulo the capacity, which is one of the
    last [max_size] stored.  The row holds the transition as numpy wrote
    it: the transition itself when its sequences have the widths of the
    rows, a one-entry sequence being repeated along a wider row.  Rows that
    no store reached still hold the zeros of [__init__]. *)
Theorem store_all_ring_contents
    zero max_size input_shape n_actions num_agents b0 ts b i :
  __init__ zero max_size input_shape n_actions num_agents = Some b0 ->
  store_all b0 ts = Some b -> i < max_size ->
  (i < length ts ->
     last_write max_size (length ts) i < length ts /\
     length ts - max_size <= last_write max_size (length ts) i /\
     last_write max_size (length ts) i mod max_size = i /\
     exists t, ts !! last_write max_size (length ts) i = Some t /\
       let t' := as_stored input_shape n_actions num_agents t in
       (exact input_shape n_actions num_agents t -> t' = t) /\
       state_memory b !! i = Some (t_state t') /\
       action_memory b !! i = Some (t_action t') /\
       reward_memory b !! i = Some (t_reward t') /\
       others_states b !! i = Some (t_others_states t') /\
       others_actions b !! i = Some (t_others_actions t')) /\
  (length ts <= i ->
     state_memory b !! i = Some (replicate input_shape zero) /\
     action_memory b !! i = Some (replicate n_actions zero) /\
     reward_memory b !! i = Some zero /\
     others_states b !! i
       = Some (replicate (input_shape * (num_agents - 1)) zero) /\
     others_actions b !! i
       = Some (replicate (n_actions * (num_agents - 1)) zero)).
Proof.
  intros Hi Hs Hlt.
  destruct (init_wf _ _ _ _ _ _ Hi) as (Hwf & H0 & HC).
  destruct (ring_of_store_all _ _ _ b0 ts b Hwf (init_row_widths _ _ _ _ _ _ Hi)
              H0 ltac:(lia) Hs) as (_ & _ & _ & Hrows).
  destruct (Hrows i ltac:(lia)) as [Hold Hfresh].
  rewrite HC, length_map in Hold. rewrite length_map in Hfresh. split.
  - intros HK. destruct (last_write_bounds max_size (length ts) i) as (B1 & B2 & B3);
      try lia.
    split_and!; try done.
    destruct (Hold HK) as (t' & Ht' & Rows).
    change (map ?f ts) with (f <$> ts) in Ht'.
    apply list_lookup_fmap_Some in Ht' as (t & -> & Ht).
    exists t. split; [done|]. cbv zeta. split; [apply as_stored_exact|done].
  - intros Hle. destruct (Hfresh Hle) as (-> & -> & -> & -> & ->).
    unfold __init__ in Hi. case_match; [done|]. injection Hi as <-. simpl.
    rewrite !lookup_replicate_2 by done. done.
Qed.

(** X2.  On a fresh store that received the stores [ts], [sample_buffer]
    with a draw of [np.random.choice(min(mem_cntr, mem_size), batch_size)]
    never fails, returns [batch_size] rows in every array, and row [j] of
    the five arrays is one and the same stored transition, taken among the
    last [max_size] stored, as numpy wrote it (the transition itself when
    its sequences have the widths of the rows). *)
Theorem sample_buffer_recent_window
    zero max_size input_shape n_actions num_agents b0 ts b batch_size batch :
  __init__ zero max_size input_shape n_actions num_agents = Some b0 ->
  store_all b0 ts = Some b ->
  random_choice (max_mem b) batch_size batch ->
  exists sampled,
    sample_buffer b batch = Some sampled /\
    length (b_states sampled) = batch_size /\
    length (b_actions sampled) = batch_size /\
    length (b_rewards sampled) = batch_size /\
    length (b_others_states sampled) = batch_size /\
    length (b_others_actions sampled) = batch_size /\
    forall j, j < batch_size ->
      exists p t,
        length ts - max_size <= p < length ts /\ ts !! p = Some t /\
        let t' := as_stored input_shape n_actions num_agents t in
        (exact input_shape n_actions num_agents t -> t' = t) /\
        b_states sampled !! j = Some (t_state t') /\
        b_actions sampled !! j = Some (t_action t') /\
        b_rewards sampled !! j = Some (t_reward t') /\
        b_others_states sampled !! j = Some (t_others_states t') /\
        b_others_actions sampled !! j = Some (t_others_actions t').
Proof.
  intros Hi Hs [Hlen Hall].
  destruct (init_wf _ _ _ _ _ _ Hi) as (Hwf0 & H0 & HC).
  pose proof (store_all_wf _ _ _ Hwf0 Hs) as (W1 & W2 & W3 & W4 & W5).
  assert (mem_size b = max_size /\ mem_cntr b = length ts) as [HCb HKb].
  { destruct (store_all_inv _ _ _ Hs). lia. }
  assert (Forall (fun i => i < max_size /\ i < length ts) batch) as Hall'.
  { eapply List.Forall_impl; [|exact Hall]. unfold max_mem. simpl. lia. }
  assert (forall {B} (arr : list B), length arr = mem_size b ->
            exists k, gather arr batch = Some k /\ length k = batch_size /\
                      forall j i, batch !! j = Some i -> k !! j = arr !! i) as Hg.
  { intros B arr Harr. destruct (gather_Some arr batch) as (k & Hk & Hlk & _).
    { eapply List.Forall_impl; [|exact Hall']. simpl. lia. }
    exists k. split_and!; [done|lia|].
    intros j i Hj. destruct (mapM_lookup _ _ _ _ _ Hk Hj) as (y & -> & Hy). done. }
  unfold sample_buffer.
  destruct (Hg _ _ W1) as (s & -> & Ls & Gs).
  destruct (Hg _ _ W2) as (a & -> & La & Ga).
  destruct (Hg _ _ W3) as (r & -> & Lr & Gr).
  destruct (Hg _ _ W4) as (os & -> & Los & Gos).
  destruct (Hg _ _ W5) as (oa & -> & Loa & Goa).
  cbn [mbind option_bind]. eexists. split; [done|].
  cbn [b_states b_actions b_rewards b_others_states b_others_actions].
  split_and!; try done.
  intros j Hj. destruct (lookup_lt_is_Some_2 batch j) as [i Hb]; [lia|].
  eapply Forall_lookup_1 in Hall'; [|exact Hb]. destruct Hall' as [HiC HiK].
  assert (0 < mem_size b0) as Hpos by lia.
  destruct (ring_of_store_all _ _ _ b0 ts b Hwf0 (init_row_widths _ _ _ _ _ _ Hi)
              H0 Hpos Hs) as (_ & _ & _ & Hrows).
  destruct (Hrows i ltac:(lia)) as [Hold _]. rewrite length_map in Hold.
  destruct (Hold HiK) as (t' & Ht' & R1 & R2 & R3 & R4 & R5).
  change (map ?f ts) with (f <$> ts) in Ht'.
  apply list_lookup_fmap_Some in Ht' as (t & -> & Ht).
  destruct (last_write_bounds (mem_size b0) (length ts) i) as (B1 & B2 & _);
    try lia.
  exists (last_write (mem_size b0) (length ts) i), t.
  rewrite (Gs _ _ Hb), (Ga _ _ Hb), (Gr _ _ Hb), (Gos _ _ Hb), (Goa _ _ Hb).
  cbv zeta. split_and!; try done; try lia. apply as_stored_exact.
Qed.

(** X3.  While the counter has not passed the capacity ([K <= max_size]
    stores into a fresh store), [sample_last_buffer(batch_size)] returns the
    last [min K batch_size] stored transitions in insertion order, as numpy
    wrote them; these are the transitions themselves when their sequences
    have the widths of the rows. *)
Theorem sample_last_buffer_before_wrap
    zero max_size input_shape n_actions num_agents b0 ts b batch_size :
  __init__ zero max_size input_shape n_actions num_agents = Some b0 ->
  store_all b0 ts = Some b -> length ts <= max_size ->
  sample_last_buffer b batch_size =
    batch_of (map (as_stored input_shape n_actions num_agents)
                  (drop (length ts - min (length ts) batch_size) ts)) /\
  (Forall (exact input_shape n_actions num_agents) ts ->
   sample_last_buffer b batch_size =
     batch_of (drop (length ts - min (length ts) batch_size) ts)).
Proof.
  intros Hi Hs Hle. destruct (init_wf _ _ _ _ _ _ Hi) as (Hwf & H0 & HC).
  assert (sample_last_buffer b batch_size =
            batch_of (map (as_stored input_shape n_actions num_agents)
                          (drop (length ts - min (length ts) batch_size) ts)))
    as Heq.
  { eapply sample_last_buffer_no_wrap;
      [exact Hwf|exact (init_row_widths _ _ _ _ _ _ Hi)|exact H0|lia|exact Hs]. }
  split; [exact Heq|]. intros Hex. rewrite Heq.
  rewrite map_as_stored_exact; [done|]. by apply Forall_drop.
Qed.

(** X4.  Once the counter has reached [mem_size + batch_size],
    [sample_last_buffer(batch_size)] returns five empty arrays, whatever
    the store holds: its slice starts at or behind the last row. *)
Theorem sample_last_buffer_empty_after_wrap b batch_size :
  wf b -> mem_size b + batch_size <= mem_cntr b ->
  sample_last_buffer b batch_size = mkBatch [] [] [] [] [].
Proof.
  intros (W1 & W2 & W3 & W4 & W5) Hle. unfold sample_last_buffer, slice.
  destruct (Nat.ltb_spec (mem_cntr b) batch_size); [lia|].
  f_equal; apply drop_ge; rewrite length_take; lia.
Qed.

End RingTheorems.

(** X1, witness: row 0 of a store of capacity 2 after three stores. *)
Lemma store_all_ring_contents_witness :
  Buffer.store_all Examples.store2 [Examples.t1; Examples.t2; Examples.t3]
    = Some Examples.store2_after3 /\
  last_write 2 3 0 = 2 /\
  exists t, [Examples.t1; Examples.t2; Examples.t3] !! 2 = Some t /\
    Buffer.state_memory Examples.store2_after3 !! 0
      = Some (Buffer.t_state (Buffer.as_stored 1 1 2 t)).
Proof.
  split; [reflexivity|]. split; [reflexivity|].
  pose proof (store_all_ring_contents 0%Z 2 1 1 2 Examples.store2
                [Examples.t1; Examples.t2; Examples.t3] Examples.store2_after3 0
                eq_refl eq_refl (le_S 1 1 (le_n 1))) as [H _].
  pose proof (H (le_S 1 2 (le_S 1 1 (le_n 1))))
    as (_ & _ & _ & t & Ht & _ & Hs & _).
  exists t. split; [exact Ht|exact Hs].
Defined.

(** X2, witness: a draw of three rows from that store. *)
Lemma sample_buffer_recent_window_witness :
  random_choice (Buffer.max_mem Examples.store2_after3) 3 [1; 0; 1] /\
  exists sampled,
    Buffer.sample_buffer Examples.store2_after3 [1; 0; 1] = Some sampled /\
    length (Buffer.b_states sampled) = 3.
Proof.
  assert (random_choice (Buffer.max_mem Examples.store2_after3) 3 [1; 0; 1]) as Hc
    by (split; [reflexivity|repeat constructor]).
  split; [exact Hc|].
  destruct (sample_buffer_recent_window 0%Z 2 1 1 2 Examples.store2
              [Examples.t1; Examples.t2; Examples.t3] Examples.store2_after3
              3 [1; 0; 1] eq_refl eq_refl Hc) as (sampled & Hs & Hl & _).
  exists sampled. split; [exact Hs|exact Hl].
Defined.

(** X3, witness: two stores into a store of capacity 2. *)
Lemma sample_last_buffer_before_wrap_witness :
  exists b, Buffer.store_all Examples.store2 [Examples.t1; Examples.t2] = Some b /\
    Buffer.sample_last_buffer b 1 = Buffer.batch_of [Examples.t2].
Proof.
  eexists. split; [reflexivity|].
  apply (sample_last_buffer_before_wrap 0%Z 2 1 1 2 Examples.store2
           [Examples.t1; Examples.t2] _ 1 eq_refl eq_refl).
  - simpl. lia.
  - repeat constructor.
Defined.

(** X4, witness: a store of capacity 1 whose counter is 2. *)
Lemma sample_last_buffer_empty_after_wrap_witness :
  Buffer.sample_last_buffer
    (Buffer.mkReplayBuffer 1 2 [[7%Z]] [[2%Z]] [20%Z] [[8%Z]] [[1%Z]]) 1
  = Buffer.mkBatch [] [] [] [] [].
Proof.
  apply sample_last_buffer_empty_after_wrap; [vm_compute; done|simpl; lia].
Defined.


(** ** Coordinator: what [remember] and [learn] keep *)

Section RememberContents.
Import Networks Agent MADDPG.
Open Scope nat_scope.

(** X5.  On a fresh coordinator a sequence of [remember] calls succeeds
    exactly when numpy can store every transition (each of its four
    sequences has the width of its row or one entry); it then leaves the
    agents and the hyperparameters alone, both counters count the calls,
    the long store holds transition number [j] in row [j] (while at most
    1000000 were stored), and the short store holds the last one.  The
    stores hold a transition as numpy wrote it: the transition itself when
    its sequences have the widths of the rows, a one-entry sequence being
    repeated along a wider row. *)
Theorem remember_fills_both_stores
    new_agents g BS input_dims n_actions n_agents self0 ts :
  MADDPG.__init__ new_agents g BS input_dims n_actions n_agents = Some self0 ->
  (forall self, remember_all self0 ts = Some self ->
     Forall (Buffer.storable input_dims n_actions n_agents) ts) /\
  (Forall (Buffer.storable input_dims n_actions n_agents) ts ->
   exists self,
     remember_all self0 ts = Some self /\
     agents self = new_agents /\ num_agents self = n_agents /\
     batch_size self = BS /\ gamma self = g /\
     Buffer.mem_cntr (memory self) = length ts /\
     Buffer.mem_cntr (short_memory self) = length ts /\
     (length ts <= Z.to_nat 1000000 ->
      forall j t, ts !! j = Some t ->
        let t' := Buffer.as_stored input_dims n_actions n_agents t in
        (Buffer.exact input_dims n_actions n_agents t -> t' = t) /\
        Buffer.state_memory (memory self) !! j = Some (Buffer.t_state t') /\
        Buffer.action_memory (memory self) !! j = Some (Buffer.t_action t') /\
        Buffer.reward_memory (memory self) !! j = Some (Buffer.t_reward t') /\
        Buffer.others_states (memory self) !! j
          = Some (Buffer.t_others_states t') /\
        Buffer.others_actions (memory self) !! j
          = Some (Buffer.t_others_actions t')) /\
     (forall ts' t, ts = ts' ++ [t] ->
        let t' := Buffer.as_stored input_dims n_actions n_agents t in
        Buffer.state_memory (short_memory self) = [Buffer.t_state t'] /\
        Buffer.action_memory (short_memory self) = [Buffer.t_action t'] /\
        Buffer.reward_memory (short_memory self) = [Buffer.t_reward t'] /\
        Buffer.others_states (short_memory self) = [Buffer.t_others_states t'] /\
        Buffer.others_actions (short_memory self) = [Buffer.t_others_actions t'])).
Proof.
  intros Hi. split.
  { intros self Hr.
    by destruct (remember_all_stores _ _ _ _ _ _ _ _ _ Hi Hr)
      as (_ & _ & _ & _ & _ & _ & _ & _ & _ & _ & _ & _ & _ & _ & ?). }
  intros Hts.
  destruct (remember_all_Some _ _ _ _ _ _ _ ts Hi Hts) as [self Hr].
  destruct (remember_all_stores _ _ _ _ _ _ _ _ _ Hi Hr)
    as (Ea & En & Eb & Eg & Cm & Cs & _ & _ & _ & _ & Hpre & Hlast & _).
  exists self. split_and!; try done.
  intros Hle j t Hj. destruct (Hpre Hle) as (_ & P1 & P2 & P3 & P4 & P5).
  rewrite length_map in P1, P2, P3, P4, P5.
  pose proof (lookup_lt_Some _ _ _ Hj) as Hlt.
  assert (forall {B} (f : Buffer.Transition -> B) arr,
            take (length ts) arr
              = map f (map (Buffer.as_stored input_dims n_actions n_agents) ts) ->
            arr !! j
              = Some (f (Buffer.as_stored input_dims n_actions n_agents t)))
    as Hrow.
  { intros B f arr Ht. rewrite <- (lookup_take_lt arr (length ts) j) by done.
    rewrite Ht, map_map. change (map ?h ts) with (h <$> ts).
    by rewrite list_lookup_fmap, Hj. }
  cbv zeta. split; [apply as_stored_exact|]. split_and!; by apply Hrow.
Qed.

End RememberContents.

Section LearnFrame.
Import Networks Agent MADDPG.
Open Scope nat_scope.

Variable critic_step :
  CriticNetwork -> list (list R) ->
  list (list R) -> list (list R) -> list (list R) -> list (list R) ->
  CriticNetwork.
Variable actor_step :
  ActorNetwork -> CriticNetwork ->
  list (list R) -> list (list R) -> list (list R) -> ActorNetwork.

Lemma update_network_parameters_inv a tau' a' :
  update_network_parameters a tau' = Some a' ->
  Agent.gamma a' = Agent.gamma a /\ tau a' = tau a /\
  Agent.batch_size a' = Agent.batch_size a /\
  total_episodes a' = total_episodes a /\ noise_std a' = noise_std a /\
  actor a' = actor a /\ critic a' = critic a.
Proof.
  unfold update_network_parameters. intros H. repeat bind_inv H.
  by injection H as <-.
Qed.

(** The one agent a pass replaces, and what it keeps of it. *)
Lemma learn_pass_frame self mem idx flag num_tiles batch self' log :
  MADDPG.learn_pass critic_step actor_step self mem idx flag num_tiles batch
    = Some (self', log) ->
  memory self' = memory self /\ short_memory self' = short_memory self /\
  batch_size self' = batch_size self /\ num_agents self' = num_agents self /\
  gamma self' = gamma self /\ max_size self' = max_size self /\
  exists a a',
    agents self !! idx = Some a /\
    agents self' = <[idx := a']> (agents self) /\
    Agent.gamma a' = Agent.gamma a /\ tau a' = tau a /\
    Agent.batch_size a' = Agent.batch_size a /\
    total_episodes a' = total_episodes a /\ noise_std a' = noise_std a.
Proof.
  unfold MADDPG.learn_pass. intros H. cbv zeta in H. repeat bind_inv H.
  injection H as <- <-. split_and!; try done.
  match goal with
  | Hu : update_network_parameters _ None = Some _ |- _ =>
      destruct (update_network_parameters_inv _ _ _ Hu)
        as (U1 & U2 & U3 & U4 & U5 & _)
  end.
  eexists _, _. split_and!; try done.
Qed.

(** X6.  A call of [learn] for agent [idx] that returns leaves both replay
    stores, the batch size, the discount, the number of agents and every
    agent other than [idx] exactly as they were; of agent [idx] it keeps
    the hyperparameters ([tau], [gamma], [batch_size], [total_episodes],
    [noise_std]). *)
Theorem learn_changes_only_one_agent
    self idx flag num_tiles batch_long batch_short self' logs :
  MADDPG.learn critic_step actor_step self idx flag num_tiles
    batch_long batch_short = Some (self', logs) ->
  memory self' = memory self /\ short_memory self' = short_memory self /\
  batch_size self' = batch_size self /\ num_agents self' = num_agents self /\
  gamma self' = gamma self /\ max_size self' = max_size self /\
  length (agents self') = length (agents self) /\
  (forall k, k <> idx -> agents self' !! k = agents self !! k) /\
  (forall a', agents self' !! idx = Some a' ->
     exists a, agents self !! idx = Some a /\
       Agent.gamma a' = Agent.gamma a /\ tau a' = tau a /\
       Agent.batch_size a' = Agent.batch_size a /\
       total_episodes a' = total_episodes a /\ noise_std a' = noise_std a).
Proof.
  intros Hl.
  destruct (learn_inv _ _ _ _ _ _ _ _ _ Hl)
    as [[_ [= -> ->]]|(self1 & long & _ & H1 & Hrest)].
  { split_and!; try done. intros a' Ha. exists a'. done. }
  destruct (learn_pass_frame _ _ _ _ _ _ _ _ H1)
    as (M1 & S1 & B1 & N1 & G1 & X1 & a & a1 & Ha & Hags1 & F1).
  assert (idx < length (agents self)) as Hidx by (by eapply lookup_lt_Some).
  destruct Hrest as [[_ [= -> ->]]|(self2 & short & _ & H2 & [= -> ->])].
  - rewrite Hags1. split_and!; try done.
    + by rewrite length_insert.
    + intros k Hk. by rewrite list_lookup_insert_ne.
    + intros a' Ha'. rewrite list_lookup_insert_eq in Ha' by done.
      injection Ha' as <-. exists a. done.
  - destruct (learn_pass_frame _ _ _ _ _ _ _ _ H2)
      as (M2 & S2 & B2 & N2 & G2 & X2 & b & b2 & Hb & Hags2 & F2).
    rewrite Hags1, list_lookup_insert_eq in Hb by done. injection Hb as <-.
    rewrite Hags2, Hags1.
    split_and!; try congruence.
    + by rewrite !length_insert.
    + intros k Hk. by rewrite !list_lookup_insert_ne.
    + intros a' Ha'. rewrite list_lookup_insert_eq in Ha'
        by (by rewrite length_insert).
      injection Ha' as <-. exists a.
      destruct F1 as (? & ? & ? & ? & ?), F2 as (? & ? & ? & ? & ?).
      split_and!; congruence.
Qed.

(** X7.  Once the first gate passes, [learn] raises unless the agent index
    is in range and there are at least two agents: with a single agent the
    list of the others' target actions is empty and [T.cat] refuses it. *)
Theorem learn_needs_another_agent
    self idx flag num_tiles batch_long batch_short :
  batch_size self <= Buffer.mem_cntr (memory self) ->
  num_agents self < 2 \/ num_agents self <= idx \/ length (agents self) <= idx ->
  MADDPG.learn critic_step actor_step self idx flag num_tiles
    batch_long batch_short = None.
Proof.
  intros Hgate Hbad.
  destruct (MADDPG.learn critic_step actor_step self idx flag num_tiles
              batch_long batch_short) as [[self' logs]|] eqn:Hl; [|done].
  exfalso.
  destruct (learn_inv _ _ _ _ _ _ _ _ _ Hl)
    as [[Hlt _]|(self1 & long & _ & H1 & _)]; [lia|].
  destruct (learn_pass_inv _ _ _ _ _ _ _ _ _ _ H1)
    as (agent & ota & Hag & _ & _ & _ & Hof & _).
  destruct (others_forward_rows _ _ _ _ _ Hof) as (Hidx & Hn & _).
  apply lookup_lt_Some in Hag. lia.
Qed.

End LearnFrame.


(** ** Coordinator: width of the critic's input *)

Section CriticWidth.
Import Networks Agent MADDPG.
Open Scope nat_scope.

Variable critic_step :
  CriticNetwork -> list (list R) ->
  list (list R) -> list (list R) -> list (list R) -> list (list R) ->
  CriticNetwork.
Variable actor_step :
  ActorNetwork -> CriticNetwork ->
  list (list R) -> list (list R) -> list (list R) -> ActorNetwork.

Lemma shape_of_input_critic_width n n_actions flag extra num_tiles :
  1 <= n ->
  flag = false \/ extra * (1 + n_actions) = 2 * num_tiles ->
  shape_of_input n 1 n_actions flag extra = critic_width n_actions n flag num_tiles.
Proof.
  intros Hn H. unfold shape_of_input, critic_width, tiles.
  destruct flag; [destruct H as [?|H]; [done|nia]|nia].
Qed.

Lemma linear_row_width l x y : linear_row l x = Some y -> length x = in_features l.
Proof.
  unfold linear_row. destruct (Nat.eqb_spec (length x) (in_features l)); done.
Qed.

(** X8.  A critic built by [CriticNetwork.__init__] for one-entry
    observations reads [shape_of_input] entries, and that is the width of
    the rows [learn] hands it whenever the transfer-learning flag is unset,
    or it is set with one-entry actions and [extra = num_tiles]: a pass on
    a well-shaped batch then runs to its end. *)
Theorem learn_pass_fits_critic_constructor
    n_actions fc1 fc2 extra self mem idx flag num_tiles batch sampled :
  steps_keep_dims critic_step actor_step ->
  length (agents self) = num_agents self -> 2 <= num_agents self ->
  1 <= n_actions ->
  Forall (agent_dims n_actions fc1 fc2
            (shape_of_input (num_agents self) 1 n_actions flag extra))
         (agents self) ->
  (flag = true -> n_actions = 1 /\ extra = num_tiles /\ 1 <= num_tiles) ->
  idx < num_agents self ->
  Buffer.sample_buffer mem batch = Some sampled ->
  batch_dims n_actions (num_agents self) (batch_size self) sampled ->
  shape_of_input (num_agents self) 1 n_actions flag extra
    = critic_width n_actions (num_agents self) flag num_tiles /\
  exists self' log,
    MADDPG.learn_pass critic_step actor_step self mem idx flag num_tiles batch
      = Some (self', log).
Proof.
  intros Hsteps Hlen Hn Hna Hags Hflag Hidx Hs Hd.
  assert (shape_of_input (num_agents self) 1 n_actions flag extra
          = critic_width n_actions (num_agents self) flag num_tiles) as Hw.
  { apply shape_of_input_critic_width; [lia|].
    destruct flag; [right|by left]. destruct Hflag as (-> & -> & _); [done|lia]. }
  split; [done|]. rewrite Hw in Hags.
  destruct (learn_pass_Some critic_step actor_step Hsteps n_actions fc1 fc2 self
              mem idx flag num_tiles batch sampled) as (self' & log & H & _);
    try done.
  - intros Hf. by destruct (Hflag Hf) as (_ & _ & ?).
  - eauto.
Qed.

(** X9.  When the critics of the agents read [width] entries and [width]
    is not the width of the rows [learn] builds
    ([1 + n_actions + (n-1+tiles) + (n_actions*(n-1)+tiles)]), a pass on a
    non-empty well-shaped batch raises in the target critic.  This is the
    case for critics built by [CriticNetwork.__init__] with the flag set,
    [extra = num_tiles >= 1] and actions of two or more entries. *)
Theorem learn_pass_width_mismatch
    n_actions fc1 fc2 width self mem idx flag num_tiles batch sampled :
  coordinator_dims n_actions fc1 fc2 width self ->
  width <> critic_width n_actions (num_agents self) flag num_tiles ->
  1 <= batch_size self ->
  Buffer.sample_buffer mem batch = Some sampled ->
  batch_dims n_actions (num_agents self) (batch_size self) sampled ->
  MADDPG.learn_pass critic_step actor_step self mem idx flag num_tiles batch = None /\
  (flag = true -> 2 <= n_actions -> 1 <= num_tiles ->
   shape_of_input (num_agents self) 1 n_actions flag num_tiles
     <> critic_width n_actions (num_agents self) flag num_tiles).
Proof.
  intros (Hlen & Hn & Hna & Hags) Hw Hbs Hs
         ((L1 & L2 & L3 & L4 & L5) & W1 & W2 & W3 & W4).
  split.
  2:{ intros -> Ha Ht. unfold shape_of_input, critic_width, tiles. nia. }
  destruct (MADDPG.learn_pass critic_step actor_step self mem idx flag
              num_tiles batch) as [[self' log]|] eqn:Hl; [|done].
  exfalso.
  destruct (learn_pass_inv _ _ _ _ _ _ _ _ _ _ Hl)
    as (agent & ota & Hag & Hs' & Htile & Hta & Hof & Htt & Hcv & Htg & _).
  rewrite Hs in Hs'. injection Hs' as Hs'. rewrite <- Hs' in *. clear Hs'.
  destruct (others_forward_rows _ _ _ _ _ Hof) as (Hidx & _).
  pose proof Hags as Hagent. eapply Forall_lookup_1 in Hagent; [|exact Hag].
  destruct Hagent as (_ & Dta & _ & Dtc).
  set (n := num_agents self) in *.
  assert (1 <= n_actions * (n - 1)) as Hpos by nia.
  assert (flag = true -> 1 <= num_tiles) as Hnt.
  { intros ->. unfold torch_tile in Htt. bind_inv Htt. bind_inv Htt.
    destruct num_tiles; [done|lia]. }
  destruct (np_tile_Some flag num_tiles _ _ W3) as (os & Hos & _ & Wos); [lia|].
  rewrite Htile in Hos. injection Hos as <-.
  destruct (actor_forward_Some _ _ _ _ _ _ Dta W1) as (ta & Hta' & _ & Wta).
  rewrite Hta in Hta'. injection Hta' as <-.
  destruct (others_forward_Some n_actions fc1 fc2 width (agents self) n idx
              (log_others_states log) (n - 1 + tiles flag num_tiles)
              Hlen Hn Hidx ltac:(lia) Hags Wos) as (ota0 & Hota0 & _ & Wota0).
  fold n in Hof. rewrite Hof in Hota0. injection Hota0 as <-.
  destruct (torch_tile_Some flag num_tiles _ _ Wota0) as (ota' & Hota' & _ & Wota');
    [intros; split; [lia|by apply Hnt]|].
  rewrite Htt in Hota'. injection Hota' as <-.
  destruct (critic_target_lookup _ _ _ _ _ 0 Htg ltac:(lia)) as (r & q & _ & Hq & _).
  destruct (critic_forward_lookup _ _ _ _ _ _ _ _ Hcv Hq)
    as (s_j & a_j & os_j & oa_j & Hsj & Haj & Hosj & Hoaj & Hrow).
  unfold critic_row in Hrow. bind_inv Hrow.
  apply linear_row_width in E.
  destruct Dtc as ((Hin & _) & _). rewrite Hin in E.
  eapply Forall_lookup_1 in W1; [|exact Hsj].
  eapply Forall_lookup_1 in Wta; [|exact Haj].
  eapply Forall_lookup_1 in Wos; [|exact Hosj].
  eapply Forall_lookup_1 in Wota'; [|exact Hoaj].
  rewrite !length_app in E. simpl in *.
  apply Hw. unfold critic_width. fold n. lia.
Qed.

End CriticWidth.


Section ExampleWidths.
Import Networks Agent MADDPG ExampleNets ExampleGame.
Open Scope nat_scope.

Lemma agent_reading_dims w : agent_dims 1 1 1 w (agent_reading w).
Proof.
  unfold agent_dims, actor_dims, critic_dims, agent_reading, critic_reading, actor0.
  cbn [actor target_actor critic target_critic a_fc1 a_fc2 a_mu c_fc1 c_fc2 c_q].
  repeat match goal with |- _ /\ _ => split end; apply const_layer_dims.
Qed.

Lemma coordinator_reading_dims w :
  coordinator_dims 1 1 1 w (coordinator_reading w).
Proof.
  unfold coordinator_dims; simpl. split_and!; try lia.
  constructor; [apply agent_reading_dims|].
  constructor; [apply agent_reading_dims|]. constructor.
Qed.

Lemma store_tr2_sample :
  Buffer.sample_buffer store_tr2 [0] = Some (Buffer.batch_of [tr2]).
Proof. reflexivity. Qed.

Lemma batch_tr2_dims : batch_dims 1 2 1 (Buffer.batch_of [tr2]).
Proof. unfold batch_dims; simpl. split_and!; repeat constructor. Qed.

End ExampleWidths.

(** X5, witness: the example coordinator after two [remember]. *)
Lemma remember_fills_both_stores_witness :
  exists self0 self,
    MADDPG.__init__ [ExampleNets.agent0; ExampleNets.agent0] 0.99%R 2 1 1 2
      = Some self0 /\
    MADDPG.remember_all self0 [ExampleGame.tr1; ExampleGame.tr2] = Some self /\
    Buffer.mem_cntr (MADDPG.memory self) = 2.
Proof.
  destruct coordinator2_facts as (self0 & self' & Hi & _).
  destruct (proj2 (remember_fills_both_stores _ _ _ _ _ _ _
                     [ExampleGame.tr1; ExampleGame.tr2] Hi) transitions_storable)
    as (self & Hr & _ & _ & _ & _ & Hc & _).
  exists self0, self. split_and!; [exact Hi|exact Hr|exact Hc].
Defined.

(** X6, witness: the example call of [learn]. *)
Lemma learn_changes_only_one_agent_witness :
  exists self self' logs,
    MADDPG.learn ExampleGame.critic_step0 ExampleGame.actor_step0
      self 0 false 3 [0; 1] [0; 0] = Some (self', logs) /\
    MADDPG.memory self' = MADDPG.memory self /\
    MADDPG.agents self' !! 1 = MADDPG.agents self !! 1.
Proof.
  destruct example_learn as (self & self1 & self2 & long & short & _ & _ & _ & _ & Hl).
  destruct (learn_changes_only_one_agent _ _ _ _ _ _ _ _ _ _ Hl)
    as (Hm & _ & _ & _ & _ & _ & _ & Hothers & _).
  exists self, self2, [long; short].
  split_and!; [exact Hl|exact Hm|apply Hothers; discriminate].
Defined.

(** X7, witness: agent index 2 of the two-agent coordinator. *)
Lemma learn_needs_another_agent_witness :
  (MADDPG.batch_size (ExampleGame.coordinator_reading 4)
     <= Buffer.mem_cntr (MADDPG.memory (ExampleGame.coordinator_reading 4))) /\
  MADDPG.learn ExampleGame.critic_step0 ExampleGame.actor_step0
    (ExampleGame.coordinator_reading 4) 2 false 3 [0] [0] = None.
Proof.
  assert (MADDPG.batch_size (ExampleGame.coordinator_reading 4)
     <= Buffer.mem_cntr (MADDPG.memory (ExampleGame.coordinator_reading 4))) as Hg
    by (simpl; lia).
  split; [exact Hg|].
  apply learn_needs_another_agent; [exact Hg|]. right. left. simpl. lia.
Defined.

(** X8, witness: flag set, three tiles, critics built for three extra
    players ([shape_of_input = (2 + 3) * 2 = 10]). *)
Lemma learn_pass_fits_critic_constructor_witness :
  Networks.shape_of_input 2 1 1 true 3 = 10 /\
  exists self' log,
    MADDPG.learn_pass ExampleGame.critic_step0 ExampleGame.actor_step0
      (ExampleGame.coordinator_reading 10) ExampleGame.store_tr2 0 true 3 [0]
      = Some (self', log).
Proof.
  split; [reflexivity|].
  refine (proj2 (learn_pass_fits_critic_constructor
            ExampleGame.critic_step0 ExampleGame.actor_step0 1 1 1 3
            (ExampleGame.coordinator_reading 10) ExampleGame.store_tr2 0 true 3 [0]
            (Buffer.batch_of [ExampleGame.tr2])
            steps0_keep_dims eq_refl _ _ _ _ _ store_tr2_sample batch_tr2_dims)).
  - simpl. lia.
  - lia.
  - constructor; [apply agent_reading_dims|].
  constructor; [apply agent_reading_dims|]. constructor.
  - intros _. split_and!; [reflexivity|reflexivity|lia].
  - simpl. lia.
Defined.

(** X9, witness: critics reading 6 entries where [learn] builds rows of
    4. *)
Lemma learn_pass_width_mismatch_witness :
  MADDPG.critic_width 1 2 false 3 = 4 /\
  MADDPG.learn_pass ExampleGame.critic_step0 ExampleGame.actor_step0
    (ExampleGame.coordinator_reading 6) ExampleGame.store_tr2 0 false 3 [0] = None.
Proof.
  split; [reflexivity|].
  refine (proj1 (learn_pass_width_mismatch
            ExampleGame.critic_step0 ExampleGame.actor_step0 1 1 1 6
            (ExampleGame.coordinator_reading 6) ExampleGame.store_tr2 0 false 3 [0]
            (Buffer.batch_of [ExampleGame.tr2])
            (coordinator_reading_dims 6) _ _ store_tr2_sample batch_tr2_dims)).
  - simpl. discriminate.
  - simpl. lia.
Defined.


(** ** Agent: actions without noise, errors, soft update *)

Section AgentExtra.
Import Networks Agent.
Open Scope R_scope.

Lemma clamp_actor_output net state a :
  actor_forward net state = Some a -> map (map (clamp 0 1)) a = a.
Proof.
  intros H. pose proof (actor_forward_range _ _ _ H) as Hr. clear H.
  induction Hr as [|row a Hrow _ IH]; [done|]. simpl. f_equal; [|done].
  clear -Hrow. induction Hrow as [|x row Hx _ IH]; [done|]. simpl.
  by rewrite clamp_inside, IH.
Qed.

(** X10.  [choose_action] returns the actor's output itself, whatever the
    noise draw, when [evaluation] is set (then also whatever the episode)
    and, for a standard deviation [noise_std >= 0], when the episode index
    equals [total_episodes] (not 0): the decay is 0 there and the clamp
    leaves the sigmoid's output alone. *)
Theorem choose_action_without_noise self observation episode z :
  choose_action self observation episode true z
    = actor_forward (actor self) [observation] /\
  (0 <= noise_std self -> total_episodes self <> 0%Z ->
   choose_action self observation (total_episodes self) false z
     = actor_forward (actor self) [observation]).
Proof.
  split; [apply choose_action_evaluation|]. intros Hn HT.
  rewrite choose_action_noisy by done.
  destruct (actor_forward (actor self) [observation]) as [a|] eqn:E; [|done].
  simpl. f_equal. rewrite <- (clamp_actor_output _ _ _ E) at 2.
  apply map_ext. intros row. apply map_ext. intros x. f_equal.
  assert (IZR (total_episodes self) <> 0) by (by apply not_0_IZR).
  unfold Rdiv. rewrite Rinv_r by done. lra.
Qed.

(** X11.  [choose_action] raises exactly when the actor refuses the
    observation, or when noise is wanted and either [noise_std] is negative
    ([np.random.normal] refuses the scale) or [total_episodes] is 0 (the
    decay divides by it). *)
Theorem choose_action_raises self observation episode evaluation z :
  choose_action self observation episode evaluation z = None <->
  actor_forward (actor self) [observation] = None \/
  (evaluation = false /\ (noise_std self < 0 \/ total_episodes self = 0%Z)).
Proof.
  unfold choose_action, random_normal.
  destruct (actor_forward (actor self) [observation]) as [a|]; simpl.
  - destruct evaluation; simpl.
    + split; [done|]. intros [?|[? _]]; done.
    + destruct (Rlt_dec (noise_std self) 0) as [Hn|Hn]; simpl.
      * split; [|done]. intros _. right. split; [done|by left].
      * destruct (Z.eqb_spec (total_episodes self) 0); split; try done.
        -- intros _. right. split; [done|by right].
        -- intros [?|[_ [?|?]]]; done.
  - split; [by left|done].
Qed.

Lemma zip_with_blend_same tau (v : list R) : zip_with (blend tau) v v = v.
Proof.
  induction v as [|x v IH]; [done|]. simpl. rewrite IH. f_equal.
  unfold blend. lra.
Qed.

Lemma zip_with_blend_rows tau (m : list (list R)) :
  zip_with (zip_with (blend tau)) m m = m.
Proof.
  induction m as [|r m IH]; [done|].
  cbn [zip_with]. by rewrite zip_with_blend_same, IH.
Qed.

Lemma blend_layer_same tau l l' :
  weight l = weight l' -> bias l = bias l' -> blend_layer tau l l' = l.
Proof.
  intros Hw Hb. unfold blend_layer, with_data. rewrite <- Hw, <- Hb.
  rewrite zip_with_blend_same.
  rewrite zip_with_blend_rows. by destruct l.
Qed.

Lemma same_shape_refl t : same_shape t t.
Proof.
  destruct t as [v|m]; simpl; [done|].
  induction m; by constructor.
Qed.

(** The networks [update_network_parameters] returns. *)
Lemma update_network_parameters_explicit a tau' :
  twin_shapes a ->
  update_network_parameters a tau' =
    Some {| gamma := gamma a; tau := tau a; batch_size := batch_size a;
            total_episodes := total_episodes a; noise_std := noise_std a;
            actor := actor a; critic := critic a;
            target_actor :=
              blend_actor (default (tau a) tau') (target_actor a) (actor a);
            target_critic :=
              blend_critic (default (tau a) tau') (target_critic a) (critic a) |}.
Proof.
  intros [Hc Ha]. unfold update_network_parameters.
  assert ((match tau' with Some t => t | None => tau a end)
          = default (tau a) tau') as -> by (by destruct tau').
  rewrite (soft_update_Some _ _ _ Hc). cbn [mbind option_bind].
  change (critic_copy_ (target_critic a) _) with
    (Some (blend_critic (default (tau a) tau') (target_critic a) (critic a))).
  cbn [mbind option_bind].
  rewrite (soft_update_Some _ _ _ Ha). cbn [mbind option_bind].
  change (actor_copy_ (target_actor a) _) with
    (Some (blend_actor (default (tau a) tau') (target_actor a) (actor a))).
  reflexivity.
Qed.

Lemma zip_rows_Some_inv f u v r : zip_rows f u v = Some r -> length u = length v.
Proof. unfold zip_rows. by destruct (Nat.eqb_spec (length u) (length v)). Qed.

Lemma tensor_zip_same_shape f s t r : tensor_zip f s t = Some r -> same_shape s t.
Proof.
  destruct s as [u|m], t as [v|n]; simpl; try done.
  - destruct (zip_rows f u v) eqn:E; [|done]. intros _. by eapply zip_rows_Some_inv.
  - destruct (Nat.eqb_spec (length m) (length n)) as [Hl|]; [|done].
    destruct (mapM _ (zip m n)) as [k|] eqn:E; [|done]. intros _.
    apply Forall2_same_length_lookup. split; [done|].
    intros i x y Hx Hy.
    destruct (mapM_lookup _ _ _ i (x, y) E) as (w & _ & Hw).
    { by rewrite lookup_zip_with, Hx, Hy. }
    by eapply zip_rows_Some_inv.
Qed.

Lemma soft_update_same_shape tau tps ps r :
  length tps = length ps -> soft_update tau tps ps = Some r ->
  Forall2 same_shape tps ps.
Proof.
  unfold soft_update. intros Hl H.
  apply Forall2_same_length_lookup. split; [done|].
  intros i x y Hx Hy.
  destruct (mapM_lookup _ _ _ i (x, y) H) as (w & _ & Hw).
  { by rewrite lookup_zip_with, Hx, Hy. }
  by eapply tensor_zip_same_shape.
Qed.

Lemma parameters_layers_actor t l :
  actor_parameters t = actor_parameters l ->
  (weight (a_fc1 t) = weight (a_fc1 l) /\ bias (a_fc1 t) = bias (a_fc1 l)) /\
  (weight (a_fc2 t) = weight (a_fc2 l) /\ bias (a_fc2 t) = bias (a_fc2 l)) /\
  (weight (a_mu t) = weight (a_mu l) /\ bias (a_mu t) = bias (a_mu l)).
Proof. intros [= -> -> -> -> -> ->]. done. Qed.

Lemma parameters_layers_critic t l :
  critic_parameters t = critic_parameters l ->
  (weight (c_fc1 t) = weight (c_fc1 l) /\ bias (c_fc1 t) = bias (c_fc1 l)) /\
  (weight (c_fc2 t) = weight (c_fc2 l) /\ bias (c_fc2 t) = bias (c_fc2 l)) /\
  (weight (c_q t) = weight (c_q l) /\ bias (c_q t) = bias (c_q l)).
Proof. intros [= -> -> -> -> -> ->]. done. Qed.

(** When the targets already hold the live parameters, the soft update
    changes nothing. *)
Lemma update_network_parameters_fixed a tau' :
  critic_parameters (target_critic a) = critic_parameters (critic a) ->
  actor_parameters (target_actor a) = actor_parameters (actor a) ->
  update_network_parameters a tau' = Some a.
Proof.
  intros Hc Ha.
  rewrite update_network_parameters_explicit.
  2:{ split; [rewrite Hc|rewrite Ha]; apply Forall2_same_length_lookup;
        (split; [done|]); intros i x y Hx Hy;
        assert (x = y) as -> by congruence; apply same_shape_refl. }
  destruct (parameters_layers_critic _ _ Hc) as ((C1 & C2) & (C3 & C4) & (C5 & C6)).
  destruct (parameters_layers_actor _ _ Ha) as ((A1 & A2) & (A3 & A4) & (A5 & A6)).
  unfold blend_actor, blend_critic.
  rewrite !blend_layer_same by done.
  destruct a as [? ? ? ? ? ? ? [? ? ?] [? ? ?]]. reflexivity.
Qed.

(** X12.  An agent that [Agent.__init__] returns has the networks it was
    given as live networks, target networks whose parameters are those of
    the live ones, and [update_network_parameters] with any [tau] returns
    it unchanged: the targets only start to move once an optimiser step has
    changed a live network. *)
Theorem init_targets_are_copies
    tau0 gamma0 batch_size0 total_eps noise_std0 act cr tact tcr a tau' :
  Agent.__init__ tau0 gamma0 batch_size0 total_eps noise_std0 act cr tact tcr
    = Some a ->
  actor a = act /\ critic a = cr /\ tau a = tau0 /\
  critic_parameters (target_critic a) = critic_parameters (critic a) /\
  actor_parameters (target_actor a) = actor_parameters (actor a) /\
  update_network_parameters a tau' = Some a.
Proof.
  unfold Agent.__init__. intros H.
  assert (twin_shapes (mkAgent gamma0 tau0 batch_size0 total_eps noise_std0
                               act cr tact tcr)) as Htw.
  { unfold update_network_parameters in H. cbn [critic target_critic actor
      target_actor] in H. bind_inv H. bind_inv H. bind_inv H.
    split; eapply soft_update_same_shape; try eassumption; reflexivity. }
  rewrite update_network_parameters_explicit in H by done.
  injection H as <-. cbn [actor critic tau target_actor target_critic default].
  assert (critic_parameters (blend_critic 1 tcr cr) = critic_parameters cr) as Hc.
  { destruct Htw as [Hc _]. cbn [critic target_critic] in Hc.
    rewrite <- (zip_with_same_shape_1 _ _ Hc). reflexivity. }
  assert (actor_parameters (blend_actor 1 tact act) = actor_parameters act) as Ha.
  { destruct Htw as [_ Ha]. cbn [actor target_actor] in Ha.
    rewrite <- (zip_with_same_shape_1 _ _ Ha). reflexivity. }
  split_and!; try done.
  by apply update_network_parameters_fixed.
Qed.

End AgentExtra.


Section SoftUpdateEntries.
Import Networks Agent.
Open Scope R_scope.

Lemma concat_zip_with_rows (f : R -> R -> R) (m n : list (list R)) :
  Forall2 (fun r r' => length r = length r') m n ->
  concat (zip_with (zip_with f) m n) = zip_with f (concat m) (concat n) /\
  length (concat m) = length (concat n).
Proof.
  induction 1 as [|r r' m n Hr _ [IH IHl]]; [done|]. simpl. split.
  - by rewrite zip_with_app, IH.
  - rewrite !length_app. lia.
Qed.

Lemma tensor_entries_map2 f s t :
  same_shape s t ->
  tensor_entries (tensor_map2 f s t)
    = zip_with f (tensor_entries s) (tensor_entries t) /\
  length (tensor_entries s) = length (tensor_entries t).
Proof.
  destruct s as [u|m], t as [v|n]; simpl; try done.
  apply concat_zip_with_rows.
Qed.

Lemma parameter_entries_zip f tps ps :
  Forall2 same_shape tps ps ->
  parameter_entries (zip_with (tensor_map2 f) tps ps)
    = zip_with f (parameter_entries tps) (parameter_entries ps).
Proof.
  unfold parameter_entries.
  induction 1 as [|s t tps ps Hs _ IH]; [done|]. simpl.
  destruct (tensor_entries_map2 f s t Hs) as [-> Hl].
  by rewrite IH, zip_with_app.
Qed.

Lemma parameter_entries_length tps ps :
  Forall2 same_shape tps ps ->
  length (parameter_entries tps) = length (parameter_entries ps).
Proof.
  unfold parameter_entries.
  induction 1 as [|s t tps ps Hs _ IH]; [done|]. simpl.
  destruct (tensor_entries_map2 (fun x _ => x) s t Hs) as [_ Hl].
  rewrite !length_app. lia.
Qed.

Lemma blend_contracts tau t p :
  blend tau t p - p = (1 - tau) * (t - p) /\
  (0 <= tau <= 1 -> Rmin t p <= blend tau t p <= Rmax t p).
Proof.
  unfold blend. split; [lra|]. intros Ht.
  unfold Rmin, Rmax. destruct (Rle_dec t p); split; nra.
Qed.

(** X13.  Entry by entry, one call of [update_network_parameters] on
    target networks shaped like the live ones leaves the number of
    parameters alone (the new target critic and the new target actor have
    as many entries as the old ones) and moves every target parameter
    towards the live one: the gap to the live parameter is multiplied by
    [1 - tau], and for [0 <= tau <= 1] the new value lies between the old
    target value and the live value. *)
Theorem soft_update_moves_towards_live a tau' a' :
  twin_shapes a -> update_network_parameters a tau' = Some a' ->
  length (parameter_entries (critic_parameters (target_critic a')))
    = length (parameter_entries (critic_parameters (target_critic a))) /\
  length (parameter_entries (actor_parameters (target_actor a')))
    = length (parameter_entries (actor_parameters (target_actor a))) /\
  (forall k x,
     parameter_entries (critic_parameters (target_critic a')) !! k = Some x ->
     exists t p,
       parameter_entries (critic_parameters (target_critic a)) !! k = Some t /\
       parameter_entries (critic_parameters (critic a)) !! k = Some p /\
       x - p = (1 - default (tau a) tau') * (t - p) /\
       (0 <= default (tau a) tau' <= 1 -> Rmin t p <= x <= Rmax t p)) /\
  (forall k x,
     parameter_entries (actor_parameters (target_actor a')) !! k = Some x ->
     exists t p,
       parameter_entries (actor_parameters (target_actor a)) !! k = Some t /\
       parameter_entries (actor_parameters (actor a)) !! k = Some p /\
       x - p = (1 - default (tau a) tau') * (t - p) /\
       (0 <= default (tau a) tau' <= 1 -> Rmin t p <= x <= Rmax t p)).
Proof.
  intros Htw Hu. rewrite update_network_parameters_explicit in Hu by done.
  injection Hu as <-. cbn [target_critic target_actor].
  destruct Htw as [Hc Ha].
  change (critic_parameters (blend_critic (default (tau a) tau')
                               (target_critic a) (critic a)))
    with (zip_with (tensor_map2 (blend (default (tau a) tau')))
            (critic_parameters (target_critic a)) (critic_parameters (critic a))).
  change (actor_parameters (blend_actor (default (tau a) tau')
                              (target_actor a) (actor a)))
    with (zip_with (tensor_map2 (blend (default (tau a) tau')))
            (actor_parameters (target_actor a)) (actor_parameters (actor a))).
  rewrite !parameter_entries_zip by done.
  pose proof (parameter_entries_length _ _ Hc) as Lc.
  pose proof (parameter_entries_length _ _ Ha) as La.
  split; [rewrite length_zip_with; lia|]. split; [rewrite length_zip_with; lia|].
  split; intros k x Hx; apply lookup_zip_with_Some in Hx as (t & p & -> & Ht & Hp);
    exists t, p; (split; [done|]); (split; [done|]); apply blend_contracts.
Qed.

(** X14.  The soft update keeps every layer's shape: an agent whose four
    networks have the shapes of the constructors still has them after
    [update_network_parameters], for every [tau]. *)
Theorem soft_update_keeps_shapes n_actions fc1 fc2 width a tau' :
  MADDPG.agent_dims n_actions fc1 fc2 width a ->
  exists a', update_network_parameters a tau' = Some a' /\
             MADDPG.agent_dims n_actions fc1 fc2 width a'.
Proof. apply update_network_parameters_dims. Qed.

End SoftUpdateEntries.

(** X10, witness: the example agent at its last episode. *)
Lemma choose_action_without_noise_witness :
  Agent.choose_action ExampleNets.agent0 [1%R] 10 false 2
  = Networks.actor_forward (Agent.actor ExampleNets.agent0) [[1%R]].
Proof.
  apply (proj2 (choose_action_without_noise ExampleNets.agent0 [1%R] 10 2)).
  - simpl. lra.
  - discriminate.
Defined.

(** X12, witness: the example agent built by [__init__] from its own
    networks. *)
Lemma init_targets_are_copies_witness :
  exists a,
    Agent.__init__ 0.001 0.99 2 10 0.1 ExampleNets.actor0 ExampleNets.critic0
      ExampleNets.actor0 ExampleNets.critic0 = Some a /\
    Agent.update_network_parameters a None = Some a.
Proof.
  destruct (update_network_parameters_dims 1 1 1 4 ExampleNets.agent0 (Some 1%R)
              agent0_dims) as (a & Hu & _).
  change (Agent.update_network_parameters ExampleNets.agent0 (Some 1%R))
    with (Agent.__init__ 0.001 0.99 2 10 0.1 ExampleNets.actor0
            ExampleNets.critic0 ExampleNets.actor0 ExampleNets.critic0) in Hu.
  exists a. split; [exact Hu|].
  exact (proj2 (proj2 (proj2 (proj2 (proj2
    (init_targets_are_copies _ _ _ _ _ _ _ _ _ a None Hu)))))).
Defined.

(** X13, witness: one soft update of the example agent. *)
Lemma soft_update_moves_towards_live_witness :
  exists a',
    Agent.update_network_parameters ExampleNets.agent0 None = Some a' /\
    length (parameter_entries
              (Networks.actor_parameters (Agent.target_actor a')))
      = length (parameter_entries
                  (Networks.actor_parameters
                     (Agent.target_actor ExampleNets.agent0))) /\
    forall k x,
      parameter_entries
        (Networks.actor_parameters (Agent.target_actor a')) !! k = Some x ->
      exists t p,
        parameter_entries (Networks.actor_parameters
          (Agent.target_actor ExampleNets.agent0)) !! k = Some t /\
        parameter_entries (Networks.actor_parameters
          (Agent.actor ExampleNets.agent0)) !! k = Some p /\
        (x - p = (1 - 0.001) * (t - p))%R.
Proof.
  destruct (update_network_parameters_dims 1 1 1 4 ExampleNets.agent0 None
              agent0_dims) as (a' & Hu & _).
  exists a'.
  destruct (soft_update_moves_towards_live ExampleNets.agent0 None a'
              agent0_twin_shapes Hu) as (_ & Hl & _ & Hentries).
  split; [exact Hu|]. split; [exact Hl|].
  intros k x Hx.
  destruct (Hentries k x Hx) as (t & p & Ht & Hp & He & _).
  exists t, p. split_and!; [exact Ht|exact Hp|exact He].
Defined.

(** X14, witness: the example agent. *)
Lemma soft_update_keeps_shapes_witness :
  exists a', Agent.update_network_parameters ExampleNets.agent0 (Some 0.5%R)
               = Some a' /\
             MADDPG.agent_dims 1 1 1 4 a'.
Proof.
  exact (soft_update_keeps_shapes 1 1 1 4 ExampleNets.agent0 (Some 0.5%R)
           agent0_dims).
Defined.


(** ** Networks: initialisation and forward passes *)

Section NetworkExtra.
Import Networks.
Open Scope R_scope.

Lemma nn_Linear_dims i o : linear_dims i o (nn_Linear i o).
Proof.
  unfold linear_dims, linear_shape, nn_Linear; simpl.
  rewrite !length_replicate. split_and!; try done.
  apply Forall_replicate, length_replicate.
Qed.

Lemma limit_nonneg layer scale lim :
  limit layer scale = Some lim -> 0 <= scale -> 0 <= lim.
Proof.
  unfold limit. destruct (Nat.eqb_spec (fan_in layer) 0) as [|Hne]; [done|].
  intros [= <-] Hs.
  assert (0 < sqrt (INR (fan_in layer))).
  { apply sqrt_lt_R0. apply lt_0_INR. lia. }
  apply Rmult_le_pos; [done|]. left. by apply Rinv_0_lt_compat.
Qed.

Lemma redraw_length a b data u :
  length u = length data -> length (redraw a b data u) = length data.
Proof. intros H. unfold redraw. rewrite length_zip_with. lia. Qed.

Lemma init_layer_dims i o layer scale d layer' :
  linear_dims i o layer -> draws_for i o d ->
  _init_layer layer scale d.1 d.2 = Some layer' -> linear_dims i o layer'.
Proof.
  intros (Hi & Ho & Hw & Hr & Hb) (Dw & Dr & Db & _) H.
  unfold _init_layer, uniform_2d, uniform_ in H. bind_inv H.
  destruct (Rlt_dec r (- r)); [done|]. cbn [mbind option_bind] in H.
  injection H as <-.
  unfold linear_dims, linear_shape; simpl.
  split_and!; try done.
  - rewrite length_zip_with. lia.
  - apply Forall_forall. intros row Hrow.
    apply list_elem_of_In, elem_of_lookup_zip_with in Hrow
      as (k & r' & u & -> & Hr' & Hu).
    eapply Forall_lookup_1 in Hr; [|exact Hr'].
    eapply Forall_lookup_1 in Dr; [|exact Hu]. destruct Dr as [Dr _].
    rewrite redraw_length; simpl in *; lia.
  - rewrite redraw_length; lia.
Qed.

(** The layers [ActorNetwork.__init__] builds: [_init_layer] on a layer
    with at least one output feature and a scale [>= 0]. *)
Lemma init_layer_built i o scale d :
  (1 <= o)%nat -> 0 <= scale -> draws_for i o d ->
  exists layer',
    _init_layer (nn_Linear i o) scale d.1 d.2 = Some layer' /\
    linear_dims i o layer'.
Proof.
  intros Ho Hs Hd.
  pose proof (limit_out_features i o (nn_Linear i o) scale (nn_Linear_dims i o) Ho)
    as Hl.
  pose proof (limit_nonneg _ _ _ Hl Hs) as Hpos.
  eexists. split; [by apply init_layer_Some|].
  eapply init_layer_dims; [apply nn_Linear_dims|exact Hd|by apply init_layer_Some].
Qed.

(** X15.  For a layer [nn.Linear(i, o)] with [o >= 1], a scale [>= 0] and
    one draw per entry, [_init_layer] returns; it keeps the shape of the
    layer and leaves every weight and every bias within [scale / sqrt o] of
    0, [o] being the number of output features. *)
Theorem init_layer_bounds i o layer scale d :
  linear_dims i o layer -> (1 <= o)%nat -> 0 <= scale -> draws_for i o d ->
  limit layer scale = Some (scale / sqrt (INR o)) /\
  exists layer',
    _init_layer layer scale d.1 d.2 = Some layer' /\
    linear_dims i o layer' /\
    layer_within (scale / sqrt (INR o)) layer'.
Proof.
  intros Hd Ho Hs Hdr.
  pose proof (limit_out_features i o layer scale Hd Ho) as Hl.
  split; [done|]. pose proof (limit_nonneg _ _ _ Hl Hs) as Hpos.
  destruct Hdr as (Dw & Dr & Db & Dbr).
  destruct (init_layer_range layer scale d.1 d.2 _ Hl Hpos) as (layer' & Hi & Hw & Hb);
    [|done|].
  { eapply List.Forall_impl; [|exact Dr]. by intros u [_ ?]. }
  exists layer'. split; [done|]. split; [|done].
  by eapply init_layer_dims.
Qed.

Lemma actor_row_strict net x y :
  actor_row net x = Some y -> Forall (fun v => 0 < v < 1) y.
Proof.
  unfold actor_row. intros H. simplify_option_eq.
  apply List.Forall_map, Forall_true. intros w. apply sigmoid_range.
Qed.

(** X16.  For hidden layers and an action of at least one entry each,
    [ActorNetwork.__init__] builds, from one draw per entry, a network for
    [(input_dims, fc1_dims, fc2_dims, n_actions)] whose layers have the
    declared shapes, and the forward pass of this network accepts every
    batch of states of width [input_dims]: it returns one action per state,
    of width [n_actions], with every component strictly between 0 and 1. *)
Theorem actor_init_forward input_dims fc1_dims fc2_dims n_actions d1 d2 d3 state :
  (1 <= fc1_dims)%nat -> (1 <= fc2_dims)%nat -> (1 <= n_actions)%nat ->
  draws_for input_dims fc1_dims d1 -> draws_for fc1_dims fc2_dims d2 ->
  draws_for fc2_dims n_actions d3 ->
  Forall (fun s => length s = input_dims) state ->
  exists net,
    actor_init input_dims fc1_dims fc2_dims n_actions d1 d2 d3 = Some net /\
    actor_dims input_dims fc1_dims fc2_dims n_actions net /\
    exists a,
      actor_forward net state = Some a /\
      length a = length state /\
      Forall (fun row => length row = n_actions /\ Forall (fun v => 0 < v < 1) row) a.
Proof.
  intros P1 P2 P3 D1 D2 D3 Hs.
  destruct (init_layer_built input_dims fc1_dims 1 d1 P1 ltac:(lra) D1)
    as (l1 & E1 & L1).
  destruct (init_layer_built fc1_dims fc2_dims 1 d2 P2 ltac:(lra) D2)
    as (l2 & E2 & L2).
  destruct (init_layer_built fc2_dims n_actions 0.003 d3 P3 ltac:(lra) D3)
    as (l3 & E3 & L3).
  exists (mkActor l1 l2 l3).
  assert (actor_dims input_dims fc1_dims fc2_dims n_actions (mkActor l1 l2 l3))
    as Hd by done.
  split; [unfold actor_init; by rewrite E1, E2, E3|]. split; [done|].
  destruct (actor_forward_Some _ _ _ _ _ state Hd Hs) as (a & Ha & Hl & Hw).
  exists a. split_and!; try done.
  apply Forall_forall. intros row Hrow.
  rewrite List.Forall_forall in Hw. split; [by apply Hw|].
  apply list_elem_of_In, list_elem_of_lookup in Hrow as [j Hj].
  destruct (mapM_lookup_r _ _ _ _ _ Ha Hj) as (s & _ & Hrow).
  by eapply actor_row_strict.
Qed.

(** X17.  [CriticNetwork.forward] never returns for inputs with different
    numbers of rows; for a critic whose first layer reads [width] entries and
    four inputs of [rows] rows whose widths add up to [width], it returns
    [rows] rows of one value each, and row [j] is the network applied to
    row [j] of the inputs laid side by side (no mixing across samples). *)
Theorem critic_forward_per_sample width fc1 fc2 net
    (state action others_states others_actions : list (list R)) :
  (forall cv,
     critic_forward net state action others_states others_actions = Some cv ->
     length state = length cv /\ length action = length cv /\
     length others_states = length cv /\ length others_actions = length cv) /\
  (forall rows w1 w2 w3 w4,
     critic_dims width fc1 fc2 net -> width = (w1 + w2 + w3 + w4)%nat ->
     length state = rows -> Forall (fun r => length r = w1) state ->
     length action = rows -> Forall (fun r => length r = w2) action ->
     length others_states = rows -> Forall (fun r => length r = w3) others_states ->
     length others_actions = rows -> Forall (fun r => length r = w4) others_actions ->
     exists cv,
       critic_forward net state action others_states others_actions = Some cv /\
       length cv = rows /\
       forall j, (j < rows)%nat ->
         exists s a os oa q,
           state !! j = Some s /\ action !! j = Some a /\
           others_states !! j = Some os /\ others_actions !! j = Some oa /\
           critic_row net (s ++ a ++ os ++ oa) = Some [q] /\
           cv !! j = Some [q]).
Proof.
  split.
  - intros cv H. unfold critic_forward in H. bind_inv H.
    pose proof (cat_dim1_length _ _ E) as Hl.
    pose proof (mapM_length _ _ _ H) as Hc. rewrite Hc.
    inversion Hl as [|? ? H1 Hl1]; subst. inversion Hl1 as [|? ? H2 Hl2]; subst.
    inversion Hl2 as [|? ? H3 Hl3]; subst. inversion Hl3 as [|? ? H4 _]; subst.
    done.
  - intros rows w1 w2 w3 w4 Hd Hw L1 W1 L2 W2 L3 W3 L4 W4.
    destruct (critic_forward_Some _ _ _ _ _ _ _ _ _ _ _ _ _ Hd Hw L1 W1 L2 W2 L3 W3 L4 W4)
      as (cv & Hcv & Hl & Hone).
    exists cv. split_and!; try done. intros j Hj.
    destruct (lookup_lt_is_Some_2 cv j) as [row Hrow]; [lia|].
    destruct (critic_forward_lookup _ _ _ _ _ _ _ _ Hcv Hrow)
      as (s & a & os & oa & Hs & Ha & Hos & Hoa & Hr).
    eapply Forall_lookup_1 in Hone; [|exact Hrow].
    destruct row as [|q [|??]]; try done.
    exists s, a, os, oa, q. done.
Qed.

End NetworkExtra.

Section ExampleDraws.
Import Networks ExampleNets.
Open Scope R_scope.

Lemma draws_half_for : draws_for 1 1 draws_half.
Proof.
  unfold draws_for, draws_half; simpl.
  split_and!; try done; repeat constructor; lra.
Qed.

Lemma critic0_dims : critic_dims 4 1 1 critic0.
Proof. unfold critic_dims, critic0; simpl. split_and!; apply const_layer_dims. Qed.

End ExampleDraws.

(** X15, witness: [nn.Linear(1, 1)] with scale 1. *)
Lemma init_layer_bounds_witness :
  exists layer',
    Networks._init_layer (Networks.nn_Linear 1 1) 1
      ExampleNets.draws_half.1 ExampleNets.draws_half.2 = Some layer' /\
    layer_within (1 / sqrt (INR 1)) layer'.
Proof.
  destruct (proj2 (init_layer_bounds 1 1 (Networks.nn_Linear 1 1) 1
                     ExampleNets.draws_half (nn_Linear_dims 1 1)
                     (le_n 1) Rle_0_1 draws_half_for))
    as (layer' & Hi & _ & Hw).
  exists layer'. split; [exact Hi|exact Hw].
Defined.

(** X16, witness: the actor built for dimensions [(1, 1, 1, 1)]. *)
Lemma actor_init_forward_witness :
  exists net a,
    Networks.actor_init 1 1 1 1 ExampleNets.draws_half ExampleNets.draws_half
      ExampleNets.draws_half = Some net /\
    Networks.actor_forward net [[1%R]] = Some a /\
    length a = 1.
Proof.
  destruct (actor_init_forward 1 1 1 1 ExampleNets.draws_half
              ExampleNets.draws_half ExampleNets.draws_half [[1%R]]
              (le_n 1) (le_n 1) (le_n 1)
              draws_half_for draws_half_for draws_half_for
              ltac:(repeat constructor)) as (net & Hn & _ & a & Ha & Hl & _).
  exists net, a. split_and!; [exact Hn|exact Ha|exact Hl].
Defined.

(** X17, witness: the example critic on one sample. *)
Lemma critic_forward_per_sample_witness :
  exists cv,
    Networks.critic_forward ExampleNets.critic0
      [[0.7%R]] [[0.6%R]] [[0.1%R]] [[0.9%R]] = Some cv /\
    length cv = 1.
Proof.
  destruct (proj2 (critic_forward_per_sample 4 1 1 ExampleNets.critic0
              [[0.7%R]] [[0.6%R]] [[0.1%R]] [[0.9%R]]) 1 1 1 1 1
              critic0_dims eq_refl eq_refl ltac:(repeat constructor)
              eq_refl ltac:(repeat constructor) eq_refl ltac:(repeat constructor)
              eq_refl ltac:(repeat constructor)) as (cv & Hcv & Hl & _).
  exists cv. split; [exact Hcv|exact Hl].
Defined.


(** ** Auction environments *)

Section EnvArgmax.
Import Env.
Open Scope R_scope.

Lemma argmax_from_first_max p best_i best l :
  first_max p best_i best ->
  first_max (p ++ l) (argmax_from best_i best (length p) l)
            (default 0 ((p ++ l) !! argmax_from best_i best (length p) l)).
Proof.
  revert p best_i best. induction l as [|x l IH]; intros p bi best (Hb & Hmax & Hfirst).
  - simpl. rewrite app_nil_r, Hb. simpl. done.
  - simpl. replace (p ++ x :: l) with ((p ++ [x]) ++ l) by (by rewrite <- app_assoc).
    replace (S (length p)) with (length (p ++ [x]))
      by (rewrite length_app; simpl; lia).
    destruct (Rlt_dec best x) as [Hlt|Hge].
    + apply IH. split_and!.
      * by rewrite lookup_app_r, Nat.sub_diag.
      * intros j y Hj. apply lookup_app_Some in Hj as [Hj|[_ Hj]].
        -- pose proof (Hmax _ _ Hj). lra.
        -- destruct (j - length p)%nat; [|done]. injection Hj as <-. lra.
      * intros j y Hj Hy. rewrite lookup_app_l in Hy by done.
        pose proof (Hmax _ _ Hy). lra.
    + apply IH. split_and!.
      * rewrite lookup_app_l; [done|]. by eapply lookup_lt_Some.
      * intros j y Hj. apply lookup_app_Some in Hj as [Hj|[_ Hj]].
        -- by eapply Hmax.
        -- destruct (j - length p)%nat; [|done]. injection Hj as <-. lra.
      * intros j y Hj Hy. apply lookup_lt_Some in Hb.
        rewrite lookup_app_l in Hy by lia. by eapply Hfirst.
Qed.

Lemma argmax_first_max l :
  l <> [] -> exists k m, argmax l = Some k /\ first_max l k m.
Proof.
  destruct l as [|x l]; [done|]. intros _. simpl.
  pose proof (argmax_from_first_max [x] 0 x l) as H.
  eexists _, _. split; [done|]. apply H. split_and!; [done| |].
  - intros [|j] y Hj; [|done]. injection Hj as <-. lra.
  - intros j y Hj. lia.
Qed.

Lemma assign_Some rewards idx x :
  (idx < length rewards)%nat ->
  assign rewards idx x = Some (<[idx := x]> rewards).
Proof. intros H. unfold assign. by destruct (Nat.ltb_spec idx (length rewards)); [|lia]. Qed.

Lemma risk_adjusted_sign w r :
  (0 < risk_adjusted w r <-> 0 < w) /\ (0 <= w -> 0 <= risk_adjusted w r) /\
  (r = 1 -> risk_adjusted w r = w).
Proof.
  unfold risk_adjusted. destruct (Rlt_dec 0 w) as [Hw|Hw].
  - pose proof (exp_pos (r * ln w)). unfold Rpower. split_and!.
    + split; intros; lra.
    + intros; lra.
    + intros ->. by apply Rpower_1.
  - split_and!; [split; intros; lra|done|done].
Qed.

End EnvArgmax.

Section EnvRewards.
Import Env.
Open Scope R_scope.

(** X18.  First-price rewards ([MAFirstPriceAuctionEnv.reward_n_players]):
    with no bid the call raises; with at least one bid, a value for every
    bidder and [N] at least the number of bids, it returns [N] rewards; the
    winner is the first bidder with the largest bid; everybody else gets 0;
    the winner gets [(value - bid)**r] when the value exceeds the bid and
    [value - bid] otherwise, so the winner's reward is positive exactly
    when the value exceeds the bid, and it is [value - bid] for [r = 1]. *)
Theorem first_price_reward_winner N values bids r :
  first_price_reward N values [] r = None /\
  (bids <> [] -> (length bids <= length values)%nat -> (length bids <= N)%nat ->
   exists idx v b rewards,
     first_price_reward N values bids r = Some rewards /\
     length rewards = N /\
     first_max bids idx b /\ values !! idx = Some v /\
     (forall k, k <> idx -> (k < N)%nat -> rewards !! k = Some 0) /\
     rewards !! idx = Some (if Rlt_dec b v then Rpower (v - b) r else v - b) /\
     (forall x, rewards !! idx = Some x -> (0 < x <-> b < v)) /\
     (r = 1 -> rewards !! idx = Some (v - b))).
Proof.
  split; [done|]. intros Hne Hv HN.
  destruct (argmax_first_max bids Hne) as (idx & b & Ha & Hfm).
  pose proof Hfm as (Hb & _). pose proof (lookup_lt_Some _ _ _ Hb) as Hidx.
  destruct (lookup_lt_is_Some_2 values idx) as [v Hval]; [lia|].
  unfold first_price_reward. rewrite Ha. cbn [mbind option_bind].
  rewrite Hval, Hb. cbn [mbind option_bind].
  rewrite assign_Some by (rewrite length_replicate; lia).
  assert (risk_adjusted (v - b) r = if Rlt_dec b v then Rpower (v - b) r else v - b)
    as Hra.
  { unfold risk_adjusted. destruct (Rlt_dec 0 (v - b)), (Rlt_dec b v); (done || lra). }
  destruct (risk_adjusted_sign (v - b) r) as (Hs & _ & Hr1).
  exists idx, v, b. eexists. split; [done|].
  rewrite length_insert, length_replicate. split_and!; try done.
  - intros k Hk HkN. rewrite list_lookup_insert_ne by done.
    by apply lookup_replicate_2.
  - rewrite list_lookup_insert_eq by (rewrite length_replicate; lia). by rewrite Hra.
  - intros x. rewrite list_lookup_insert_eq by (rewrite length_replicate; lia).
    intros [= <-]. rewrite Hs. split; intros; lra.
  - intros ->. rewrite list_lookup_insert_eq by (rewrite length_replicate; lia).
    by rewrite Hr1.
Qed.

(** X19.  All-pay rewards ([MAAllPayAuctionEnv.reward_n_players]): with at
    least one bid and a value for every bidder, the call returns one reward
    per bid; every bidder except the first highest one gets
    [- bid - 0.1], which is negative for a bid [>= 0]; the winner gets the
    first-price reward. *)
Theorem all_pay_reward_losers values bids r :
  bids <> [] -> (length bids <= length values)%nat ->
  exists idx v b rewards,
    all_pay_reward values bids r = Some rewards /\
    length rewards = length bids /\
    first_max bids idx b /\ values !! idx = Some v /\
    (forall k x, k <> idx -> bids !! k = Some x ->
       rewards !! k = Some (- x - 0.1) /\ (0 <= x -> - x - 0.1 < 0)) /\
    rewards !! idx = Some (if Rlt_dec b v then Rpower (v - b) r else v - b).
Proof.
  intros Hne Hv.
  destruct (argmax_first_max bids Hne) as (idx & b & Ha & Hfm).
  pose proof Hfm as (Hb & _). pose proof (lookup_lt_Some _ _ _ Hb) as Hidx.
  destruct (lookup_lt_is_Some_2 values idx) as [v Hval]; [lia|].
  unfold all_pay_reward. rewrite Ha. cbn [mbind option_bind].
  rewrite Hval, Hb. cbn [mbind option_bind].
  rewrite assign_Some by (by rewrite length_map).
  assert (risk_adjusted (v - b) r = if Rlt_dec b v then Rpower (v - b) r else v - b)
    as Hra.
  { unfold risk_adjusted. destruct (Rlt_dec 0 (v - b)), (Rlt_dec b v); (done || lra). }
  exists idx, v, b. eexists. split; [done|].
  rewrite length_insert, length_map. split_and!; try done.
  - intros k x Hk Hx. rewrite list_lookup_insert_ne by done.
    change (map (fun b0 => - b0 - 0.1) bids) with ((fun b0 => - b0 - 0.1) <$> bids).
    rewrite list_lookup_fmap, Hx. split; [done|]. intros; lra.
  - rewrite list_lookup_insert_eq by (by rewrite length_map). by rewrite Hra.
Qed.

End EnvRewards.

(** X18, witness: bids 0.3 and 0.5 with values 0.9 and 0.8. *)
Lemma first_price_reward_winner_witness :
  exists idx v b rewards,
    Env.first_price_reward 2 [0.9; 0.8]%R [0.3; 0.5]%R 1 = Some rewards /\
    Env.first_max [0.3; 0.5]%R idx b /\ [0.9; 0.8]%R !! idx = Some v /\
    rewards !! idx = Some (v - b)%R.
Proof.
  destruct (proj2 (first_price_reward_winner 2 [0.9; 0.8]%R [0.3; 0.5]%R 1))
    as (idx & v & b & rewards & H & _ & Hm & Hv & _ & _ & _ & H1);
    [discriminate|simpl; lia|simpl; lia|].
  exists idx, v, b, rewards. split_and!; [exact H|exact Hm|exact Hv|exact (H1 eq_refl)].
Defined.

(** X19, witness: the same bids in the all-pay auction. *)
Lemma all_pay_reward_losers_witness :
  exists rewards,
    Env.all_pay_reward [0.9; 0.8]%R [0.3; 0.5]%R 1 = Some rewards /\
    length rewards = 2.
Proof.
  destruct (all_pay_reward_losers [0.9; 0.8]%R [0.3; 0.5]%R 1)
    as (idx & v & b & rewards & H & Hl & _); [discriminate|simpl; lia|].
  exists rewards. split; [exact H|exact Hl].
Defined.


Section EnvSecondPrice.
Import Env.
Open Scope R_scope.

Lemma argsort_outcome_facts bids order :
  argsort_outcome bids order ->
  length order = length bids /\ NoDup order /\
  (forall a, (a < length bids)%nat -> exists i, order !! i = Some a) /\
  (forall i a, order !! i = Some a -> (a < length bids)%nat).
Proof.
  intros [Hp _]. split_and!.
  - rewrite (Permutation_length Hp). apply length_seq.
  - rewrite Hp. apply NoDup_seq.
  - intros a Ha. apply list_elem_of_lookup_1. rewrite Hp. apply elem_of_seq. lia.
  - intros i a Hi. apply list_elem_of_lookup_2 in Hi. rewrite Hp in Hi.
    apply elem_of_seq in Hi. lia.
Qed.

(** X20.  Second-price rewards
    ([MASecondPriceAuctionEnv.reward_n_players]), for any outcome of
    [np.argsort]: with fewer than two bids the call raises; with two or
    more, a value for every bidder and [N] at least the number of bids, it
    returns [N] rewards; the winner holds a largest bid, the price is a
    bid of another bidder that is at least every other bid and at most the
    winner's bid; everybody but the winner gets 0; the winner gets the
    risk-adjusted [value - price], which is never negative for a winner
    who bid the own value. *)
Theorem second_price_reward_truthful N values bids r order :
  argsort_outcome bids order ->
  ((length bids < 2)%nat -> second_price_reward N values bids r order = None) /\
  ((2 <= length bids)%nat -> (length bids <= length values)%nat ->
   (length bids <= N)%nat ->
   exists w s v bw price rewards,
     second_price_reward N values bids r order = Some rewards /\
     length rewards = N /\ w <> s /\
     bids !! w = Some bw /\ bids !! s = Some price /\ values !! w = Some v /\
     (forall j x, bids !! j = Some x -> x <= bw) /\
     (forall j x, j <> w -> bids !! j = Some x -> x <= price) /\
     price <= bw /\
     (forall k, k <> w -> (k < N)%nat -> rewards !! k = Some 0) /\
     rewards !! w = Some (risk_adjusted (v - price) r) /\
     (v = bw -> 0 <= risk_adjusted (v - price) r)).
Proof.
  intros Hao. pose proof Hao as [_ Hsorted].
  destruct (argsort_outcome_facts _ _ Hao) as (Hlen & Hnd & Hall & Hrange).
  unfold second_price_reward, last_two. split.
  - intros Hlt. rewrite !lookup_drop.
    assert (order !! (length order - 2 + 1)%nat = None) as HNone
      by (apply lookup_ge_None_2; lia).
    rewrite HNone. by destruct (order !! (length order - 2 + 0)%nat).
  - intros H2 Hv HN. rewrite !lookup_drop.
    destruct (lookup_lt_is_Some_2 order (length order - 2 + 0)) as [s Hs]; [lia|].
    destruct (lookup_lt_is_Some_2 order (length order - 2 + 1)) as [w Hw]; [lia|].
    rewrite Hs, Hw. cbn [mbind option_bind].
    pose proof (Hrange _ _ Hs) as Hsr. pose proof (Hrange _ _ Hw) as Hwr.
    destruct (lookup_lt_is_Some_2 values w) as [v Hval]; [lia|].
    destruct (lookup_lt_is_Some_2 bids s) as [price Hprice]; [lia|].
    destruct (lookup_lt_is_Some_2 bids w) as [bw Hbw]; [lia|].
    rewrite Hval, Hprice. cbn [mbind option_bind].
    rewrite assign_Some by (rewrite length_replicate; lia).
    assert (w <> s) as Hws.
    { intros ->. pose proof (NoDup_lookup _ _ _ _ Hnd Hs Hw). lia. }
    assert (forall j x, bids !! j = Some x -> x <= bw) as Hmax.
    { intros j x Hj. destruct (Hall j) as [i Hi]; [by eapply lookup_lt_Some|].
      pose proof (lookup_lt_Some _ _ _ Hi).
      eapply (Hsorted i (length order - 2 + 1)%nat); try done. lia. }
    assert (forall j x, j <> w -> bids !! j = Some x -> x <= price) as Hsecond.
    { intros j x Hjw Hj. destruct (Hall j) as [i Hi]; [by eapply lookup_lt_Some|].
      pose proof (lookup_lt_Some _ _ _ Hi).
      assert (i <> length order - 2 + 1)%nat.
      { intros ->. rewrite Hw in Hi. by injection Hi. }
      eapply (Hsorted i (length order - 2 + 0)%nat); try done. lia. }
    assert (price <= bw) as Hpw by (by eapply Hmax).
    exists w, s, v, bw, price. eexists. split; [done|].
    rewrite length_insert, length_replicate. split_and!; try done.
    + intros k Hk HkN. rewrite list_lookup_insert_ne by done.
      by apply lookup_replicate_2.
    + by rewrite list_lookup_insert_eq by (rewrite length_replicate; lia).
    + intros ->. apply risk_adjusted_sign. lra.
Qed.

(** X21.  Rewards of the local-local-global auction
    ([MACoreSelectingAuctionEnv.reward_n_players]) on three values and
    three bids, whatever [r]: when the locals' bids add up to more than the
    global bid [B], the global bidder gets 0 and local [i] gets
    [v_i - max 0 (B - b_other)]; for bids [>= 0] each local pays at most
    the own bid and the two payments add up to at most [B].  Otherwise the
    locals get 0 and the global bidder gets [v_global - (b1 + b2)], which
    is not negative when [B <= v_global]. *)
Theorem core_selecting_reward_payments v1 v2 vg b1 b2 B r :
  exists r1 r2 rg,
    core_selecting_reward [v1; v2; vg] [b1; b2; B] r = Some (r1, r2, rg) /\
    (B < b1 + b2 ->
       rg = 0 /\ r1 = v1 - Rmax 0 (B - b2) /\ r2 = v2 - Rmax 0 (B - b1) /\
       (0 <= b1 -> v1 - r1 <= b1) /\ (0 <= b2 -> v2 - r2 <= b2) /\
       (0 <= b1 -> 0 <= b2 -> 0 <= B -> (v1 - r1) + (v2 - r2) <= B)) /\
    (b1 + b2 <= B ->
       r1 = 0 /\ r2 = 0 /\ rg = vg - (b1 + b2) /\ (B <= vg -> 0 <= rg)).
Proof.
  unfold core_selecting_reward. cbn [lookup list_lookup mbind option_bind].
  destruct (Rlt_dec B (b1 + b2)) as [Hl|Hg].
  - eexists _, _, _. split; [done|]. split; [|intros; lra]. intros _.
    unfold Rmax.
    destruct (Rlt_dec b2 B), (Rlt_dec b1 B), (Rle_dec 0 (B - b2)),
      (Rle_dec 0 (B - b1)); split_and!; intros; lra.
  - eexists _, _, _. split; [done|]. split; [intros; lra|]. intros _.
    split_and!; intros; lra.
Qed.

End EnvSecondPrice.

(** X20, witness: two bidders; [np.argsort([0.5, 0.3])] is [[1, 0]]. *)
Lemma second_price_reward_truthful_witness :
  Env.argsort_outcome [0.5; 0.3]%R [1; 0] /\
  exists rewards,
    Env.second_price_reward 2 [0.5; 0.3]%R [0.5; 0.3]%R 1 [1; 0] = Some rewards /\
    length rewards = 2.
Proof.
  assert (Env.argsort_outcome [0.5; 0.3]%R [1; 0]) as Hao.
  { split; [apply perm_swap|].
    intros [|[|i]] [|[|j]] a b x y Hij Ha Hb Hx Hy; simpl in *;
      simplify_eq; simpl in *; simplify_eq; try lia; lra. }
  split; [exact Hao|].
  destruct (proj2 (second_price_reward_truthful 2 [0.5; 0.3]%R [0.5; 0.3]%R 1
                     [1; 0] Hao))
    as (w & s & v & bw & price & rewards & H & Hl & _);
    [simpl; lia|simpl; lia|simpl; lia|].
  exists rewards. split; [exact H|exact Hl].
Defined.


Section EnvCommon.
Import Env.
Open Scope R_scope.

Lemma max_of_spec x l :
  (forall y, In y (x :: l) -> y <= max_of x l) /\ In (max_of x l) (x :: l).
Proof.
  unfold max_of. revert x. induction l as [|z l IH]; intros x.
  - simpl. split; [intros y [<-|[]]; lra|by left].
  - cbn [foldl]. destruct (IH (Rmax x z)) as [Hge Hin]. split.
    + intros y [<-|[<-|Hy]].
      * pose proof (Hge (Rmax x z) (or_introl eq_refl)).
        pose proof (Rmax_l x z). lra.
      * pose proof (Hge (Rmax x z) (or_introl eq_refl)).
        pose proof (Rmax_r x z). lra.
      * apply Hge. by right.
    + destruct Hin as [Hin|Hin]; [|by right; right].
      rewrite <- Hin. unfold Rmax. destruct (Rle_dec x z); [right; by left|by left].
Qed.

Lemma where_equal_spec A m i :
  In i (where_equal A m) <-> A !! i = Some m.
Proof.
  unfold where_equal. rewrite filter_In, in_seq. split.
  - intros [_ H]. destruct (A !! i) as [x|]; [|done].
    destruct (Req_dec_T x m) as [->|]; done.
  - intros H. split; [apply lookup_lt_Some in H; lia|].
    rewrite H. by destruct (Req_dec_T m m).
Qed.

(** X22.  Common-value rewards
    ([MACommonPriceAuctionEnv.reward_n_players] with
    [argmax_with_random_tie]): for at least one bid, [N] at least the number
    of bids and a draw among the positions of the largest bid, the call
    returns [N] rewards, the winner holds a largest bid and gets
    [common_value - bid], everybody else gets 0; and when the largest bid
    is held by one bidder only, the draw plays no role. *)
Theorem common_price_reward_winner N common_value bids pick :
  (bids <> [] -> (length bids <= N)%nat ->
   (pick < length (max_indices bids))%nat ->
   exists idx b rewards,
     common_price_reward N common_value bids pick = Some rewards /\
     length rewards = N /\ bids !! idx = Some b /\
     (forall j x, bids !! j = Some x -> x <= b) /\
     rewards !! idx = Some (common_value - b) /\
     (forall k, k <> idx -> (k < N)%nat -> rewards !! k = Some 0)) /\
  (length (max_indices bids) = 1%nat ->
   forall pick',
     common_price_reward N common_value bids pick'
       = common_price_reward N common_value bids pick).
Proof.
  split.
  - intros Hne HN Hpick. destruct bids as [|x l]; [done|].
    cbn [max_indices] in Hpick.
    set (A := x :: l) in *. set (m := max_of x l) in *.
    destruct (max_of_spec x l) as [Hge Hin]. fold m in Hge, Hin.
    assert (exists idx, argmax_with_random_tie A pick = Some idx /\
                        In idx (where_equal A m)) as (idx & Harg & Hidx).
    { unfold argmax_with_random_tie, A. fold A. fold m.
      destruct (Nat.eqb_spec (length (where_equal A m)) 1) as [H1|_].
      - destruct (lookup_lt_is_Some_2 (where_equal A m) 0) as [i Hi]; [lia|].
        exists i. split; [done|].
        apply list_elem_of_In. by eapply list_elem_of_lookup_2.
      - destruct (lookup_lt_is_Some_2 (where_equal A m) pick) as [i Hi]; [lia|].
        exists i. split; [done|].
        apply list_elem_of_In. by eapply list_elem_of_lookup_2. }
    apply where_equal_spec in Hidx.
    pose proof (lookup_lt_Some _ _ _ Hidx) as Hlt.
    unfold common_price_reward. rewrite Harg. cbn [mbind option_bind].
    rewrite Hidx. cbn [mbind option_bind].
    rewrite assign_Some by (rewrite length_replicate; lia).
    exists idx, m. eexists. split; [done|].
    rewrite length_insert, length_replicate. split_and!; try done.
    + intros j y Hj. apply Hge. apply list_elem_of_In.
      by eapply list_elem_of_lookup_2.
    + by rewrite list_lookup_insert_eq by (rewrite length_replicate; lia).
    + intros k Hk HkN. rewrite list_lookup_insert_ne by done.
      by apply lookup_replicate_2.
  - intros H1 pick'. unfold common_price_reward, argmax_with_random_tie.
    destruct bids as [|x l]; [done|]. cbn [max_indices] in H1.
    by rewrite H1.
Qed.

(** X23.  [MACommonPriceAuctionEnv.reset] with [vl <= vh], [eps >= 0] and
    draws in [[0, 1]]: the common value lies in [[vl, vh]], there is one
    signal per draw, and every signal lies within [eps] of the common value
    and in [[vl, vh]]. *)
Theorem common_price_reset_signals vl vh eps u us :
  vl <= vh -> 0 <= eps -> 0 <= u <= 1 -> Forall (fun ui => 0 <= ui <= 1) us ->
  vl <= (common_price_reset vl vh eps u us).1 <= vh /\
  length (common_price_reset vl vh eps u us).2 = length us /\
  Forall (fun s =>
            (common_price_reset vl vh eps u us).1 - eps <= s
              <= (common_price_reset vl vh eps u us).1 + eps /\
            vl <= s <= vh)
         (common_price_reset vl vh eps u us).2.
Proof.
  intros Hv He Hu Hus. unfold common_price_reset. cbn [fst snd].
  set (cv := uniform vl vh u).
  assert (vl <= cv <= vh) as Hcv by (unfold cv, uniform; nra).
  split; [done|]. split; [by rewrite length_map|].
  apply List.Forall_map. eapply List.Forall_impl; [|exact Hus].
  intros ui Hui. cbn beta.
  assert (Rmax (cv - eps) vl <= Rmin (cv + eps) vh) as Hlt.
  { unfold Rmax, Rmin. destruct (Rle_dec (cv - eps) vl), (Rle_dec (cv + eps) vh); lra. }
  assert (cv - eps <= Rmax (cv - eps) vl /\ vl <= Rmax (cv - eps) vl) as [L1 L2]
    by (split; [apply Rmax_l|apply Rmax_r]).
  assert (Rmin (cv + eps) vh <= cv + eps /\ Rmin (cv + eps) vh <= vh) as [T1 T2]
    by (split; [apply Rmin_l|apply Rmin_r]).
  clearbody cv. unfold uniform.
  set (lo := Rmax (cv - eps) vl) in *. set (hi := Rmin (cv + eps) vh) in *.
  clearbody lo hi. nra.
Qed.

(** X24.  [MAJointFirstPriceAuctionEnv.reset]: the draw [u = 0] makes
    [x = 0] and the division by [4.0*x] raises; for [0 < u < 1] and
    [0 <= v < 1] the call returns [[x, y]] with [0 < x < 1] and
    [0 <= y < 1], where [x (x + 1) / 2 = u] and
    [2 x y^2 + y = v (1 + 2 x)] (the two inverted distribution
    functions). *)
Theorem joint_reset_values u v :
  joint_reset 0 v = None /\
  (0 < u < 1 -> 0 <= v < 1 ->
   exists x y,
     joint_reset u v = Some [x; y] /\
     0 < x < 1 /\ 0 <= y < 1 /\
     x * (x + 1) / 2 = u /\ 2 * x * (y * y) + y = v * (1 + 2 * x)).
Proof.
  split.
  - unfold joint_reset, math_sqrt.
    destruct (Rlt_dec (1 + 8 * 0) 0) as [|_]; [lra|]. cbn [mbind option_bind].
    replace (1 + 8 * 0) with 1 by lra. rewrite sqrt_1.
    replace ((-1 + 1) / 2) with 0 by lra.
    destruct (Rlt_dec (1 + 8 * 0 * v * (1 + 2 * 0)) 0); [done|].
    cbn [mbind option_bind]. destruct (Req_dec_T (4 * 0) 0); [done|lra].
  - intros Hu Hv. unfold joint_reset, math_sqrt.
    destruct (Rlt_dec (1 + 8 * u) 0) as [|_]; [lra|]. cbn [mbind option_bind].
    set (s := sqrt (1 + 8 * u)).
    assert (s * s = 1 + 8 * u) as Hs2 by (apply sqrt_sqrt; lra).
    assert (0 <= s) as Hs0 by apply sqrt_pos.
    assert (1 < s < 3) as Hs by (split; nra).
    set (x := (-1 + s) / 2).
    assert (0 < x < 1) as Hx by (unfold x; lra).
    assert (x * (x + 1) / 2 = u) as Hxu by (unfold x; nra).
    destruct (Rlt_dec (1 + 8 * x * v * (1 + 2 * x)) 0) as [Hneg|_]; [nra|].
    cbn [mbind option_bind].
    set (s' := sqrt (1 + 8 * x * v * (1 + 2 * x))).
    assert (s' * s' = 1 + 8 * x * v * (1 + 2 * x)) as Hs2' by (apply sqrt_sqrt; nra).
    assert (0 <= s') as Hs0' by apply sqrt_pos.
    assert (1 <= s') as Hs1' by nra.
    assert (s' < 1 + 4 * x) as Hs3'.
    { apply Rnot_le_lt. intros Hle. nra. }
    destruct (Req_dec_T (4 * x) 0) as [|_]; [lra|].
    exists x, ((-1 + s') / (4 * x)). split; [done|].
    set (y := (-1 + s') / (4 * x)).
    assert (y * (4 * x) = -1 + s') as Hy by (unfold y; field; lra).
    assert (0 <= y) as Hy0.
    { unfold y. apply Rmult_le_pos; [lra|]. left. apply Rinv_0_lt_compat. lra. }
    assert (y < 1) as Hy1.
    { apply (Rmult_lt_reg_r (4 * x)); [lra|]. rewrite Hy. lra. }
    split_and!; try done; try lra.
    assert (s' = 1 + 4 * x * y) as Hs' by lra.
    rewrite Hs' in Hs2'. nra.
Qed.

End EnvCommon.

(** X22, witness: two equal largest bids and the draw of the second. *)
Lemma common_price_reward_winner_witness :
  exists idx b rewards,
    Env.common_price_reward 3 0.8 [0.5; 0.2; 0.5]%R 1 = Some rewards /\
    [0.5; 0.2; 0.5]%R !! idx = Some b /\
    rewards !! idx = Some (0.8 - b)%R.
Proof.
  destruct (proj1 (common_price_reward_winner 3 0.8 [0.5; 0.2; 0.5]%R 1))
    as (idx & b & rewards & H & _ & Hb & _ & Hr & _).
  - discriminate.
  - simpl. lia.
  - unfold Env.max_indices, Env.where_equal, Env.max_of. simpl.
    unfold Rmax. repeat (destruct (Rle_dec _ _); try lra).
    all: repeat (destruct (Req_dec_T _ _); try lra); simpl; lia.
  - exists idx, b, rewards. split_and!; [exact H|exact Hb|exact Hr].
Defined.

(** X23, witness: the default environment ([vl = 0], [vh = 1],
    [eps = 0.1]) with two signals. *)
Lemma common_price_reset_signals_witness :
  length (Env.common_price_reset 0 1 0.1 0.5 [0.2; 0.9]%R).2 = 2.
Proof.
  refine (proj1 (proj2 (common_price_reset_signals 0 1 0.1 0.5 [0.2; 0.9]%R
                          _ _ _ _))); try lra.
  repeat constructor; lra.
Defined.

(** X24, witness: the draws [u = 0.375] and [v = 0.5]. *)
Lemma joint_reset_values_witness :
  exists x y, Env.joint_reset 0.375 0.5 = Some [x; y] /\ (0 < x < 1)%R.
Proof.
  destruct (proj2 (joint_reset_values 0.375 0.5)) as (x & y & H & Hx & _);
    [lra|lra|].
  exists x, y. split; [exact H|exact Hx].
Defined.

